(** * next-toppers: ingestion pipeline, URL normalisation and batch editor

    A shallow embedding of the TypeScript sources

      - [src/utils/videoPlayer.ts]      ([getVideoPlayerURL], [isM3U8Url])
      - [src/utils/xlsxParser.ts]       ([getSectionTypeFromName],
                                         [parseXLSXFile], [processSubjectFolder],
                                         [processFolderStructure])
      - [src/components/BatchEditor.tsx] ([handleBatchChange],
                                         [handleNestedChange], [addSubject],
                                         [deleteSubject], [addSection],
                                         [deleteSection], [addContent],
                                         [deleteContent], [handleContentSelection],
                                         [applyBulkThumbnail],
                                         [getTotalContentCount] and the pass
                                         of [handleThumbnailSelect] over the
                                         Contents)
      - the [SubjectView] component     ([contentByType], [availableTabs],
                                         [activeTab], [activeContent],
                                         [getHrefForContent])
      - [src/components/ContentThumbnail.tsx] (the coded title and URL,
                                         [handleClick])

    together with the part of the JavaScript platform these functions
    rely on (string methods, URI coding, base64, property access, array
    methods, immer's [produce]).

    Conventions of the model.

    - A JavaScript string is a sequence of UTF-16 code units.  The model
      covers the strings all of whose code units are below 256, written as
      Rocq [string]s (one [ascii] per code unit).  Every string method used
      by the sources maps such strings to such strings, except URI
      decoding, which reports [Unmodelled] when a decoded code point does
      not fit.
    - A computation that can raise has type [outcome A]: it completes with
      [Ok], raises with [Throw], or leaves the modelled fragment of
      JavaScript with [Unmodelled].
    - A value is a primitive, an object or an array; numbers are integers,
      array indices are below 2^32 - 1, and there are no functions, dates
      or class instances.  Reading a member that a value inherits (from
      [Object.prototype], [Array.prototype], [String.prototype] or
      [Number.prototype], as of ECMAScript 2024) gives a function, hence
      [Unmodelled]; the setter [__proto__] is not modelled either, and
      the properties about assignments leave that name out.
    - The modules are ES modules, hence strict-mode code.
    - An object has an address, which is its identity.  [produce] follows
      immer: drafts are created on access, a draft is marked modified by
      an assignment that changes it, together with its ancestors, and at
      the end every modified draft is a new object while every other node
      of the result is the object of the base state. *)

From Stdlib Require Import ZArith NArith Ascii String List Bool Lia DecimalString.
From stdpp Require Import base option list strings gmap.

Local Open Scope string_scope.
Local Open Scope list_scope.

#[local] Arguments String.append !_ _ / : simpl nomatch.

(** ** Completion records *)

Inductive exn : Type :=
| TypeError      (* property access on undefined/null, call of a non-function,
                    assignment to a property of a primitive (strict mode) *)
| URIError       (* malformed escape sequence in decodeURIComponent *)
| ReadError.     (* the file could not be read, or not decoded as a workbook *)

Inductive outcome (A : Type) : Type :=
| Ok (a : A)
| Throw (e : exn)
| Unmodelled.

Arguments Ok {A} a.
Arguments Throw {A} e.
Arguments Unmodelled {A}.

#[global] Instance outcome_ret : MRet outcome := fun _ a => Ok a.
#[global] Instance outcome_bind : MBind outcome := fun _ _ f m =>
  match m with
  | Ok a => f a
  | Throw e => Throw e
  | Unmodelled => Unmodelled
  end.
#[global] Instance outcome_fmap : FMap outcome := fun _ _ f m =>
  match m with
  | Ok a => Ok (f a)
  | Throw e => Throw e
  | Unmodelled => Unmodelled
  end.

(** ** JavaScript strings *)

Module JSString.

Definition code (c : ascii) : N := N_of_ascii c.

Definition in_range (lo hi : N) (c : ascii) : bool :=
  ((lo <=? code c) && (code c <=? hi))%N.

(** WhiteSpace and LineTerminator code units below 256:
    TAB, LF, VT, FF, CR, SP and NBSP. *)
Definition isWhiteSpace (c : ascii) : bool :=
  in_range 9 13 c || (code c =? 32)%N || (code c =? 160)%N.

Fixpoint trimStart (s : string) : string :=
  match s with
  | EmptyString => EmptyString
  | String c r => if isWhiteSpace c then trimStart r else s
  end.

Fixpoint trimEnd (s : string) : string :=
  match s with
  | EmptyString => EmptyString
  | String c r =>
      match trimEnd r with
      | EmptyString => if isWhiteSpace c then EmptyString else String c EmptyString
      | r' => String c r'
      end
  end.

(** [s.trim()] *)
Definition trim (s : string) : string := trimEnd (trimStart s).

(** [!s] for a string [s]. *)
Definition falsy (s : string) : bool := String.eqb s EmptyString.

(** [s.startsWith(p)] *)
Definition startsWith (s p : string) : bool := String.prefix p s.

(** [s.includes(p)] *)
Fixpoint includes (s p : string) : bool :=
  String.prefix p s ||
  match s with
  | EmptyString => false
  | String _ r => includes r p
  end.

(** [s.slice(n)] *)
Fixpoint slice (n : nat) (s : string) : string :=
  match n, s with
  | S n', String _ r => slice n' r
  | _, _ => s
  end.

(** [s.endsWith(p)] *)
Definition endsWith (s p : string) : bool :=
  (String.length p <=? String.length s)%nat &&
  String.eqb (slice (String.length s - String.length p) s) p.

(** [s.replace(p, r)] with a string pattern [p] and a replacement [r]
    without [$]: only the first occurrence of [p] is replaced. *)
Fixpoint replace (s p r : string) : string :=
  if String.prefix p s then r +:+ slice (String.length p) s
  else match s with
       | EmptyString => EmptyString
       | String c t => String c (replace t p r)
       end.

(** [s.split(sep)] for a separator of one code unit. *)
Fixpoint split (s : string) (sep : ascii) : list string :=
  match s with
  | EmptyString => [EmptyString]
  | String c r =>
      if Ascii.eqb c sep then EmptyString :: split r sep
      else match split r sep with
           | [] => [String c EmptyString]
           | w :: ws => String c w :: ws
           end
  end.

(** Lower-case mapping of one code unit: A-Z and the capital letters of
    the Latin-1 supplement (U+00C0..U+00DE without the multiplication
    sign U+00D7) move up by 32; every other code unit below 256 is its
    own lower case. *)
Definition lowerChar (c : ascii) : ascii :=
  if in_range 65 90 c || (in_range 192 222 c && negb (code c =? 215)%N)
  then ascii_of_N (code c + 32) else c.

(** [s.toLowerCase()] *)
Fixpoint toLowerCase (s : string) : string :=
  match s with
  | EmptyString => EmptyString
  | String c r => String (lowerChar c) (toLowerCase r)
  end.

(** *** URI coding *)

Definition hexDigit (n : N) : ascii :=
  ascii_of_N (if (n <? 10)%N then 48 + n else 55 + n).

Definition percent (b : N) : string :=
  String "%" (String (hexDigit (b / 16)) (String (hexDigit (b mod 16)) EmptyString)).

(** UTF-8 octets of a code unit below 256. *)
Definition utf8 (c : ascii) : list N :=
  if (code c <? 128)%N then [code c]
  else [(192 + code c / 64)%N; (128 + code c mod 64)%N].

Definition isAlnum (c : ascii) : bool :=
  in_range 48 57 c || in_range 65 90 c || in_range 97 122 c.

(** uriUnreserved: alphanumerics and the marks [- _ . ! ~ * ' ( )]. *)
Definition uriUnreserved (c : ascii) : bool :=
  isAlnum c || existsb (Ascii.eqb c) (list_ascii_of_string "-_.!~*'()").

Definition encodeChar (c : ascii) : string :=
  if uriUnreserved c then String c EmptyString
  else fold_right (fun b acc => percent b +:+ acc) EmptyString (utf8 c).

(** [encodeURIComponent(s)] *)
Fixpoint encodeURIComponent (s : string) : string :=
  match s with
  | EmptyString => EmptyString
  | String c r => encodeChar c +:+ encodeURIComponent r
  end.

Definition hexValue (c : ascii) : option N :=
  if in_range 48 57 c then Some (code c - 48)%N
  else if in_range 65 70 c then Some (code c - 55)%N
  else if in_range 97 102 c then Some (code c - 87)%N
  else None.

(** The octet written [%XY] at the head of [s], and the rest of [s]. *)
Definition escapeAt (s : string) : option (N * string) :=
  match s with
  | String "%" (String x (String y r)) =>
      match hexValue x, hexValue y with
      | Some h, Some l => Some ((16 * h + l)%N, r)
      | _, _ => None
      end
  | _ => None
  end.

(** The string as literal code units and escaped octets; [None] when a
    [%] is not followed by two hexadecimal digits. *)
Inductive token : Type :=
| Lit (c : ascii)
| Esc (b : N).

Fixpoint tokens (s : string) : option (list token) :=
  match s with
  | EmptyString => Some []
  | String "%" (String x (String y r)) =>
      match hexValue x, hexValue y, tokens r with
      | Some h, Some l, Some ts => Some (Esc (16 * h + l) :: ts)
      | _, _, _ => None
      end
  | String "%" _ => None
  | String c r => cons (Lit c) <$> tokens r
  end.

Definition isContinuation (b : N) : bool := ((128 <=? b) && (b <? 192))%N.

(** The code point a well-formed UTF-8 sequence of two, three or four
    octets encodes; [None] when a trailing octet is not a continuation
    octet, the encoding is over-long, or the code point is a surrogate or
    beyond U+10FFFF. *)
Definition codePoint2 (b0 b1 : N) : option N :=
  let cp := ((b0 - 192) * 64 + (b1 - 128))%N in
  if isContinuation b1 && (128 <=? cp)%N then Some cp else None.

Definition codePoint3 (b0 b1 b2 : N) : option N :=
  let cp := ((b0 - 224) * 4096 + (b1 - 128) * 64 + (b2 - 128))%N in
  if isContinuation b1 && isContinuation b2 && (2048 <=? cp)%N
     && negb ((55296 <=? cp) && (cp <=? 57343))%N
  then Some cp else None.

Definition codePoint4 (b0 b1 b2 b3 : N) : option N :=
  let cp := ((b0 - 240) * 262144 + (b1 - 128) * 4096 + (b2 - 128) * 64 + (b3 - 128))%N in
  if isContinuation b1 && isContinuation b2 && isContinuation b3
     && (65536 <=? cp)%N && (cp <=? 1114111)%N
  then Some cp else None.

(** Appends the decoded code point to the decoding of the rest.  A
    malformed rest raises whatever precedes it; a code point from 256 on
    has no code unit in the model. *)
Definition emit (cp : option N) (rest : outcome string) : outcome string :=
  match cp, rest with
  | None, _ => Throw URIError
  | Some _, Throw e => Throw e
  | Some n, Ok r => if (n <? 256)%N then Ok (String (ascii_of_N n) r) else Unmodelled
  | Some _, Unmodelled => Unmodelled
  end.

(** The Decode operation of ECMAScript with an empty set of preserved
    escapes, on a tokenised string. *)
Fixpoint decodeTokens (ts : list token) : outcome string :=
  match ts with
  | [] => Ok EmptyString
  | Lit c :: r => String c <$> decodeTokens r
  | Esc b :: r =>
      if (b <? 128)%N then String (ascii_of_N b) <$> decodeTokens r
      else if (b <? 192)%N then Throw URIError
      else if (b <? 224)%N then
        match r with
        | Esc b1 :: r1 => emit (codePoint2 b b1) (decodeTokens r1)
        | _ => Throw URIError
        end
      else if (b <? 240)%N then
        match r with
        | Esc b1 :: Esc b2 :: r2 => emit (codePoint3 b b1 b2) (decodeTokens r2)
        | _ => Throw URIError
        end
      else if (b <? 248)%N then
        match r with
        | Esc b1 :: Esc b2 :: Esc b3 :: r3 =>
            emit (codePoint4 b b1 b2 b3) (decodeTokens r3)
        | _ => Throw URIError
        end
      else Throw URIError
  end.

(** [decodeURIComponent(s)] *)
Definition decodeURIComponent (s : string) : outcome string :=
  match tokens s with
  | Some ts => decodeTokens ts
  | None => Throw URIError
  end.

(** [String(n)] for a non-negative integer [n]. *)
Definition ofNat (n : nat) : string := NilZero.string_of_uint (Nat.to_uint n).

(** The array index a property name denotes, if it is the canonical
    decimal numeral of one. *)
Definition toIndex (s : string) : option nat :=
  match NilZero.uint_of_string s with
  | Some u => let n := Nat.of_uint u in if String.eqb (ofNat n) s then Some n else None
  | None => None
  end.

(** *** URLSearchParams *)

Fixpoint plusToSpace (s : string) : string :=
  match s with
  | EmptyString => EmptyString
  | String c r => String (if Ascii.eqb c "+" then " "%char else c) (plusToSpace r)
  end.

(** Percent-decoding of the URL standard: an escape that is not well
    formed stands for itself; the result is a sequence of octets, the
    code units outside escapes being UTF-8 encoded. *)
Fixpoint percentDecode (s : string) : list N :=
  match s with
  | EmptyString => []
  | String c r =>
      match escapeAt s, r with
      | Some (b, _), String _ (String _ r2) => b :: percentDecode r2
      | _, _ => utf8 c ++ percentDecode r
      end
  end.

(** UTF-8 decoding of octets.  The standard replaces ill-formed input by
    U+FFFD; that and every code point from 256 on is outside the model. *)
Fixpoint utf8Decode (bs : list N) : outcome string :=
  match bs with
  | [] => Ok EmptyString
  | b :: r =>
      if (b <? 128)%N then String (ascii_of_N b) <$> utf8Decode r
      else if ((194 <=? b) && (b <=? 195))%N then
        match r with
        | b1 :: r1 =>
            if isContinuation b1
            then String (ascii_of_N ((b - 192) * 64 + (b1 - 128))) <$> utf8Decode r1
            else Unmodelled
        | [] => Unmodelled
        end
      else Unmodelled
  end.

Definition formDecode (s : string) : outcome string :=
  utf8Decode (percentDecode (plusToSpace s)).

(** Name and value of one [&]-separated piece: split at the first [=]. *)
Fixpoint splitPair (s : string) : string * string :=
  match s with
  | EmptyString => (EmptyString, EmptyString)
  | String c r =>
      if Ascii.eqb c "=" then (EmptyString, r)
      else let '(n, v) := splitPair r in (String c n, v)
  end.

(** [new URLSearchParams(init)]: the pieces of the query, empty ones
    skipped, a leading [?] removed. *)
Definition URLSearchParams (init : option string) : list (string * string) :=
  match init with
  | None => []
  | Some s =>
      let q := match s with String "?" r => r | _ => s end in
      splitPair <$> filter (fun p => p <> EmptyString) (split q "&")
  end.

(** [params.get(name)]: the value of the first pair called [name], or
    [null]. *)
Fixpoint get (params : list (string * string)) (name : string) : outcome (option string) :=
  match params with
  | [] => Ok None
  | (n, v) :: r =>
      match formDecode n with
      | Ok n' => if String.eqb n' name then Some <$> formDecode v else get r name
      | _ => get r name
      end
  end.

End JSString.

Import JSString.

(** ** Inherited members *)

Module JSObject.

(** The names of the members of [Object.prototype], which every object
    and every primitive but [undefined] and [null] inherits. *)
Definition inherited (name : string) : bool :=
  existsb (String.eqb name)
    ["constructor"; "hasOwnProperty"; "isPrototypeOf"; "propertyIsEnumerable";
     "toLocaleString"; "toString"; "valueOf"; "__proto__";
     "__defineGetter__"; "__defineSetter__"; "__lookupGetter__"; "__lookupSetter__"].

(** The names of the other members of [Array.prototype],
    [String.prototype] and [Number.prototype]; [Boolean.prototype] has
    none. *)
Definition arrayMembers : list string :=
  ["at"; "concat"; "copyWithin"; "entries"; "every"; "fill"; "filter"; "find";
   "findIndex"; "findLast"; "findLastIndex"; "flat"; "flatMap"; "forEach";
   "includes"; "indexOf"; "join"; "keys"; "lastIndexOf"; "map"; "pop"; "push";
   "reduce"; "reduceRight"; "reverse"; "shift"; "slice"; "some"; "sort"; "splice";
   "toReversed"; "toSorted"; "toSpliced"; "unshift"; "values"; "with"].

Definition stringMembers : list string :=
  ["anchor"; "at"; "big"; "blink"; "bold"; "charAt"; "charCodeAt"; "codePointAt";
   "concat"; "endsWith"; "fixed"; "fontcolor"; "fontsize"; "includes"; "indexOf";
   "isWellFormed"; "italics"; "lastIndexOf"; "link"; "localeCompare"; "match";
   "matchAll"; "normalize"; "padEnd"; "padStart"; "repeat"; "replace"; "replaceAll";
   "search"; "slice"; "small"; "split"; "startsWith"; "strike"; "sub"; "substr";
   "substring"; "sup"; "toLocaleLowerCase"; "toLocaleUpperCase"; "toLowerCase";
   "toUpperCase"; "toWellFormed"; "trim"; "trimEnd"; "trimLeft"; "trimRight";
   "trimStart"].

Definition numberMembers : list string := ["toExponential"; "toFixed"; "toPrecision"].

(** [name] is a member inherited by a value whose prototype has the
    [members] besides those of [Object.prototype]. *)
Definition inherits (members : list string) (name : string) : bool :=
  existsb (String.eqb name) members || inherited name.

End JSObject.

Import JSObject.

(** ** src/utils/videoPlayer.ts *)

Module VideoPlayer.

Definition livePrefix : string := "https://edumastervideoplarerwatch.netlify.app/live/".
Definition recPrefix : string := "https://edumastervideoplarerwatch.netlify.app/rec/".

Definition getVideoPlayerURL (videoUrl : string) (isLive : bool) : string :=
  if falsy videoUrl || falsy (trim videoUrl) then "#"
  else if startsWith videoUrl livePrefix || startsWith videoUrl recPrefix then videoUrl
  else
    let prefix := if isLive then livePrefix else recPrefix in
    prefix +:+ encodeURIComponent videoUrl.

(** [isM3U8Url(url)] *)
Definition isM3U8Url (url : string) : bool := includes url ".m3u8" || includes url "m3u8".

End VideoPlayer.

(** ** src/utils/xlsxParser.ts *)

Module XlsxParser.

Inductive SectionType : Type := video | notes | assignment | quiz.

Record XLSXContent : Type := { url : string; title : string }.

Record ParsedSectionData : Type :=
  { name : string; type : SectionType; contents : list XLSXContent }.

Definition getSectionTypeFromName (name : string) : SectionType :=
  let lowerName := toLowerCase name in
  if includes lowerName "video" then video
  else if includes lowerName "notes" then notes
  else if includes lowerName "quiz" then quiz
  else if includes lowerName "dpp"
          || includes lowerName "acp"
          || includes lowerName "wpp"
          || includes lowerName "otp"
          || includes lowerName "assignment" then assignment
  else video.

(** A cell of a row of [XLSX.utils.sheet_to_json(worksheet, {header: 1})]:
    absent, a text, or another scalar (number or boolean), which the
    parser observes through its truthiness and its [toString()] only. *)
Inductive cell : Type :=
| CEmpty
| CText (s : string)
| CScalar (truthy : bool) (text : string).

Definition truthy (c : option cell) : bool :=
  match c with
  | Some (CText s) => negb (String.eqb s EmptyString)
  | Some (CScalar b _) => b
  | Some CEmpty | None => false
  end.

(** [c.toString()] for a truthy cell. *)
Definition toString (c : option cell) : string :=
  match c with
  | Some (CText s) => s
  | Some (CScalar _ s) => s
  | Some CEmpty | None => EmptyString
  end.

(** Lines 56-63: the target of an embedded player link. *)
Definition extractVideoUrl (url : string) : outcome string :=
  if includes url "eduverseplay?videoUrl=" then
    let urlParams := URLSearchParams (split url "?" !! 1%nat) in
    videoUrl ← get urlParams "videoUrl";
    match videoUrl with
    | Some v => if String.eqb v EmptyString then Ok url else decodeURIComponent v
    | None => Ok url
    end
  else Ok url.

(** The body of the loop over the rows, lines 51-66: the entries pushed
    for one row. *)
Definition parseRow (row : list cell) : outcome (list XLSXContent) :=
  if (2 <=? length row)%nat && truthy (row !! 0%nat) && truthy (row !! 1%nat) then
    let url := trim (toString (row !! 0%nat)) in
    let title := trim (toString (row !! 1%nat)) in
    url ← extractVideoUrl url;
    Ok [{| url := url; title := title |}]
  else Ok [].

(** [for (let i = 1; i < jsonData.length; i++)], with [todo] iterations
    left and [contents] the entries pushed so far. *)
Fixpoint parseLoop (jsonData : list (list cell)) (todo i : nat)
    (contents : list XLSXContent) : outcome (list XLSXContent) :=
  match todo with
  | O => Ok contents
  | S todo' =>
      pushed ← parseRow (default [] (jsonData !! i));
      parseLoop jsonData todo' (S i) (contents ++ pushed)
  end.

Definition parseRows (jsonData : list (list cell)) : outcome (list XLSXContent) :=
  parseLoop jsonData (length jsonData - 1) 1 [].

(** A [File] of a folder picker.  [sheet] is what reading the file and
    decoding its first worksheet to rows gives: the rows, or the
    exception raised on the way. *)
Record File : Type :=
  { file_name : string; webkitRelativePath : string; sheet : outcome (list (list cell)) }.

Definition parseXLSXFile (file : File) : outcome (list XLSXContent) :=
  jsonData ← sheet file; parseRows jsonData.

(** The values of the object [batches] and of the objects [subjects]
    inside it: their own properties, as maps from names. *)
Record SubjectEntry : Type :=
  { subject_name : string; sections : gmap string ParsedSectionData }.

Record BatchEntry : Type :=
  { batch_name : string; subjects : gmap string SubjectEntry }.

(** One iteration of the loop of [processFolderStructure], lines 111-143,
    on the object [batches].  The three objects are object literals, so
    a name of a member of [Object.prototype] finds that member:
    - for such a [batchName] no Batch is created (the member is truthy)
      and line 126 reads [subjects] of the member, which is undefined,
      and a property of that: it raises, outside the [try];
    - for such a [subjectName] no Subject is created, and line 135
      assigns to a property of [sections] of the member, which is
      undefined: it raises inside the [try], after the parse;
    - the assignment of line 135 to the name [__proto__] is taken by
      the inherited setter, which is outside the model; every other
      name becomes an own property, also that of an inherited method,
      which is a writable data property of the prototype. *)
Definition processFile (batches : gmap string BatchEntry) (file : File)
    : outcome (gmap string BatchEntry) :=
  let pathParts := split (webkitRelativePath file) "/" in
  if (3 <=? length pathParts)%nat && endsWith (file_name file) ".xlsx" then
    let batchName := default EmptyString (pathParts !! 0%nat) in
    let subjectName := default EmptyString (pathParts !! 1%nat) in
    let fileName := replace (file_name file) ".xlsx" "" in
    if inherited batchName then Throw TypeError
    else
      let batch :=
        default {| batch_name := batchName; subjects := ∅ |} (batches !! batchName) in
      if inherited subjectName then
        match parseXLSXFile file with
        | Ok _ | Throw _ => Ok (<[batchName := batch]> batches)
        | Unmodelled => Unmodelled
        end
      else
        let subject :=
          default {| subject_name := subjectName; sections := ∅ |}
                  (subjects batch !! subjectName) in
        let store (subject : SubjectEntry) :=
          <[batchName := {| batch_name := batch_name batch;
                            subjects := <[subjectName := subject]> (subjects batch) |}]>
            batches in
        match parseXLSXFile file with
        | Ok contents =>
            if String.eqb fileName "__proto__" then Unmodelled
            else
              let section :=
                {| name := fileName; type := getSectionTypeFromName fileName;
                   contents := contents |} in
              Ok (store {| subject_name := subject_name subject;
                           sections := <[fileName := section]> (sections subject) |})
        | Throw _ => Ok (store subject)
        | Unmodelled => Unmodelled
        end
  else Ok batches.

Fixpoint processFiles (batches : gmap string BatchEntry) (files : list File)
    : outcome (gmap string BatchEntry) :=
  match files with
  | [] => Ok batches
  | file :: rest => batches' ← processFile batches file; processFiles batches' rest
  end.

Definition processFolderStructure (files : list File) : outcome (gmap string BatchEntry) :=
  processFiles ∅ files.

(** The loop of [processSubjectFolder], lines 90-103, over the files
    that are left, with [sections] the Sections pushed so far. *)
Fixpoint subjectLoop (xlsxFiles : list File) (sections : list ParsedSectionData)
    : outcome (list ParsedSectionData) :=
  match xlsxFiles with
  | [] => Ok sections
  | file :: rest =>
      match parseXLSXFile file with
      | Ok contents =>
          let sectionName := replace (file_name file) ".xlsx" "" in
          subjectLoop rest
            (sections ++ [{| name := sectionName;
                             type := getSectionTypeFromName sectionName;
                             contents := contents |}])
      | Throw _ => subjectLoop rest sections
      | Unmodelled => Unmodelled
      end
  end.

Definition processSubjectFolder (files : list File) : outcome (list ParsedSectionData) :=
  let xlsxFiles :=
    List.filter (fun file => endsWith (file_name file) ".xlsx"
                             && negb (startsWith (file_name file) "~")) files in
  subjectLoop xlsxFiles [].

End XlsxParser.

(** ** JavaScript values and immer drafts *)

Module Immer.

(** A path segment, [string | number]. *)
Inductive key : Type :=
| KField (s : string)
| KIndex (n : nat).

(** Values as trees whose object and array nodes carry a tag.  An array
    element [None] is a hole.  The properties of an object are a list of
    bindings, of which the first for a name counts; their order is not
    observed. *)
#[warnings="-register-all"]
Inductive node (T : Type) : Type :=
| VUndef
| VNull
| VBool (b : bool)
| VNum (z : Z)
| VStr (s : string)
| VObj (tag : T) (props : list (string * node T))
| VArr (tag : T) (elems : list (option (node T))).

Arguments VUndef {T}.
Arguments VNull {T}.
Arguments VBool {T} b.
Arguments VNum {T} z.
Arguments VStr {T} s.
Arguments VObj {T} tag props.
Arguments VArr {T} tag elems.

(** A value of the heap: every object is tagged with its address, which
    is its identity ([===] on objects compares addresses). *)
Definition Value : Type := node nat.

(** A draft: the address of the base object and immer's [modified_]
    flag of the draft state. *)
Definition Draft : Type := node (nat * bool).

Fixpoint tmap {T U : Type} (f : T -> U) (v : node T) : node U :=
  match v with
  | VUndef => VUndef
  | VNull => VNull
  | VBool b => VBool b
  | VNum z => VNum z
  | VStr s => VStr s
  | VObj t props => VObj (f t) (List.map (fun kv => (fst kv, tmap f (snd kv))) props)
  | VArr t elems => VArr (f t) (List.map (option_map (tmap f)) elems)
  end.

(** The property key a path segment denotes ([ToPropertyKey]). *)
Definition keyName (k : key) : string :=
  match k with
  | KField s => s
  | KIndex n => ofNat n
  end.

Definition keyIndex (k : key) : option nat :=
  match k with
  | KField s => toIndex s
  | KIndex n => Some n
  end.

(** First binding of a name among the properties of an object. *)
Fixpoint assoc {A : Type} (s : string) (props : list (string * A)) : option A :=
  match props with
  | [] => None
  | (s', v) :: r => if String.eqb s' s then Some v else assoc s r
  end.

(** Overwrites the property [s], or creates it after the others. *)
Fixpoint store {A : Type} (s : string) (v : A) (props : list (string * A)) : list (string * A) :=
  match props with
  | [] => [(s, v)]
  | (s', v') :: r => if String.eqb s' s then (s', v) :: r else (s', v') :: store s v r
  end.

(** Element [n] of an array; a hole and an index past the end give
    nothing. *)
Definition slot {A : Type} (n : nat) (elems : list (option A)) : option A :=
  mjoin (elems !! n).

(** [elems[n] = v]: past the end the array grows, leaving holes. *)
Definition storeAt {A : Type} (n : nat) (v : A) (elems : list (option A)) : list (option A) :=
  if (n <? length elems)%nat then <[n := Some v]> elems
  else elems ++ replicate (n - length elems) None ++ [Some v].

(** [o[k]]: an own property, or [undefined] for a name that is neither
    own nor inherited.  An inherited member is a function (or, for
    [__proto__], the prototype), which is not a value of the model. *)
Definition getProp {T : Type} (o : node T) (k : key) : outcome (node T) :=
  match o with
  | VUndef | VNull => Throw TypeError
  | VBool _ => if inherits [] (keyName k) then Unmodelled else Ok VUndef
  | VNum _ => if inherits numberMembers (keyName k) then Unmodelled else Ok VUndef
  | VStr s =>
      match keyIndex k with
      | Some n =>
          Ok (match String.get n s with
              | Some c => VStr (String c EmptyString)
              | None => VUndef
              end)
      | None =>
          if String.eqb (keyName k) "length" then Ok (VNum (Z.of_nat (String.length s)))
          else if inherits stringMembers (keyName k) then Unmodelled
          else Ok VUndef
      end
  | VObj _ props =>
      match assoc (keyName k) props with
      | Some v => Ok v
      | None => if inherited (keyName k) then Unmodelled else Ok VUndef
      end
  | VArr _ elems =>
      match keyIndex k with
      | Some n => Ok (default VUndef (slot n elems))
      | None =>
          if String.eqb (keyName k) "length" then Ok (VNum (Z.of_nat (length elems)))
          else if inherits arrayMembers (keyName k) then Unmodelled
          else Ok VUndef
      end
  end.

(** [createDraft]: no draft is modified yet. *)
Definition createDraft (v : Value) : Draft := tmap (fun a => (a, false)) v.

Definition modified (d : Draft) : bool :=
  match d with
  | VObj (_, m) _ | VArr (_, m) _ => m
  | _ => false
  end.

(** The test of the [set] trap that the assignment changes nothing:
    [Object.is(value, current)] for the current value [c] of a property
    that exists.  An object is the same as the draft of itself while that
    draft is unmodified. *)
Definition same (c : Draft) (v : Draft) : bool :=
  match c, v with
  | VUndef, VUndef | VNull, VNull => true
  | VBool b, VBool b' => Bool.eqb b b'
  | VNum z, VNum z' => (z =? z')%Z
  | VStr s, VStr s' => String.eqb s s'
  | VObj (a, m) _, VObj (a', _) _ | VArr (a, m) _, VArr (a', _) _ => (a =? a')%nat && negb m
  | _, _ => false
  end.

Definition unchanged (current : option Draft) (v : Draft) : bool :=
  match current with
  | Some c => same c v
  | None => false
  end.

(** [o[k] = v] on a draft [o] in strict mode: the [set] trap of the
    draft marks it modified unless the assignment changes nothing.  On
    the draft of an array only the assignment to an index is modelled:
    that of [length] resizes the array, and any other name is refused by
    the development build of immer and becomes a property of the array in
    the production build.  The name [__proto__] is taken by the setter
    every object inherits, which is not modelled: the definition is
    meant for the other names. *)
Definition assign (o : Draft) (k : key) (v : Draft) : outcome Draft :=
  match o with
  | VUndef | VNull | VBool _ | VNum _ | VStr _ => Throw TypeError
  | VObj (a, m) props =>
      if unchanged (assoc (keyName k) props) v then Ok o
      else Ok (VObj (a, true) (store (keyName k) v props))
  | VArr (a, m) elems =>
      match keyIndex k with
      | Some n =>
          if unchanged (slot n elems) v then Ok o
          else Ok (VArr (a, true) (storeAt n v elems))
      | None => Unmodelled
      end
  end.

(** Puts the draft [c] of the child [o[k]] back after it was modified:
    a modified draft marks its parent modified. *)
Definition adopt (o : Draft) (k : key) (c : Draft) : Draft :=
  match o with
  | VObj (a, m) props => VObj (a, true) (store (keyName k) c props)
  | VArr (a, m) elems =>
      match keyIndex k with
      | Some n => VArr (a, true) (storeAt n c elems)
      | None => o
      end
  | _ => o
  end.

(** Runs [body] on the draft of [o[k]]; this is how the model reads a
    statement that mutates through the reference [o[k]]. *)
Definition withProp (k : key) (body : Draft -> outcome Draft) (o : Draft) : outcome Draft :=
  c ← getProp o k;
  c' ← body c;
  if modified c' then Ok (adopt o k c') else Ok o.

Definition visit (callback : Draft -> outcome Draft) (e : option Draft)
    : outcome (option Draft) :=
  match e with
  | Some c => Some <$> callback c
  | None => Ok None
  end.

(** [o.forEach(callback)] on a draft: the callback receives the draft of
    each element in turn, holes are skipped; anything but an array has
    no [forEach]. *)
Definition forEach (callback : Draft -> outcome Draft) (o : Draft) : outcome Draft :=
  match o with
  | VArr (a, m) elems =>
      elems' ← mapM (visit callback) elems;
      Ok (VArr (a, m || existsb (fun e => from_option modified false e) elems') elems')
  | _ => Throw TypeError
  end.

(** Finalisation: a modified draft becomes a new object, an unmodified
    one stays the base object.  [next] is the allocation pointer: every
    live address is below it, and the copy of the object at address [a]
    is allocated at [next + a]. *)
Definition finalize (next : nat) (d : Draft) : Value :=
  tmap (fun '(a, m) => if m : bool then next + a else a) d.

(** [produce(base, recipe)], with the allocation pointer before and
    after.  When the recipe raises, so does [produce], and the base
    state stays as it is. *)
Definition produce (recipe : Draft -> outcome Draft) (base : Value) (next : nat)
    : outcome (Value * nat) :=
  d ← recipe (createDraft base);
  Ok (finalize next d, if modified d then next + next else next).

(** [o.push(v)] on a draft: [v] becomes the element at index
    [o.length], which marks the draft modified; anything but an array has
    no [push]. *)
Definition push (v : Draft) (o : Draft) : outcome Draft :=
  match o with
  | VArr (a, m) elems => Ok (VArr (a, true) (elems ++ [Some v]))
  | _ => Throw TypeError
  end.

Definition present {A : Type} (e : option A) : bool :=
  match e with
  | Some _ => true
  | None => false
  end.

(** [o.splice(start, deleteCount)] on a draft, for indices that are not
    negative: the elements from [start] on move down over the deleted
    ones, and the draft is marked modified when its length changes.
    Nothing is deleted at or past the end; the length is then assigned
    the value it has, which the [set] trap takes for no change.  Holes
    where elements move are outside the model.  Anything but an array has
    no [splice]. *)
Definition splice (start deleteCount : nat) (o : Draft) : outcome Draft :=
  match o with
  | VArr (a, m) elems =>
      let actualStart := Nat.min start (length elems) in
      let actualDeleteCount := Nat.min deleteCount (length elems - actualStart) in
      if (actualDeleteCount =? 0)%nat then Ok o
      else if forallb present (drop actualStart elems)
      then Ok (VArr (a, true)
                 (take actualStart elems ++ drop (actualStart + actualDeleteCount) elems))
      else Unmodelled
  | _ => Throw TypeError
  end.

(** [o.reduce(callback, initialValue)] on the elements of an array:
    holes are skipped. *)
Fixpoint reduce {A T : Type} (callback : A -> node T -> outcome A) (initialValue : A)
    (elems : list (option (node T))) : outcome A :=
  match elems with
  | [] => Ok initialValue
  | None :: rest => reduce callback initialValue rest
  | Some x :: rest => acc ← callback initialValue x; reduce callback acc rest
  end.

End Immer.

Import Immer.

(** ** src/components/BatchEditor.tsx *)

Module BatchEditor.

(** The state of the component that the two handlers read and write,
    and the allocation pointer of the heap [batchData] lives in. *)
Record editor : Type :=
  { batchData : Value;
    heapNext : nat;
    selectedContents : gset string;
    bulkThumbnailUrl : string;
    showBulkThumbnail : bool }.

(** [setBatchData(produce(recipe))] *)
Definition setBatchData (recipe : Draft -> outcome Draft) (st : editor) : outcome editor :=
  '(data, next) ← produce recipe (batchData st) (heapNext st);
  Ok {| batchData := data;
        heapNext := next;
        selectedContents := selectedContents st;
        bulkThumbnailUrl := bulkThumbnailUrl st;
        showBulkThumbnail := showBulkThumbnail st |}.

(** Lines 65-69: [current] walks down all segments but the last, which
    is assigned to.  For the empty path the last segment is
    [path[-1]], that is [undefined], which names the property
    ["undefined"]. *)
Fixpoint assignAt (path : list key) (value : Draft) (current : Draft) : outcome Draft :=
  match path with
  | [] => assign current (KField "undefined") value
  | [k] => assign current k value
  | k :: rest => withProp k (assignAt rest value) current
  end.

(** The test of line 72; gives [path[1]]. *)
Definition subjectThumbnailPath (path : list key) : option key :=
  match path with
  | [KField "subjects"; subjectIndex; KField "thumbnail"] => Some subjectIndex
  | _ => None
  end.

(** Lines 74-78. *)
Definition cascade (subjectIndex : key) (value : Draft) : Draft -> outcome Draft :=
  withProp (KField "subjects") (withProp subjectIndex (withProp (KField "sections")
    (forEach (fun section =>
       withProp (KField "contents")
         (forEach (fun content => assign content (KField "thumbnail") value)) section)))).

Definition nestedChange (path : list key) (value : Value) (draft : Draft) : outcome Draft :=
  draft ← assignAt path (createDraft value) draft;
  match subjectThumbnailPath path with
  | Some subjectIndex => cascade subjectIndex (createDraft value) draft
  | None => Ok draft
  end.

Definition handleNestedChange (path : list key) (value : Value) : editor -> outcome editor :=
  setBatchData (nestedChange path value).

Inductive toast : Type :=
| toast_error (message : string)
| toast_success (message : string).

(** [selectedContents.has(id)]: the set holds strings only. *)
Definition has (selected : gset string) (id : Draft) : bool :=
  match id with
  | VStr s => bool_decide (s ∈ selected)
  | _ => false
  end.

(** Lines 170-178. *)
Definition bulkThumbnail (selected : gset string) (thumbnail : string) : Draft -> outcome Draft :=
  withProp (KField "subjects")
    (forEach (fun subject =>
       withProp (KField "sections")
         (forEach (fun section =>
            withProp (KField "contents")
              (forEach (fun content =>
                 id ← getProp content (KField "id");
                 if has selected id
                 then assign content (KField "thumbnail") (VStr thumbnail)
                 else Ok content)) section)) subject)).

Definition applyBulkThumbnail (st : editor) : outcome (editor * toast) :=
  if falsy (trim (bulkThumbnailUrl st)) || (size (selectedContents st) =? 0)%nat then
    Ok (st, toast_error "Please enter a thumbnail URL and select content items")
  else
    st' ← setBatchData (bulkThumbnail (selectedContents st) (trim (bulkThumbnailUrl st))) st;
    Ok ({| batchData := batchData st';
           heapNext := heapNext st';
           selectedContents := ∅;
           bulkThumbnailUrl := "";
           showBulkThumbnail := false |},
        toast_success ("Updated " +:+ ofNat (size (selectedContents st)) +:+ " thumbnails!")).

(** Lines 57-61. *)
Definition handleBatchChange (field value : string) : editor -> outcome editor :=
  setBatchData (fun draft => assign draft (KField field) (VStr value)).

(** The editor after [n] objects were allocated. *)
Definition allocate (n : nat) (st : editor) : editor :=
  {| batchData := batchData st;
     heapNext := heapNext st + n;
     selectedContents := selectedContents st;
     bulkThumbnailUrl := bulkThumbnailUrl st;
     showBulkThumbnail := showBulkThumbnail st |}.

(** The object literals of lines 84-89, 108-113 and 133-139, allocated at
    the address [a] (and, for their empty arrays, at the next one).  [id]
    is the string [Math.random().toString(36).substr(2, 9)] gave. *)
Definition newSubject (a : nat) (id : string) : Value :=
  VObj a [("id", VStr id);
          ("name", VStr "New Subject");
          ("thumbnail",
            VStr "https://images.pexels.com/photos/256490/pexels-photo-256490.jpeg?auto=compress&cs=tinysrgb&w=400");
          ("sections", VArr (a + 1) [])].

Definition newSection (a : nat) (id : string) : Value :=
  VObj a [("id", VStr id);
          ("name", VStr "New Section");
          ("type", VStr "video");
          ("contents", VArr (a + 1) [])].

Definition newContent (a : nat) (id : string) (type thumbnail : Value) : Value :=
  VObj a [("id", VStr id);
          ("title", VStr "New Content");
          ("url", VStr "");
          ("type", type);
          ("thumbnail", thumbnail)].

(** Lines 83-93. *)
Definition addSubject (id : string) (st : editor) : outcome editor :=
  setBatchData
    (withProp (KField "subjects") (push (createDraft (newSubject (heapNext st) id))))
    (allocate 2 st).

(** Lines 107-117. *)
Definition addSection (id : string) (subjectIndex : nat) (st : editor) : outcome editor :=
  setBatchData
    (withProp (KField "subjects") (withProp (KIndex subjectIndex)
       (withProp (KField "sections") (push (createDraft (newSection (heapNext st) id))))))
    (allocate 2 st).

(** Lines 131-143.  The new Content takes the type of its Section and
    the thumbnail of its Subject from the state the handler was created
    with. *)
Definition addContent (id : string) (subjectIndex sectionIndex : nat) (st : editor)
    : outcome editor :=
  subjects ← getProp (batchData st) (KField "subjects");
  subject ← getProp subjects (KIndex subjectIndex);
  sections ← getProp subject (KField "sections");
  section ← getProp sections (KIndex sectionIndex);
  type ← getProp section (KField "type");
  thumbnail ← getProp subject (KField "thumbnail");
  setBatchData
    (withProp (KField "subjects") (withProp (KIndex subjectIndex)
       (withProp (KField "sections") (withProp (KIndex sectionIndex)
          (withProp (KField "contents")
             (push (createDraft (newContent (heapNext st) id type thumbnail))))))))
    (allocate 1 st).

(** The part of the state that says which level of the batch is shown. *)
Inductive ViewLevel : Type := view_batch | view_subjects | view_sections | view_contents.

Record navigation : Type :=
  { currentView : ViewLevel;
    selectedSubjectIndex : option nat;
    selectedSectionIndex : option nat }.

(** Lines 95-105.  [confirmed] is the answer [window.confirm] gave. *)
Definition deleteSubject (confirmed : bool) (subjectIndex : nat) (st : editor)
    (nav : navigation) : outcome (editor * navigation) :=
  if confirmed then
    st' ← setBatchData (withProp (KField "subjects") (splice subjectIndex 1)) st;
    Ok (st',
        if decide (selectedSubjectIndex nav = Some subjectIndex)
        then {| currentView := view_subjects;
                selectedSubjectIndex := None;
                selectedSectionIndex := selectedSectionIndex nav |}
        else nav)
  else Ok (st, nav).

(** Lines 119-129. *)
Definition deleteSection (confirmed : bool) (subjectIndex sectionIndex : nat) (st : editor)
    (nav : navigation) : outcome (editor * navigation) :=
  if confirmed then
    st' ← setBatchData
            (withProp (KField "subjects") (withProp (KIndex subjectIndex)
               (withProp (KField "sections") (splice sectionIndex 1)))) st;
    Ok (st',
        if decide (selectedSectionIndex nav = Some sectionIndex)
        then {| currentView := view_sections;
                selectedSubjectIndex := selectedSubjectIndex nav;
                selectedSectionIndex := None |}
        else nav)
  else Ok (st, nav).

(** Lines 145-149. *)
Definition deleteContent (subjectIndex sectionIndex contentIndex : nat)
    : editor -> outcome editor :=
  setBatchData
    (withProp (KField "subjects") (withProp (KIndex subjectIndex)
       (withProp (KField "sections") (withProp (KIndex sectionIndex)
          (withProp (KField "contents") (splice contentIndex 1)))))).

(** Lines 151-161. *)
Definition handleContentSelection (contentId : string) (st : editor) : editor :=
  let prev := selectedContents st in
  let newSet :=
    if bool_decide (contentId ∈ prev) then prev ∖ {[contentId]} else prev ∪ {[contentId]} in
  {| batchData := batchData st;
     heapNext := heapNext st;
     selectedContents := newSet;
     bulkThumbnailUrl := bulkThumbnailUrl st;
     showBulkThumbnail := showBulkThumbnail st |}.

(** [section.contents?.length || 0], line 189, where it is a number. *)
Definition contentsLength (section : Value) : outcome Z :=
  contents ← getProp section (KField "contents");
  match contents with
  | VUndef | VNull => Ok 0%Z
  | _ =>
      len ← getProp contents (KField "length");
      match len with
      | VNum z => Ok z
      | VUndef | VNull | VBool false => Ok 0%Z
      | VStr s => if falsy s then Ok 0%Z else Unmodelled
      | _ => Unmodelled
      end
  end.

(** Lines 187-191. *)
Definition getTotalContentCount (subjectIndex : nat) (st : editor) : outcome Z :=
  subjects ← getProp (batchData st) (KField "subjects");
  subject ← getProp subjects (KIndex subjectIndex);
  match subject with
  | VUndef | VNull => Ok 0%Z
  | _ =>
      sections ← getProp subject (KField "sections");
      match sections with
      | VArr _ elems =>
          reduce (fun total section => n ← contentsLength section; Ok (total + n)%Z) 0%Z elems
      | _ => Throw TypeError
      end
  end.

End BatchEditor.

(** ** Reading a tree *)

Module Tree.

(** The node one segment below [v]: a field of an object or an element
    of an array that exists. *)
Definition child {T : Type} (k : key) (v : node T) : option (node T) :=
  match k, v with
  | KField s, VObj _ props => assoc s props
  | KIndex n, VArr _ elems => slot n elems
  | _, _ => None
  end.

(** The node a path reaches from [v]. *)
Fixpoint at_path {T : Type} (path : list key) (v : node T) : option (node T) :=
  match path with
  | [] => Some v
  | k :: rest => child k v ≫= at_path rest
  end.

(** The address of an object or array. *)
Definition address (v : Value) : option nat :=
  match v with
  | VObj a _ | VArr a _ => Some a
  | _ => None
  end.

(** The addresses of all objects and arrays of a tree. *)
Fixpoint addresses (v : Value) : list nat :=
  match v with
  | VObj a props => a :: flat_map (fun kv => addresses (snd kv)) props
  | VArr a elems =>
      a :: flat_map (fun e => match e with Some c => addresses c | None => [] end) elems
  | _ => []
  end.

Definition isObject {T : Type} (v : node T) : bool :=
  match v with
  | VObj _ _ => true
  | _ => false
  end.

Definition arrayOf {T : Type} (shape : node T -> bool) (v : node T) : bool :=
  match v with
  | VArr _ elems => forallb (from_option shape false) elems
  | _ => false
  end.

Definition hasField {T : Type} (s : string) (shape : node T -> bool) (v : node T) : bool :=
  match v with
  | VObj _ props => from_option shape false (assoc s props)
  | _ => false
  end.

(** Modelled from the spec: the types [Batch], [Subject], [Section] and
    [Content] of [src/types], which is not among the sources.  Of the
    data model only the containment is kept: a Batch has an array
    [subjects] of Subjects, a Subject an array [sections] of Sections, a
    Section an array [contents] of Contents, and a Content is an
    object. *)
Definition isContent {T : Type} : node T -> bool := isObject.
Definition isSection {T : Type} : node T -> bool := hasField "contents" (arrayOf isContent).
Definition isSubject {T : Type} : node T -> bool := hasField "sections" (arrayOf isSection).
Definition isBatch {T : Type} : node T -> bool := hasField "subjects" (arrayOf isSubject).

(** The path of Subject [i]; the path, from a Subject, of Content [k] of
    its Section [j]; and the path of that Content in Subject [i]. *)
Definition subjectPath (i : nat) : list key := [KField "subjects"; KIndex i].
Definition inSubject (j k : nat) : list key :=
  [KField "sections"; KIndex j; KField "contents"; KIndex k].
Definition contentPath (i j k : nat) : list key := subjectPath i ++ inSubject j k.

End Tree.


Import VideoPlayer XlsxParser BatchEditor Tree.

(** ** src/components/SubjectView.tsx *)

Module SubjectView.

(** ['video' | 'notes' | 'assignment' | 'quiz'] *)
Definition ContentType : Type := SectionType.

(** The object [grouped] of lines 19-24: one array under each of the
    four keys. *)
Record Grouped : Type :=
  { videos : list Value;
    noteses : list Value;
    assignments : list Value;
    quizzes : list Value }.

Definition grouped0 : Grouped :=
  {| videos := []; noteses := []; assignments := []; quizzes := [] |}.

(** [grouped[type]] for a key of [grouped]. *)
Definition group (grouped : Grouped) (type : ContentType) : list Value :=
  match type with
  | video => videos grouped
  | notes => noteses grouped
  | assignment => assignments grouped
  | quiz => quizzes grouped
  end.

(** The key of [grouped] that a value used as a property name denotes,
    if any.  A member that [grouped], an object literal, inherits from
    [Object.prototype] is outside the model, and so is an
    object or array used as a name, which is converted by its
    [toString]; every other primitive is converted to a string that is
    no key of [grouped]. *)
Definition keyOf (type : Value) : outcome (option ContentType) :=
  match type with
  | VStr s =>
      if String.eqb s "video" then Ok (Some video)
      else if String.eqb s "notes" then Ok (Some notes)
      else if String.eqb s "assignment" then Ok (Some assignment)
      else if String.eqb s "quiz" then Ok (Some quiz)
      else if inherited s then Unmodelled
      else Ok None
  | VObj _ _ | VArr _ _ => Unmodelled
  | _ => Ok None
  end.

(** [...v] in an argument list: the elements of an array, a hole read
    as undefined, or the code units of a string; nothing else is
    iterable. *)
Definition spread (v : Value) : outcome (list Value) :=
  match v with
  | VArr _ elems => Ok (List.map (default VUndef) elems)
  | VStr s => Ok (List.map (fun c => VStr (String c EmptyString)) (list_ascii_of_string s))
  | _ => Throw TypeError
  end.

(** [grouped[type].push(...items)] *)
Definition pushAll (grouped : Grouped) (type : ContentType) (items : list Value) : Grouped :=
  match type with
  | video =>
      {| videos := videos grouped ++ items; noteses := noteses grouped;
         assignments := assignments grouped; quizzes := quizzes grouped |}
  | notes =>
      {| videos := videos grouped; noteses := noteses grouped ++ items;
         assignments := assignments grouped; quizzes := quizzes grouped |}
  | assignment =>
      {| videos := videos grouped; noteses := noteses grouped;
         assignments := assignments grouped ++ items; quizzes := quizzes grouped |}
  | quiz =>
      {| videos := videos grouped; noteses := noteses grouped;
         assignments := assignments grouped; quizzes := quizzes grouped ++ items |}
  end.

(** The callback of lines 26-30. *)
Definition collect (grouped : Grouped) (section : Value) : outcome Grouped :=
  type ← getProp section (KField "type");
  key ← keyOf type;
  match key with
  | Some t =>
      contents ← getProp section (KField "contents");
      items ← spread contents;
      Ok (pushAll grouped t items)
  | None => Ok grouped
  end.

(** Lines 18-33. *)
Definition contentByType (subject : Value) : outcome Grouped :=
  sections ← getProp subject (KField "sections");
  match sections with
  | VUndef | VNull => Ok grouped0
  | VArr _ elems => reduce collect grouped0 elems
  | _ => Throw TypeError
  end.

(** Lines 35-39: the keys of [grouped], in the order of the object
    literal, whose array is not empty. *)
Definition availableTabs (contentByType : Grouped) : list ContentType :=
  List.filter (fun type => (0 <? length (group contentByType type))%nat)
    [video; notes; assignment; quiz].

Definition sameType (a b : ContentType) : bool :=
  match a, b with
  | video, video | notes, notes | assignment, assignment | quiz, quiz => true
  | _, _ => false
  end.

(** Lines 41-49. *)
Definition activeTab (userSelectedTab : option ContentType) (availableTabs : list ContentType)
    : ContentType :=
  match userSelectedTab with
  | Some tab =>
      if existsb (sameType tab) availableTabs then tab
      else match availableTabs with
           | first :: _ => first
           | [] => video
           end
  | None =>
      match availableTabs with
      | first :: _ => first
      | [] => video
      end
  end.

(** Line 51. *)
Definition activeContent (contentByType : Grouped) (userSelectedTab : option ContentType)
    : list Value :=
  group contentByType (activeTab userSelectedTab (availableTabs contentByType)).

(** [content.url || '#'] and [getVideoPlayerURL(content.url, false)] for
    a [url] that is a string or missing. *)
Definition getHrefForContent (content : Value) : outcome string :=
  type ← getProp content (KField "type");
  url ← getProp content (KField "url");
  let document :=
    match type with
    | VStr s => String.eqb s "notes" || String.eqb s "assignment" || String.eqb s "quiz"
    | _ => false
    end in
  match url with
  | VStr s =>
      if document then Ok (if falsy s then "#" else s)
      else Ok (VideoPlayer.getVideoPlayerURL s false)
  | VUndef | VNull => Ok "#"
  | _ => Unmodelled
  end.

End SubjectView.

Import SubjectView.

(** ** src/components/ContentThumbnail.tsx *)

Module ContentThumbnail.

(** *** [btoa] and [atob]

    Base64 with the alphabet [A-Z a-z 0-9 + /] and [=] as padding. *)

Definition sextetChar (n : N) : ascii :=
  if (n <? 26)%N then ascii_of_N (65 + n)
  else if (n <? 52)%N then ascii_of_N (71 + n)
  else if (n <? 62)%N then ascii_of_N (n - 4)
  else if (n =? 62)%N then "+"%char
  else "/"%char.

Definition charSextet (c : ascii) : option N :=
  if in_range 65 90 c then Some (code c - 65)%N
  else if in_range 97 122 c then Some (code c - 71)%N
  else if in_range 48 57 c then Some (code c + 4)%N
  else if Ascii.eqb c "+" then Some 62%N
  else if Ascii.eqb c "/" then Some 63%N
  else None.

(** Octets as sextets, three octets giving four sextets; the bits that
    are missing at the end are zero. *)
Fixpoint sextets (octets : list N) : list N :=
  match octets with
  | a :: b :: c :: rest =>
      (a / 4 :: a mod 4 * 16 + b / 16 :: b mod 16 * 4 + c / 64 :: c mod 64 :: sextets rest)%N
  | [a; b] => [a / 4; a mod 4 * 16 + b / 16; b mod 16 * 4]%N
  | [a] => [a / 4; a mod 4 * 16]%N
  | [] => []
  end.

Definition padding (octets : nat) : list ascii :=
  match octets mod 3 with
  | 1 => ["="; "="]%char
  | 2 => ["="]%char
  | _ => []
  end.

(** [btoa(s)].  It raises on a code unit above 255, of which the model
    has none. *)
Definition btoa (s : string) : string :=
  let octets := List.map code (list_ascii_of_string s) in
  string_of_list_ascii (List.map sextetChar (sextets octets) ++ padding (length octets)).

(** TAB, LF, FF, CR and SPACE. *)
Definition isAsciiWhitespace (c : ascii) : bool :=
  existsb (N.eqb (code c)) [9; 10; 12; 13; 32]%N.

(** When the length is a multiple of four, one or two [=] at the end
    are removed. *)
Definition unpad (data : list ascii) : list ascii :=
  if (length data mod 4 =? 0)%nat then
    match rev data with
    | last :: before :: r =>
        if Ascii.eqb last "=" then
          if Ascii.eqb before "=" then rev r else rev (before :: r)
        else data
    | [last] => if Ascii.eqb last "=" then [] else data
    | [] => data
    end
  else data.

(** Sextets as octets, four sextets giving three octets; the bits that
    are left over at the end are dropped. *)
Fixpoint octets (sextets : list N) : list N :=
  match sextets with
  | s0 :: s1 :: s2 :: s3 :: rest =>
      (s0 * 4 + s1 / 16 :: s1 mod 16 * 16 + s2 / 4 :: s2 mod 4 * 64 + s3 :: octets rest)%N
  | [s0; s1; s2] => [s0 * 4 + s1 / 16; s1 mod 16 * 16 + s2 / 4]%N
  | [s0; s1] => [s0 * 4 + s1 / 16]%N
  | _ => []
  end.

(** [atob(data)]; [None] stands for the InvalidCharacterError it raises
    on data that is not base64. *)
Definition atob (data : string) : option string :=
  let data :=
    unpad (List.filter (fun c => negb (isAsciiWhitespace c)) (list_ascii_of_string data)) in
  if (length data mod 4 =? 1)%nat then None
  else
    sextets ← mapM charSextet data;
    Some (string_of_list_ascii (List.map ascii_of_N (octets sextets))).

(** *** The component *)

(** Lines 61 and 62, for a Content. *)
Definition encodedTitle (title : string) : string := btoa (encodeURIComponent title).

Definition encodedUrl (url : string) : string :=
  btoa (encodeURIComponent (VideoPlayer.getVideoPlayerURL url false)).

(** Lines 65-78: the title written to the [data-title] attributes. *)
Definition dataTitle (encodedTitle : string) : outcome string :=
  match atob encodedTitle with
  | Some escaped =>
      match decodeURIComponent escaped with
      | Ok decodedTitle => Ok decodedTitle
      | Throw _ => Ok "Content"
      | Unmodelled => Unmodelled
      end
  | None => Ok "Content"
  end.

(** [handleClick], lines 84-93, on a Content: the URL it opens in a new
    window, if any. *)
Definition handleClick (encodedUrl : string) : outcome (option string) :=
  match atob encodedUrl with
  | Some escaped =>
      match decodeURIComponent escaped with
      | Ok decodedUrl =>
          Ok (if negb (falsy decodedUrl) && negb (String.eqb decodedUrl "#")
              then Some decodedUrl else None)
      | Throw _ => Ok None
      | Unmodelled => Unmodelled
      end
  | None => Ok None
  end.

End ContentThumbnail.

Import ContentThumbnail.

(** ** Vocabulary of the properties *)

(** A string is blank when each of its code units is white space. *)
Fixpoint blank (s : string) : bool :=
  match s with
  | EmptyString => true
  | String c r => isWhiteSpace c && blank r
  end.

Definition prefixed (raw : string) : bool :=
  startsWith raw livePrefix || startsWith raw recPrefix.

Definition playback (isLive : bool) : string := if isLive then livePrefix else recPrefix.

(** [kw] occurs in [name] when case is ignored: some substring of [name]
    has the lower case of [kw] as its lower case. *)
Definition occursIgnoringCase (kw name : string) : Prop :=
  exists pre w post, name = pre +:+ w +:+ post /\ toLowerCase w = toLowerCase kw.

(** The keyword list of the Section Classifier, in its order. *)
Definition keywords : list (string * SectionType) :=
  [("video", video); ("notes", notes); ("quiz", quiz);
   ("dpp", assignment); ("acp", assignment); ("wpp", assignment); ("otp", assignment);
   ("assignment", assignment)].

(** The type of the first keyword of a list that occurs in [name],
    [video] when none does. *)
Inductive firstMatch (name : string) : list (string * SectionType) -> SectionType -> Prop :=
| firstMatch_none : firstMatch name [] video
| firstMatch_here kw t rest :
    occursIgnoringCase kw name -> firstMatch name ((kw, t) :: rest) t
| firstMatch_later kw t rest r :
    ~ occursIgnoringCase kw name -> firstMatch name rest r ->
    firstMatch name ((kw, t) :: rest) r.

(** The test of line 52. *)
Definition kept (row : list cell) : bool :=
  (2 <=? length row)%nat && truthy (row !! 0%nat) && truthy (row !! 1%nat).




(** The entry of a row that is kept. *)
Definition entryOf (row : list cell) : outcome XLSXContent :=
  url ← extractVideoUrl (trim (toString (row !! 0%nat)));
  Ok {| url := url; title := trim (toString (row !! 1%nat)) |}.

(** [s] has [p] as a substring. *)
Definition contains (s p : string) : Prop := exists pre post, s = pre +:+ p +:+ post.



(** The Section a batch structure holds under a Batch, Subject and
    Section name. *)
Definition sectionAt (batches : gmap string BatchEntry) (b s n : string)
    : option ParsedSectionData :=
  be ← batches !! b; se ← subjects be !! s; sections se !! n.

(** A file of the hierarchy whose name has [.xlsx] twice. *)
Definition nestedFile : File :=
  {| file_name := "week1.xlsx.old.xlsx";
     webkitRelativePath := "BatchA/Math/week1.xlsx.old.xlsx";
     sheet := Ok [[CText "url"; CText "title"]; [CText "u1"; CText "t1"]] |}.

(** A file [week1.xlsx] of the Subject [Math] of [BatchA] with the rows
    [sheet], and three files of that name and one of another, as a
    folder picker can give them for a folder that was read twice. *)
Definition weekFile (name : string) (sheet : outcome (list (list cell))) : File :=
  {| file_name := name; webkitRelativePath := "BatchA/Math/" +:+ name; sheet := sheet |}.

Definition weekFiles : list File :=
  [weekFile "week1.xlsx" (Ok [[]; [CText "u1"; CText "t1"]]);
   weekFile "week1.xlsx" (Ok [[]; [CText "u2"; CText "t2"]]);
   weekFile "week1.xlsx" (Throw ReadError);
   weekFile "week2.xlsx" (Ok [[]; [CText "u3"; CText "t3"]])].

(** What line 114 tests, and the three names a file is grouped by. *)
Definition qualifies (file : File) : bool :=
  (3 <=? length (split (webkitRelativePath file) "/"))%nat && endsWith (file_name file) ".xlsx".

Definition batchOf (file : File) : string :=
  default "" (split (webkitRelativePath file) "/" !! 0%nat).

Definition subjectOf (file : File) : string :=
  default "" (split (webkitRelativePath file) "/" !! 1%nat).

Definition sectionOf (file : File) : string := replace (file_name file) ".xlsx" "".

(** The Section built from a file whose rows gave [contents]. *)
Definition sectionFrom (file : File) (contents : list XLSXContent) : ParsedSectionData :=
  {| name := sectionOf file;
     type := getSectionTypeFromName (sectionOf file);
     contents := contents |}.

(** *** Drafts as functions

    What the statements of a recipe make of a draft when none of them
    raises. *)

(** A segment fits a node when it names a field of an object or an index
    of an array. *)
Definition fits {T : Type} (k : key) (o : node T) : bool :=
  match k, o with
  | KField _, VObj _ _ | KIndex _, VArr _ _ => true
  | _, _ => false
  end.

(** [o[k] = v] *)
Definition put (k : key) (v : Draft) (o : Draft) : Draft :=
  if unchanged (child k o) v then o else adopt o k v.

(** [g] on the child under [k]. *)
Definition within (k : key) (g : Draft -> Draft) (o : Draft) : Draft :=
  match child k o with
  | Some c => if modified (g c) then adopt o k (g c) else o
  | None => o
  end.

Definition withinPath (path : list key) (g : Draft -> Draft) : Draft -> Draft :=
  fold_right within g path.

(** [g] on each element. *)
Definition each (g : Draft -> Draft) (o : Draft) : Draft :=
  match o with
  | VArr (a, m) elems =>
      let elems' := List.map (option_map g) elems in
      VArr (a, m || existsb (fun e => from_option modified false e) elems') elems'
  | _ => o
  end.

(** A draft that [g] leaves unmodified is left as it is. *)
Definition stable (g : Draft -> Draft) : Prop :=
  forall c, modified (g c) = false -> g c = c.

(** Two paths part: at the first segment in which they differ, both are
    still running. *)
Fixpoint diverges (q p : list key) : Prop :=
  match q, p with
  | k :: q', k' :: p' => k <> k' \/ (k = k' /\ diverges q' p')
  | _, _ => False
  end.

(** [v] is no object of the tree [t]: a primitive, or an object at an
    address that [t] does not use. *)
Definition foreign (t v : Value) : Prop :=
  forall a, address v = Some a -> ~ In a (addresses t).

(** What the innermost callback of [applyBulkThumbnail] makes of the draft
    of a Content. *)
Definition pick (selected : gset string) (thumbnail : string) (content : Draft) : Draft :=
  match getProp content (KField "id") with
  | Ok id => if has selected id then put (KField "thumbnail") (VStr thumbnail) content
             else content
  | _ => content
  end.

(** [content.thumbnail = d] *)
Definition setThumbnail (d : Draft) : Draft -> Draft := put (KField "thumbnail") d.

(** [g] on each element of the array in the field [s]. *)
Definition eachOf (s : string) (g : Draft -> Draft) : Draft -> Draft :=
  within (KField s) (each g).

(** The Content has a string [id] that is in the selection. *)
Definition isSelected (selected : gset string) (content : Value) : bool :=
  match child (KField "id") content with
  | Some (VStr s) => bool_decide (s ∈ selected)
  | _ => false
  end.

(** The address of the base object of a draft. *)
Definition origin (d : Draft) : option nat :=
  match d with
  | VObj (a, _) _ | VArr (a, _) _ => Some a
  | _ => None
  end.

(** The heap of an editor is well formed when the allocation pointer is
    beyond every address of the tree. *)
Definition allocated (st : editor) : Prop :=
  Forall (fun a => a < heapNext st)%nat (addresses (batchData st)).

(** A batch with two Subjects, of two Contents and of one, and an editor
    on it with the Contents [c1] and [c3] selected. *)
Definition exampleContent (a : nat) (id thumbnail : string) : Value :=
  VObj a [("id", VStr id); ("title", VStr "t"); ("url", VStr "u");
          ("thumbnail", VStr thumbnail)].

Definition exampleSubject (a : nat) (id thumbnail : string) (contents : list Value) : Value :=
  VObj a [("id", VStr id); ("thumbnail", VStr thumbnail);
          ("sections",
            VArr (a + 1)
              [Some (VObj (a + 2)
                 [("name", VStr "Lectures"); ("type", VStr "video");
                  ("contents", VArr (a + 3) (Some <$> contents))])])].

Definition exampleBatch : Value :=
  VObj 0 [("name", VStr "B");
          ("subjects",
            VArr 1 [Some (exampleSubject 2 "s1" "S1"
                            [exampleContent 6 "c1" "x"; exampleContent 7 "c2" "y"]);
                    Some (exampleSubject 8 "s2" "S2" [exampleContent 12 "c3" "x"])])].

Definition exampleEditor : editor :=
  {| batchData := exampleBatch;
     heapNext := 13;
     selectedContents := {[ "c1"; "c3" ]};
     bulkThumbnailUrl := " T ";
     showBulkThumbnail := true |}.

(** Every code unit of [s] satisfies [P]. *)
Fixpoint chars (P : ascii -> bool) (s : string) : bool :=
  match s with
  | EmptyString => true
  | String c r => P c && chars P r
  end.

(** The code unit [c] does not occur in [s]. *)
Definition lacks (c : ascii) (s : string) : bool := chars (fun x => negb (Ascii.eqb x c)) s.

(** The code units [encodeURIComponent] writes. *)
Definition uriSafe (c : ascii) : bool := uriUnreserved c || Ascii.eqb c "%".

(** The test of lines 86-88. *)
Definition accepted (file : File) : bool :=
  endsWith (file_name file) ".xlsx" && negb (startsWith (file_name file) "~").

(** The names a file is grouped by are names of own properties: the
    Batch and the Subject name are no members of [Object.prototype], and
    the Section name is not [__proto__]. *)
Definition ownNames (file : File) : bool :=
  negb (inherited (batchOf file)) && negb (inherited (subjectOf file))
  && negb (String.eqb (sectionOf file) "__proto__").

(** [file] writes the Section with [contents] under the names [b], [s]
    and [n]: it qualifies, has these names, which are names of own
    properties, and parses. *)
Definition writes (file : File) (b s n : string) (contents : list XLSXContent) : Prop :=
  qualifies file = true /\
  batchOf file = b /\ subjectOf file = s /\ sectionOf file = n /\
  ownNames file = true /\
  parseXLSXFile file = Ok contents.

(** Every entry of a batch structure is filed under its own name, and
    every Section has the type of its name. *)
Definition wellNamed (batches : gmap string BatchEntry) : Prop :=
  forall b be, batches !! b = Some be ->
    batch_name be = b /\
    forall s se, subjects be !! s = Some se ->
      subject_name se = s /\
      forall n sec, sections se !! n = Some sec ->
        name sec = n /\ type sec = getSectionTypeFromName n.

(** *** Edits of the tree *)

(** The editor after [setBatchData] ran a recipe that does [g] at
    [path]. *)
Definition updated (path : list key) (g : Draft -> Draft) (st : editor) : editor :=
  let d := withinPath path g (createDraft (batchData st)) in
  {| batchData := finalize (heapNext st) d;
     heapNext := if modified d then heapNext st + heapNext st else heapNext st;
     selectedContents := selectedContents st;
     bulkThumbnailUrl := bulkThumbnailUrl st;
     showBulkThumbnail := showBulkThumbnail st |}.

(** [o.push(v)] and [o.splice(i, 1)] on the draft of an array. *)
Definition pushed (v : Draft) (o : Draft) : Draft :=
  match o with
  | VArr (a, m) elems => VArr (a, true) (elems ++ [Some v])
  | _ => o
  end.

Definition removed (i : nat) (o : Draft) : Draft :=
  match o with
  | VArr (a, m) elems => if (i <? length elems)%nat then VArr (a, true) (delete i elems) else o
  | _ => o
  end.

(** An array without holes. *)
Definition dense {T : Type} (v : node T) : bool :=
  match v with
  | VArr _ elems => forallb present elems
  | _ => false
  end.

(** The paths of the array of Sections of Subject [i], of its Section
    [j], and of the array of Contents of that Section. *)
Definition sectionsPath (i : nat) : list key := subjectPath i ++ [KField "sections"].
Definition sectionPath (i j : nat) : list key := sectionsPath i ++ [KIndex j].
Definition contentsPath (i j : nat) : list key := sectionPath i j ++ [KField "contents"].

(** [g] keeps the shape: it takes drafts of the shape to drafts of the
    shape. *)
Definition keeps (shape : Draft -> bool) (g : Draft -> Draft) : Prop :=
  forall c, shape c = true -> shape (g c) = true.

(** Subject [i] of the batch [t] and every Content of it have the
    thumbnail [V]. *)
Definition uniformThumbnails (i : nat) (V : Value) (t : Value) : Prop :=
  at_path (subjectPath i ++ [KField "thumbnail"]) t = Some V /\
  forall j k c,
    at_path (contentPath i j k) t = Some c -> child (KField "thumbnail") c = Some V.

(** A batch of one Subject whose Contents have the thumbnail of the
    Subject, and an editor on it. *)
Definition uniformBatch : Value :=
  VObj 0 [("name", VStr "B");
          ("subjects",
            VArr 1 [Some (exampleSubject 2 "s1" "T"
                            [exampleContent 6 "c1" "T"; exampleContent 7 "c2" "T"])])].

Definition uniformEditor : editor :=
  {| batchData := uniformBatch;
     heapNext := 8;
     selectedContents := ∅;
     bulkThumbnailUrl := "";
     showBulkThumbnail := false |}.

(** The number of elements of the array [contents] of a Section. *)
Definition contentsCount (section : option Value) : nat :=
  match section with
  | Some s =>
      match child (KField "contents") s with
      | Some (VArr _ contents) => length contents
      | _ => 0
      end
  | None => 0
  end.

(** *** Views *)

(** The name of a content type as a string. *)
Definition typeName (type : ContentType) : string :=
  match type with
  | video => "video"
  | notes => "notes"
  | assignment => "assignment"
  | quiz => "quiz"
  end.

(** The Contents a Section brings to the tab [type]: its Contents when
    its type is [type], none otherwise. *)
Definition contentsFor (type : ContentType) (section : option Value) : list Value :=
  match section with
  | Some s =>
      match child (KField "type") s, child (KField "contents") s with
      | Some (VStr name), Some (VArr _ contents) =>
          if String.eqb name (typeName type) then List.map (default VUndef) contents else []
      | _, _ => []
      end
  | None => []
  end.

(** A Section for the views: an object whose [type] is a string, not
    the name of a member inherited from [Object.prototype], and whose
    [contents] is an array. *)
Definition isTyped (section : Value) : bool :=
  match child (KField "type") section, child (KField "contents") section with
  | Some (VStr name), Some (VArr _ _) => negb (inherited name)
  | _, _ => false
  end.

(** The Content is of one of the three document types. *)
Definition isDocument (content : Value) : bool :=
  match child (KField "type") content with
  | Some (VStr s) => String.eqb s "notes" || String.eqb s "assignment" || String.eqb s "quiz"
  | _ => false
  end.

(** Groups in which only the notes have a Content. *)
Definition notesOnly : Grouped :=
  {| videos := []; noteses := [VNull]; assignments := []; quizzes := [] |}.

(** * Properties *)

(** ** Strings *)

Section StringFacts.

Lemma append_empty_r (s : string) : s +:+ "" = s.
Proof. induction s as [|c s IH]; simpl; [reflexivity | now rewrite IH]. Qed.

Lemma append_assoc (a b c : string) : (a +:+ b) +:+ c = a +:+ (b +:+ c).
Proof. induction a as [|x a IH]; simpl; [reflexivity | now rewrite IH]. Qed.

Lemma length_append (a b : string) :
  String.length (a +:+ b) = (String.length a + String.length b)%nat.
Proof. induction a as [|x a IH]; simpl; [reflexivity | now rewrite IH]. Qed.

Lemma prefix_spec (p s : string) :
  String.prefix p s = true <-> exists post, s = p +:+ post.
Proof.
  revert s. induction p as [|c p IH]; intros s.
  - split; [intros _; now exists s | now destruct s].
  - destruct s as [|d s]; simpl.
    + split; [discriminate | intros [post H]; discriminate].
    + destruct (Ascii.ascii_dec c d) as [->|Hne].
      * rewrite IH. split; intros [post H]; exists post; congruence.
      * split; [discriminate | intros [post H]; congruence].
Qed.

Lemma includes_spec (s p : string) :
  includes s p = true <-> exists pre post, s = pre +:+ p +:+ post.
Proof.
  induction s as [|c s IH]; cbn [includes].
  - rewrite orb_false_r, prefix_spec. split.
    + intros [post H]. now exists "", post.
    + intros [pre [post H]]. destruct pre; [now exists post | discriminate].
  - rewrite orb_true_iff, IH, prefix_spec. split.
    + intros [[post H] | [pre [post H]]].
      * now exists "", post.
      * exists (String c pre), post. simpl. now rewrite H.
    + intros [pre [post H]]. destruct pre as [|d pre]; simpl in H.
      * left. now exists post.
      * right. exists pre, post. congruence.
Qed.

Lemma trimStart_empty (s : string) : trimStart s = "" <-> blank s = true.
Proof.
  induction s as [|c s IH]; simpl; [tauto|].
  destruct (isWhiteSpace c); simpl; [exact IH | split; discriminate].
Qed.

Lemma trimEnd_solid (c : ascii) (s : string) :
  isWhiteSpace c = false -> trimEnd (String c s) <> "".
Proof. intros H. simpl. rewrite H. destruct (trimEnd s); discriminate. Qed.

Lemma trimStart_head (s : string) :
  trimStart s = "" \/ exists c r, trimStart s = String c r /\ isWhiteSpace c = false.
Proof.
  induction s as [|c s IH]; simpl; [now left|].
  destruct (isWhiteSpace c) eqn:E; [exact IH | right; eauto].
Qed.

Lemma trim_empty (s : string) : trim s = "" <-> blank s = true.
Proof.
  unfold trim. rewrite <- trimStart_empty.
  destruct (trimStart_head s) as [-> | (c & r & -> & Hc)]; [tauto|].
  split; [intros H; now apply trimEnd_solid in H | discriminate].
Qed.

Lemma blank_trim (s : string) : falsy s || falsy (trim s) = blank s.
Proof.
  unfold falsy. destruct (blank s) eqn:B.
  - apply trim_empty in B. rewrite B. apply orb_true_r.
  - assert (trim s <> "") as Ht by (rewrite trim_empty; congruence).
    assert (s <> "") as Hs by (intros ->; discriminate).
    apply String.eqb_neq in Ht, Hs. now rewrite Ht, Hs.
Qed.

Lemma toLowerCase_append (a b : string) :
  toLowerCase (a +:+ b) = toLowerCase a +:+ toLowerCase b.
Proof. induction a as [|x a IH]; simpl; [reflexivity | now rewrite IH]. Qed.

Lemma toLowerCase_split (s x y : string) :
  toLowerCase s = x +:+ y ->
  exists a b, s = a +:+ b /\ toLowerCase a = x /\ toLowerCase b = y.
Proof.
  revert s. induction x as [|c x IH]; intros s H; simpl in H.
  - now exists "", s.
  - destruct s as [|d s]; [discriminate|]. simpl in H. injection H as Hc H.
    destruct (IH _ H) as (a & b & -> & Ha & Hb).
    exists (String d a), b. simpl. now rewrite Hc, Ha.
Qed.

Lemma append_inv_tail (a b c : string) : a +:+ c = b +:+ c -> a = b.
Proof.
  revert b. induction a as [|x a IH]; intros [|y b] H; simpl in H.
  - reflexivity.
  - apply (f_equal String.length) in H. simpl in H. rewrite length_append in H. lia.
  - apply (f_equal String.length) in H. simpl in H. rewrite length_append in H. lia.
  - injection H as -> H. now rewrite (IH b H).
Qed.

Lemma slice_append (p s : string) : slice (String.length p) (p +:+ s) = s.
Proof. induction p as [|c p IH]; simpl; [now destruct s | exact IH]. Qed.

(** [replace] leaves a string without the pattern as it is, and otherwise
    replaces one occurrence of the pattern. *)
Lemma replace_occurrence (s p r : string) :
  (~ contains s p /\ replace s p r = s) \/
  (exists pre post, s = pre +:+ p +:+ post /\ replace s p r = pre +:+ r +:+ post).
Proof.
  induction s as [|c s IH].
  - cbn [replace]. destruct (String.prefix p "") eqn:E.
    + right. apply prefix_spec in E as [post E]. exists "", post.
      split; [exact E|]. rewrite E at 1. now rewrite slice_append.
    + left. split; [|reflexivity]. intros H. apply includes_spec in H.
      cbn [includes] in H. rewrite E in H. discriminate H.
  - cbn [replace]. destruct (String.prefix p (String c s)) eqn:E.
    + right. apply prefix_spec in E as [post E]. exists "", post.
      split; [exact E|]. rewrite E at 1. now rewrite slice_append.
    + destruct IH as [[Hno Hs] | (pre & post & Hs & Hr)].
      * left. split; [|now rewrite Hs]. intros H. apply includes_spec in H.
        cbn [includes] in H. rewrite E in H. apply Hno. now apply includes_spec.
      * right. exists (String c pre), post. simpl. now rewrite Hs at 1; rewrite Hr.
Qed.

End StringFacts.

(** ** URL normalisation *)

Section Normalisation.

Lemma getVideoPlayerURL_blank raw isLive :
  blank raw = true -> getVideoPlayerURL raw isLive = "#".
Proof. intros H. unfold getVideoPlayerURL. now rewrite blank_trim, H. Qed.

Lemma getVideoPlayerURL_prefixed raw isLive :
  prefixed raw = true -> getVideoPlayerURL raw isLive = raw.
Proof.
  intros H. unfold getVideoPlayerURL. rewrite blank_trim.
  destruct (blank raw) eqn:B.
  - exfalso. unfold prefixed, startsWith in H.
    apply orb_true_iff in H as [H|H]; apply prefix_spec in H as [rest ->];
      vm_compute in B; discriminate.
  - fold (prefixed raw). now rewrite H.
Qed.

Lemma getVideoPlayerURL_encode raw isLive :
  blank raw = false -> prefixed raw = false ->
  getVideoPlayerURL raw isLive = playback isLive +:+ encodeURIComponent raw.
Proof.
  intros B H. unfold getVideoPlayerURL. rewrite blank_trim, B.
  fold (prefixed raw). now rewrite H.
Qed.

Lemma playback_prefixed isLive rest : prefixed (playback isLive +:+ rest) = true.
Proof.
  unfold prefixed, startsWith. apply orb_true_iff.
  destruct isLive; [left | right]; apply prefix_spec; now exists rest.
Qed.

(** C7. [getVideoPlayerURL raw isLive] is ["#"] when [raw] is empty or
    all white space, is [raw] itself when [raw] starts with the live or
    the recorded playback prefix, and otherwise is the prefix chosen by
    [isLive] followed by [encodeURIComponent raw]. *)
Theorem getVideoPlayerURL_cases (raw : string) (isLive : bool) :
  (blank raw = true -> getVideoPlayerURL raw isLive = "#") /\
  ((exists rest, raw = livePrefix +:+ rest) \/ (exists rest, raw = recPrefix +:+ rest) ->
   getVideoPlayerURL raw isLive = raw) /\
  (blank raw = false ->
   (forall rest, raw <> livePrefix +:+ rest) -> (forall rest, raw <> recPrefix +:+ rest) ->
   getVideoPlayerURL raw isLive
   = (if isLive then livePrefix else recPrefix) +:+ encodeURIComponent raw) /\
  getVideoPlayerURL "" isLive = "#" /\
  getVideoPlayerURL "   " isLive = "#".
Proof.
  split; [apply getVideoPlayerURL_blank|].
  split; [|split; [|split; reflexivity]].
  - intros H. apply getVideoPlayerURL_prefixed. unfold prefixed, startsWith.
    apply orb_true_iff. rewrite !prefix_spec. exact H.
  - intros B HL HR. apply getVideoPlayerURL_encode; [exact B|].
    unfold prefixed, startsWith. apply orb_false_iff.
    split; apply not_true_is_false; rewrite prefix_spec; intros [rest E];
      [now apply (HL rest) | now apply (HR rest)].
Qed.

Lemma getVideoPlayerURL_cases_witness :
  getVideoPlayerURL "   " true = "#" /\
  getVideoPlayerURL (recPrefix +:+ "a%20b") true = recPrefix +:+ "a%20b" /\
  getVideoPlayerURL "a b" true = livePrefix +:+ "a%20b".
Proof.
  destruct (getVideoPlayerURL_cases "   " true) as (H1 & _ & _).
  destruct (getVideoPlayerURL_cases (recPrefix +:+ "a%20b") true) as (_ & H2 & _).
  destruct (getVideoPlayerURL_cases "a b" true) as (_ & _ & H3 & _).
  split; [apply H1; reflexivity|]. split.
  - apply H2. right. now exists "a%20b".
  - apply H3; [reflexivity | intros rest; discriminate | intros rest; discriminate].
Defined.

(** C4, as stated, fails on the empty string: the sentinel ["#"] is not
    blank and carries no prefix, so normalising it again wraps it. *)
Lemma getVideoPlayerURL_not_idempotent :
  getVideoPlayerURL (getVideoPlayerURL "" false) false <> getVideoPlayerURL "" false.
Proof. vm_compute. discriminate. Qed.

(** C4, amended.  For every [x] that is not blank (neither empty nor all
    white space) and every [m], normalising twice is normalising once;
    for a blank [x] normalising gives ["#"] and normalising twice the
    prefix chosen by [m] followed by [%23]. *)
Theorem getVideoPlayerURL_idempotent (x : string) (m : bool) :
  (blank x = false ->
   getVideoPlayerURL (getVideoPlayerURL x m) m = getVideoPlayerURL x m) /\
  (blank x = true ->
   getVideoPlayerURL x m = "#" /\
   getVideoPlayerURL (getVideoPlayerURL x m) m = playback m +:+ "%23").
Proof.
  split.
  - intros B. destruct (prefixed x) eqn:P.
    + rewrite (getVideoPlayerURL_prefixed x m P). now apply getVideoPlayerURL_prefixed.
    + rewrite (getVideoPlayerURL_encode x m B P).
      apply getVideoPlayerURL_prefixed, playback_prefixed.
  - intros B. rewrite (getVideoPlayerURL_blank x m B). split; [reflexivity|].
    now destruct m.
Qed.

Lemma getVideoPlayerURL_idempotent_witness :
  blank "https://cdn/a b.m3u8" = false /\
  getVideoPlayerURL (getVideoPlayerURL "https://cdn/a b.m3u8" true) true
  = getVideoPlayerURL "https://cdn/a b.m3u8" true.
Proof.
  split; [reflexivity|].
  apply (getVideoPlayerURL_idempotent "https://cdn/a b.m3u8" true). reflexivity.
Defined.

End Normalisation.

(** ** Section Classifier *)

Section Classifier.

Lemma occurs_includes (kw name : string) :
  occursIgnoringCase kw name <-> includes (toLowerCase name) (toLowerCase kw) = true.
Proof.
  rewrite includes_spec. split.
  - intros (pre & w & post & -> & Hw).
    exists (toLowerCase pre), (toLowerCase post).
    now rewrite !toLowerCase_append, Hw.
  - intros (x & z & H).
    apply toLowerCase_split in H as (pre & rest & -> & <- & H).
    apply toLowerCase_split in H as (w & post & -> & Hw & <-).
    now exists pre, w, post.
Qed.

Lemma firstMatch_step name kw t rest r :
  toLowerCase kw = kw ->
  (if includes (toLowerCase name) kw then r = t else firstMatch name rest r) ->
  firstMatch name ((kw, t) :: rest) r.
Proof.
  intros Hkw H. destruct (includes (toLowerCase name) kw) eqn:E.
  - subst r. apply firstMatch_here, occurs_includes. now rewrite Hkw.
  - apply firstMatch_later; [|exact H].
    rewrite occurs_includes, Hkw. congruence.
Qed.

Lemma firstMatch_functional name l r r' :
  firstMatch name l r -> firstMatch name l r' -> r = r'.
Proof.
  induction 1; inversion 1; subst; try reflexivity; try contradiction; auto.
Qed.

(** C9. [getSectionTypeFromName] is a total function that gives the
    type of the first keyword, in the order video, notes, quiz, dpp,
    acp, wpp, otp, assignment, that occurs in the name when case is
    ignored, and [video] when none occurs; on the five names of the
    specification it gives assignment, quiz, notes, video, video. *)
Theorem getSectionTypeFromName_first_match :
  (forall name, firstMatch name keywords (getSectionTypeFromName name)) /\
  getSectionTypeFromName "Week1_DPP" = assignment /\
  getSectionTypeFromName "Quiz_Final" = quiz /\
  getSectionTypeFromName "Intro_Notes" = notes /\
  getSectionTypeFromName "Lecture_01" = video /\
  getSectionTypeFromName "Random123" = video.
Proof.
  split; [|repeat split; reflexivity].
  intros name. unfold getSectionTypeFromName, keywords.
  repeat (apply firstMatch_step; [reflexivity|];
          destruct (includes (toLowerCase name) _); simpl; [reflexivity|]).
  apply firstMatch_none.
Qed.

End Classifier.

(** ** Row Parser *)

Section RowParser.

Lemma parseRow_kept row :
  parseRow row = if kept row then (fun e => [e]) <$> entryOf row else Ok [].
Proof.
  unfold parseRow, kept, entryOf.
  destruct (_ && _ && _); [|reflexivity].
  now destruct (extractVideoUrl _).
Qed.

Lemma parseLoop_entries rows todo i acc :
  (i + todo)%nat = length rows ->
  parseLoop rows todo i acc
  = app acc <$> mapM entryOf (List.filter kept (skipn i rows)).
Proof.
  revert i acc. induction todo as [|todo IH]; intros i acc Hlen.
  - rewrite skipn_all2 by lia. simpl. now rewrite app_nil_r.
  - destruct (lookup_lt_is_Some_2 rows i) as [row Hrow]; [lia|].
    rewrite (drop_S _ _ _ Hrow). cbn [parseLoop List.filter].
    rewrite Hrow. change (default [] (Some row)) with row.
    rewrite parseRow_kept. destruct (kept row).
    + cbn [mapM]. destruct (entryOf row) as [e| |]; try reflexivity.
      change (parseLoop rows todo (S i) (acc ++ [e])
              = app acc <$> (cons e <$> mapM entryOf (List.filter kept (skipn (S i) rows)))).
      rewrite IH by lia.
      destruct (mapM entryOf _); cbn; try reflexivity.
      now rewrite <- app_assoc.
    + change (parseLoop rows todo (S i) (acc ++ [])
              = app acc <$> mapM entryOf (List.filter kept (skipn (S i) rows))).
      rewrite app_nil_r. apply IH. lia.
Qed.

Lemma parseRows_entries rows :
  parseRows rows = mapM entryOf (List.filter kept (skipn 1 rows)).
Proof.
  unfold parseRows. destruct rows as [|header rows].
  - reflexivity.
  - rewrite parseLoop_entries by (simpl; lia).
    now destruct (mapM entryOf _).
Qed.











End RowParser.

(** ** Folder Structure Aggregator *)

Section Aggregator.

Implicit Types (batches : gmap string BatchEntry) (file : File).

Lemma processFile_skips batches file :
  qualifies file = false -> processFile batches file = Ok batches.
Proof. unfold qualifies, processFile. now intros ->. Qed.

Lemma ownNames_inv file :
  ownNames file = true ->
  inherited (batchOf file) = false /\ inherited (subjectOf file) = false /\
  String.eqb (sectionOf file) "__proto__" = false.
Proof.
  unfold ownNames. intros [[H1 H2]%andb_true_iff H3]%andb_true_iff.
  now apply negb_true_iff in H1, H2, H3.
Qed.

(** The Batch that is there, or the new one, put under its name leaves
    every Section as it is. *)
Lemma sectionAt_ensure batches bn b s n :
  sectionAt (<[bn := default {| batch_name := bn; subjects := ∅ |} (batches !! bn)]> batches)
    b s n
  = sectionAt batches b s n.
Proof.
  unfold sectionAt. destruct (decide (b = bn)) as [->|Hb].
  - rewrite lookup_insert_eq. now destruct (batches !! bn).
  - now rewrite lookup_insert_ne by auto.
Qed.

(** The Sections after a Subject was stored under [bn] and [sn]. *)
Lemma sectionAt_store batches bn sn (subject' : SubjectEntry) b s n :
  sectionAt
    (<[bn := {| batch_name :=
                  batch_name (default {| batch_name := bn; subjects := ∅ |} (batches !! bn));
                subjects :=
                  <[sn := subject']>
                    (subjects (default {| batch_name := bn; subjects := ∅ |}
                                       (batches !! bn))) |}]> batches) b s n
  = if decide (b = bn /\ s = sn) then sections subject' !! n else sectionAt batches b s n.
Proof.
  unfold sectionAt. destruct (decide (b = bn)) as [->|Hb].
  - rewrite lookup_insert_eq. cbn. destruct (decide (s = sn)) as [->|Hs].
    + rewrite lookup_insert_eq. cbn. now rewrite decide_True by auto.
    + rewrite lookup_insert_ne by auto. rewrite decide_False by tauto.
      now destruct (batches !! bn).
  - rewrite lookup_insert_ne by auto. now rewrite decide_False by tauto.
Qed.

Lemma sections_default batches bn sn n :
  sections (default {| subject_name := sn; sections := ∅ |}
              (subjects (default {| batch_name := bn; subjects := ∅ |} (batches !! bn))
               !! sn)) !! n
  = sectionAt batches bn sn n.
Proof.
  unfold sectionAt. destruct (batches !! bn) as [be|]; cbn.
  - destruct (subjects be !! sn); cbn; [reflexivity | apply lookup_empty].
  - rewrite lookup_empty. cbn. apply lookup_empty.
Qed.

(** What a file that qualifies, has names of own properties and parses
    leaves under each triple of names: its own Section under its own
    names, whatever was there before, and what was there before under
    every other triple. *)
Lemma processFile_parsed batches file contents b s n :
  qualifies file = true ->
  ownNames file = true ->
  parseXLSXFile file = Ok contents ->
  exists batches',
    processFile batches file = Ok batches' /\
    sectionAt batches' b s n
    = if decide (b = batchOf file /\ s = subjectOf file /\ n = sectionOf file)
      then Some (sectionFrom file contents)
      else sectionAt batches b s n.
Proof.
  intros Hq (Hb & Hs & Hn)%ownNames_inv Hp. unfold processFile. fold (qualifies file).
  rewrite Hq, Hp. fold (batchOf file) (subjectOf file) (sectionOf file).
  rewrite Hb, Hs, Hn.
  eexists. split; [reflexivity|]. rewrite sectionAt_store. cbn [sections].
  destruct (decide (b = batchOf file /\ s = subjectOf file)) as [[-> ->]|Hne].
  - destruct (decide (n = sectionOf file)) as [->|Hne].
    + rewrite lookup_insert_eq. now rewrite decide_True by auto.
    + rewrite lookup_insert_ne by auto. rewrite decide_False by tauto.
      apply sections_default.
  - now rewrite decide_False by tauto.
Qed.

(** A file that does not write (it fails to parse, or its Subject name
    is that of an inherited member) leaves every Section as it was. *)
Lemma processFile_same batches batches' file b s n :
  processFile batches file = Ok batches' ->
  (forall contents, parseXLSXFile file = Ok contents -> inherited (subjectOf file) = true) ->
  sectionAt batches' b s n = sectionAt batches b s n.
Proof.
  unfold processFile. fold (qualifies file).
  destruct (qualifies file); [|now intros [= <-]].
  fold (batchOf file) (subjectOf file) (sectionOf file).
  destruct (inherited (batchOf file)); [discriminate|].
  destruct (inherited (subjectOf file)) eqn:Hs.
  - destruct (parseXLSXFile file); intros [= <-] _; apply sectionAt_ensure.
  - destruct (parseXLSXFile file) as [contents|e|]; try discriminate.
    + intros _ H. now specialize (H contents eq_refl).
    + intros [= <-] _. rewrite sectionAt_store.
      destruct (decide _) as [[-> ->]|]; [apply sections_default | reflexivity].
Qed.

(** A file that qualifies and fails to parse leaves every Section as it
    was, unless its Batch name is that of an inherited member. *)
Lemma processFile_failed batches file e b s n :
  parseXLSXFile file = Throw e ->
  inherited (batchOf file) = false ->
  exists batches',
    processFile batches file = Ok batches' /\
    sectionAt batches' b s n = sectionAt batches b s n.
Proof.
  intros Hp Hb.
  assert (exists batches', processFile batches file = Ok batches') as [batches' Hrun].
  { unfold processFile. destruct (_ && _); [|eauto].
    fold (batchOf file) (subjectOf file). rewrite Hb, Hp.
    destruct (inherited (subjectOf file)); eauto. }
  exists batches'. split; [exact Hrun|].
  apply (processFile_same batches batches' file b s n Hrun).
  intros contents Hc. congruence.
Qed.

Lemma processFiles_app batches files files' :
  processFiles batches (files ++ files')
  = (batches' ← processFiles batches files; processFiles batches' files').
Proof.
  revert batches. induction files as [|file files IH]; intros batches; [reflexivity|].
  cbn [app processFiles]. destruct (processFile batches file); cbn; auto.
Qed.

(** Last write wins: when the files before [file] were processed, with
    any result, a [file] that qualifies and parses leaves exactly its
    own Section under its names. *)
Lemma processFiles_last_write_wins files file contents batches :
  qualifies file = true ->
  ownNames file = true ->
  parseXLSXFile file = Ok contents ->
  processFiles ∅ files = Ok batches ->
  exists batches',
    processFolderStructure (files ++ [file]) = Ok batches' /\
    sectionAt batches' (batchOf file) (subjectOf file) (sectionOf file)
    = Some (sectionFrom file contents).
Proof.
  intros Hq Hown Hp Hfiles. unfold processFolderStructure.
  rewrite processFiles_app, Hfiles. cbn.
  destruct (processFile_parsed batches file contents
              (batchOf file) (subjectOf file) (sectionOf file) Hq Hown Hp) as (b' & -> & Hs).
  exists b'. split; [reflexivity|]. rewrite Hs. now rewrite decide_True.
Qed.

(** The Section name is the file name without its extension when [.xlsx]
    occurs in the name at its end only. *)
Lemma sectionOf_stem file stem :
  file_name file = stem +:+ ".xlsx" ->
  (forall pre post, file_name file = pre +:+ ".xlsx" +:+ post -> post = "") ->
  sectionOf file = stem.
Proof.
  intros Hname Honly. unfold sectionOf.
  destruct (replace_occurrence (file_name file) ".xlsx" "")
    as [[Hno _] | (pre & post & Hs & ->)].
  - destruct Hno. exists stem, "". now rewrite Hname.
  - pose proof (Honly pre post Hs) as ->. rewrite Hname in Hs.
    apply append_inv_tail in Hs as <-. simpl. apply append_empty_r.
Qed.

(** C8 on a file whose name holds [.xlsx] before its extension: the
    Section is filed under the name with the first [.xlsx] removed,
    [week1.old.xlsx], and nothing is filed under the file name without
    its extension, [week1.xlsx.old]. *)
Theorem processFolderStructure_nested_extension :
  qualifies nestedFile = true /\
  (fun batches => sectionAt batches "BatchA" "Math" "week1.old.xlsx")
    <$> processFolderStructure [nestedFile]
  = Ok (Some {| name := "week1.old.xlsx"; type := video;
                contents := [{| url := "u1"; title := "t1" |}] |}) /\
  (fun batches => sectionAt batches "BatchA" "Math" "week1.xlsx.old")
    <$> processFolderStructure [nestedFile]
  = Ok None.
Proof. repeat split; vm_compute; reflexivity. Qed.

End Aggregator.

(** ** Trees and drafts *)

Section TreeFacts.

Context {T : Type}.

(** Induction over a tree, with the property known of the fields of an
    object and of the elements of an array. *)
Lemma node_induction (P : node T -> Prop) :
  P VUndef -> P VNull -> (forall b, P (VBool b)) -> (forall z, P (VNum z)) ->
  (forall s, P (VStr s)) ->
  (forall t props, Forall (fun kv => P (snd kv)) props -> P (VObj t props)) ->
  (forall t elems, Forall (fun e => forall c, e = Some c -> P c) elems -> P (VArr t elems)) ->
  forall v, P v.
Proof.
  intros Hu Hn Hb Hz Hs Ho Ha.
  fix IH 1.
  intros [| | b | z | s | t props | t elems];
    [exact Hu | exact Hn | apply Hb | apply Hz | apply Hs | | ].
  - apply Ho. induction props as [|[k v] props IHp]; constructor; [apply IH | exact IHp].
  - apply Ha. induction elems as [|[c|] elems IHe]; constructor; try exact IHe.
    + intros c' [= <-]. apply IH.
    + discriminate.
Qed.

Lemma assoc_store_eq {A} s (v : A) props : assoc s (store s v props) = Some v.
Proof.
  induction props as [|[s' v'] props IH]; simpl.
  - now rewrite String.eqb_refl.
  - destruct (String.eqb s' s) eqn:E; simpl; now rewrite E.
Qed.

Lemma assoc_store_ne {A} s s' (v : A) props :
  s <> s' -> assoc s' (store s v props) = assoc s' props.
Proof.
  intros Hne. induction props as [|[s0 v0] props IH]; simpl.
  - apply String.eqb_neq in Hne. now rewrite Hne.
  - destruct (String.eqb s0 s) eqn:E; simpl.
    + apply String.eqb_eq in E as ->. apply String.eqb_neq in Hne. now rewrite Hne.
    + now rewrite IH.
Qed.

Lemma slot_storeAt_eq {A} n (v : A) elems : slot n (storeAt n v elems) = Some v.
Proof.
  unfold slot, storeAt. destruct (Nat.ltb_spec n (length elems)).
  - now rewrite list_lookup_insert_eq.
  - rewrite lookup_app_r by lia.
    rewrite lookup_app_r by (rewrite length_replicate; lia).
    rewrite length_replicate, Nat.sub_diag. reflexivity.
Qed.

Lemma slot_storeAt_ne {A} n n' (v : A) elems :
  n <> n' -> slot n' (storeAt n v elems) = slot n' elems.
Proof.
  intros Hne. unfold slot, storeAt. destruct (Nat.ltb_spec n (length elems)).
  - now rewrite list_lookup_insert_ne.
  - destruct (Nat.lt_ge_cases n' (length elems)).
    + now rewrite lookup_app_l.
    + rewrite (lookup_ge_None_2 elems n') by lia.
      rewrite lookup_app_r by lia.
      destruct (Nat.lt_ge_cases (n' - length elems) (n - length elems)).
      * rewrite lookup_app_l by (rewrite length_replicate; lia).
        now rewrite lookup_replicate_2.
      * rewrite lookup_app_r by (rewrite length_replicate; lia).
        rewrite length_replicate.
        destruct (n' - length elems - (n - length elems))%nat as [|j] eqn:E; [lia|].
        reflexivity.
Qed.

Lemma assoc_map {U} (f : node T -> node U) s props :
  assoc s (List.map (fun kv => (fst kv, f (snd kv))) props) = f <$> assoc s props.
Proof.
  induction props as [|[s' v] props IH]; simpl; [reflexivity|].
  now destruct (String.eqb s' s).
Qed.

Lemma slot_map {A B} (f : A -> B) n elems :
  slot n (List.map (option_map f) elems) = f <$> slot n elems.
Proof.
  unfold slot. revert n. induction elems as [|e elems IH]; intros [|n]; simpl;
    try reflexivity; apply IH.
Qed.

Lemma child_tmap {U} (f : T -> U) k (v : node T) :
  child k (tmap f v) = tmap f <$> child k v.
Proof.
  destruct k, v; simpl; try reflexivity.
  - apply (assoc_map (tmap f)).
  - apply slot_map.
Qed.

Lemma at_path_tmap {U} (f : T -> U) path (v : node T) :
  at_path path (tmap f v) = tmap f <$> at_path path v.
Proof.
  revert v. induction path as [|k path IH]; intros v; simpl; [reflexivity|].
  rewrite child_tmap. destruct (child k v); simpl; [apply IH | reflexivity].
Qed.

Lemma tmap_cancel {U} (f : T -> U) (g : U -> T) (v : node T) :
  (forall t, g (f t) = t) -> tmap g (tmap f v) = v.
Proof.
  intros Hgf. induction v as [| | | | |t props IH|t elems IH] using node_induction;
    simpl; try reflexivity; rewrite Hgf; f_equal.
  - induction IH as [|[k v] props Hv _ IHp]; simpl; [reflexivity|].
    simpl in Hv. now rewrite Hv, IHp.
  - induction IH as [|e elems He _ IHe]; simpl; [reflexivity|].
    rewrite IHe. destruct e as [c|]; simpl; [|reflexivity].
    now rewrite (He c eq_refl).
Qed.

Lemma at_path_app path path' (v : node T) :
  at_path (path ++ path') v = at_path path v ≫= at_path path'.
Proof.
  revert v. induction path as [|k path IH]; intros v; simpl; [reflexivity|].
  destruct (child k v); simpl; [apply IH | reflexivity].
Qed.

Lemma child_fits k (o c : node T) : child k o = Some c -> fits k o = true.
Proof. destruct k, o; simpl; congruence. Qed.

Lemma getProp_child k (o c : node T) : child k o = Some c -> getProp o k = Ok c.
Proof. destruct k, o; simpl; try discriminate; now intros ->. Qed.

Lemma getProp_own tag props k :
  inherited (keyName k) = false ->
  getProp (VObj tag props : node T) k = Ok (default VUndef (assoc (keyName k) props)).
Proof. intros H. cbn [getProp]. destruct (assoc _ _); [reflexivity|]. now rewrite H. Qed.

Lemma getProp_tmap {U} (f : T -> U) k (o : node T) :
  getProp (tmap f o) k = tmap f <$> getProp o k.
Proof.
  destruct o; cbn [tmap getProp]; try reflexivity.
  - now destruct (inherits _ _).
  - now destruct (inherits _ _).
  - destruct (keyIndex k); [now destruct (String.get _ _)|].
    destruct (String.eqb _ _); [reflexivity|]. now destruct (inherits _ _).
  - rewrite (assoc_map (tmap f)). destruct (assoc _ _); [reflexivity|].
    now destruct (inherited _).
  - destruct (keyIndex k).
    + rewrite slot_map. now destruct (slot _ _).
    + rewrite length_map. destruct (String.eqb _ _); [reflexivity|].
      now destruct (inherits _ _).
Qed.

End TreeFacts.

Section DraftFacts.

Implicit Types (o c d v : Draft) (t : Value) (g : Draft -> Draft).

Lemma finalize_createDraft next t : finalize next (createDraft t) = t.
Proof. apply tmap_cancel. reflexivity. Qed.

Lemma modified_createDraft t : modified (createDraft t) = false.
Proof. now destruct t. Qed.

Lemma child_createDraft k t : child k (createDraft t) = createDraft <$> child k t.
Proof. apply child_tmap. Qed.

Lemma at_path_createDraft path t : at_path path (createDraft t) = createDraft <$> at_path path t.
Proof. apply at_path_tmap. Qed.

Lemma at_path_finalize next path d :
  at_path path (finalize next d) = finalize next <$> at_path path d.
Proof. apply at_path_tmap. Qed.

Lemma fits_createDraft k t : fits k (createDraft t) = fits k t.
Proof. now destruct k, t. Qed.

Lemma child_adopt_eq k o c c' : child k o = Some c -> child k (adopt o k c') = Some c'.
Proof.
  destruct k, o as [| | | | |[a m] props|[a m] elems]; simpl; try discriminate; intros _.
  - apply assoc_store_eq.
  - apply slot_storeAt_eq.
Qed.

Lemma child_adopt_ne k k' o c' :
  fits k o = true -> k <> k' -> child k' (adopt o k c') = child k' o.
Proof.
  destruct k, o as [| | | | |[a m] props|[a m] elems]; simpl; try discriminate;
    intros _ Hne; destruct k'; simpl; try reflexivity.
  - apply assoc_store_ne. congruence.
  - apply slot_storeAt_ne. congruence.
Qed.

Lemma modified_adopt k o c' : fits k o = true -> modified (adopt o k c') = true.
Proof. now destruct k, o as [| | | | |[a m] props|[a m] elems]. Qed.

Lemma assign_put k v o : fits k o = true -> assign o k v = Ok (put k v o).
Proof.
  unfold put.
  destruct k, o as [| | | | |[a m] props|[a m] elems]; simpl; try discriminate; intros _.
  - now destruct (unchanged _ _).
  - now destruct (unchanged _ _).
Qed.

Lemma child_put_ne k k' v o : fits k o = true -> k <> k' -> child k' (put k v o) = child k' o.
Proof.
  intros Hf Hne. unfold put. destruct (unchanged _ _); [reflexivity|].
  now apply child_adopt_ne.
Qed.

Lemma stable_put k v : stable (put k v).
Proof.
  intros o. unfold put. destruct (unchanged _ _); [reflexivity|].
  destruct o as [| | | | |[a m] props|[a m] elems]; simpl; try reflexivity;
    try discriminate.
  destruct (keyIndex k); [discriminate | reflexivity].
Qed.

Lemma stable_within k g : stable (within k g).
Proof.
  intros o. unfold within. destruct (child k o) as [c|] eqn:E; [|reflexivity].
  destruct (modified (g c)); [|reflexivity].
  now rewrite modified_adopt by (eapply child_fits; eauto).
Qed.

Lemma stable_withinPath path g : stable g -> stable (withinPath path g).
Proof. intros Hg. destruct path; [exact Hg | apply stable_within]. Qed.

Lemma stable_each g : stable g -> stable (each g).
Proof.
  intros Hg [| | | | |[a m] props|[a m] elems]; simpl; try reflexivity.
  intros H. apply orb_false_iff in H as [Hm H]. subst m. rewrite H. simpl.
  f_equal. clear a. induction elems as [|e elems IH]; simpl in *; [reflexivity|].
  apply orb_false_iff in H as [He H]. rewrite (IH H). f_equal.
  destruct e as [c|]; simpl in *; [|reflexivity]. now rewrite Hg.
Qed.

Lemma child_within_eq k g o : stable g -> child k (within k g o) = g <$> child k o.
Proof.
  intros Hg. unfold within. destruct (child k o) as [c|] eqn:E; [|now rewrite E].
  destruct (modified (g c)) eqn:M.
  - now apply child_adopt_eq with (c := c).
  - rewrite E. simpl. now rewrite Hg.
Qed.

Lemma child_within_ne k k' g o : k <> k' -> child k' (within k g o) = child k' o.
Proof.
  intros Hne. unfold within. destruct (child k o) as [c|] eqn:E; [|reflexivity].
  destruct (modified (g c)); [|reflexivity].
  apply child_adopt_ne; [eapply child_fits; eauto | exact Hne].
Qed.

Lemma child_each g k o : child k (each g o) = match k with
                                               | KIndex _ => g <$> child k o
                                               | KField _ => child k o
                                               end.
Proof.
  destruct k, o as [| | | | |[a m] props|[a m] elems]; simpl; try reflexivity.
  apply slot_map.
Qed.

Lemma at_path_withinPath path g o :
  stable g -> at_path path (withinPath path g o) = g <$> at_path path o.
Proof.
  intros Hg. revert o. induction path as [|k path IH]; intros o; simpl; [reflexivity|].
  rewrite child_within_eq by now apply stable_withinPath.
  destruct (child k o); simpl; [apply IH | reflexivity].
Qed.

Lemma withinPath_app path path' g :
  withinPath (path ++ path') g = withinPath path (withinPath path' g).
Proof. unfold withinPath. now rewrite fold_right_app. Qed.

Lemma at_prefix_withinPath path path' g o :
  stable g ->
  at_path path (withinPath (path ++ path') g o) = withinPath path' g <$> at_path path o.
Proof.
  intros Hg. rewrite withinPath_app. apply at_path_withinPath.
  now apply stable_withinPath.
Qed.

Lemma modified_withinPath path g o n :
  at_path path o = Some n -> modified (g n) = true ->
  modified (withinPath path g o) = true.
Proof.
  revert o. induction path as [|k path IH]; intros o Hn Hm; simpl in *.
  - now injection Hn as ->.
  - unfold within. destruct (child k o) as [c|] eqn:E; [|discriminate].
    simpl in Hn. fold (withinPath path g). rewrite (IH c Hn Hm).
    apply modified_adopt. eapply child_fits; eauto.
Qed.

Lemma withinPath_unmodified path g t n :
  stable g -> at_path path (createDraft t) = Some n -> modified (g n) = false ->
  withinPath path g (createDraft t) = createDraft t.
Proof.
  intros Hg. revert t. induction path as [|k path IH]; intros t Hn Hm.
  - injection Hn as <-. now apply Hg.
  - cbn [at_path] in Hn. rewrite child_createDraft in Hn.
    change (withinPath (k :: path) g) with (within k (withinPath path g)).
    unfold within. rewrite child_createDraft.
    destruct (child k t) as [c|]; [|reflexivity]. cbn in Hn |- *.
    now rewrite (IH c Hn Hm), modified_createDraft.
Qed.

Lemma assoc_In {A} s (props : list (string * A)) (x : A) :
  assoc s props = Some x -> exists s', In (s', x) props.
Proof.
  induction props as [|[s0 v0] props IH]; simpl; [discriminate|].
  destruct (String.eqb s0 s).
  - intros [= ->]. eauto.
  - intros H. destruct (IH H) as [s' Hin]. eauto.
Qed.

Lemma slot_In {A} n (elems : list (option A)) (x : A) :
  slot n elems = Some x -> In (Some x) elems.
Proof.
  unfold slot. intros H. destruct (elems !! n) as [[x'|]|] eqn:E; simpl in H; try discriminate.
  injection H as ->. apply list_elem_of_In. eapply list_elem_of_lookup_2; eauto.
Qed.

Lemma addresses_child k (t x : Value) a :
  child k t = Some x -> In a (addresses x) -> In a (addresses t).
Proof.
  destruct k, t as [| | | | |b props|b elems]; simpl; try discriminate; intros Hc Ha; right.
  - apply assoc_In in Hc as [s' Hin]. apply in_flat_map. exists (s', x). auto.
  - apply slot_In in Hc. apply in_flat_map. exists (Some x). auto.
Qed.

Lemma addresses_at_path path (t n : Value) a :
  at_path path t = Some n -> address n = Some a -> In a (addresses t).
Proof.
  revert t. induction path as [|k path IH]; intros t Hn Ha; simpl in *.
  - injection Hn as ->. destruct n; simpl in *; try discriminate; injection Ha as ->; now left.
  - destruct (child k t) as [x|] eqn:E; [|discriminate]. simpl in Hn.
    eapply addresses_child; eauto.
Qed.

(** When the [set] trap finds the assignment to change nothing, the
    value assigned is a primitive equal to the current one or has the
    address of the current one. *)
Lemma same_createDraft (old v : Value) :
  same (createDraft old) (createDraft v) = true ->
  (address v = None /\ old = v) \/ (exists a, address v = Some a /\ address old = Some a).
Proof.
  destruct old, v; simpl; try discriminate; intros H.
  - now left.
  - now left.
  - left. split; [reflexivity|]. f_equal. now apply Bool.eqb_prop.
  - left. split; [reflexivity|]. f_equal. now apply Z.eqb_eq.
  - left. split; [reflexivity|]. f_equal. now apply String.eqb_eq.
  - right. apply andb_true_iff in H as [H _]. apply Nat.eqb_eq in H as ->. eauto.
  - right. apply andb_true_iff in H as [H _]. apply Nat.eqb_eq in H as ->. eauto.
Qed.

Lemma same_refl (v : Value) : same (createDraft v) (createDraft v) = true.
Proof.
  destruct v; simpl; try reflexivity.
  - apply Bool.eqb_reflx.
  - apply Z.eqb_refl.
  - apply String.eqb_refl.
  - now rewrite Nat.eqb_refl.
  - now rewrite Nat.eqb_refl.
Qed.

Lemma withProp_within k body g o c :
  child k o = Some c -> body c = Ok (g c) -> withProp k body o = Ok (within k g o).
Proof.
  intros Hc Hb. unfold withProp, within. rewrite (getProp_child _ _ _ Hc), Hc.
  cbn. rewrite Hb. cbn. now destruct (modified (g c)).
Qed.

Lemma mapM_visit callback g elems :
  (forall c, In (Some c) elems -> callback c = Ok (g c)) ->
  mapM (visit callback) elems = Ok (List.map (option_map g) elems).
Proof.
  induction elems as [|e elems IH]; intros H; [reflexivity|].
  cbn [mapM List.map]. rewrite IH by (intros c Hc; apply H; now right).
  destruct e as [c|]; cbn; [|reflexivity].
  now rewrite (H c) by now left.
Qed.

Lemma forEach_each callback g a m elems :
  (forall c, In (Some c) elems -> callback c = Ok (g c)) ->
  forEach callback (VArr (a, m) elems) = Ok (each g (VArr (a, m) elems)).
Proof. intros H. unfold forEach. now rewrite (mapM_visit _ g). Qed.

Lemma assignAt_cons k rest v o :
  rest <> [] -> assignAt (k :: rest) v o = withProp k (assignAt rest v) o.
Proof. now destruct rest. Qed.

Lemma assignAt_withinPath pre k v o n :
  at_path pre o = Some n -> fits k n = true ->
  assignAt (pre ++ [k]) v o = Ok (withinPath pre (put k v) o).
Proof.
  revert o. induction pre as [|k' pre IH]; intros o Hn Hf; simpl in Hn.
  - injection Hn as ->. now apply assign_put.
  - destruct (child k' o) as [c|] eqn:E; [|discriminate]. simpl in Hn.
    cbn [app]. rewrite assignAt_cons by now destruct pre.
    apply withProp_within with (c := c); [exact E|]. now apply IH.
Qed.

Lemma at_path_diverges_put pre k v o n q :
  diverges q (pre ++ [k]) -> at_path pre o = Some n -> fits k n = true ->
  at_path q (withinPath pre (put k v) o) = at_path q o.
Proof.
  revert o q. induction pre as [|p pre IH]; intros o [|k' q] Hd Hn Hf; simpl in *;
    try contradiction.
  - injection Hn as ->. destruct Hd as [Hne|[_ Hd]]; [|now destruct q].
    rewrite child_put_ne; auto.
  - destruct (child p o) as [c|] eqn:E; [|discriminate]. simpl in Hn.
    destruct Hd as [Hne|[-> Hd]].
    + rewrite child_within_ne; auto.
    + rewrite child_within_eq by apply stable_withinPath, stable_put.
      rewrite E. simpl. fold (withinPath pre (put k v)). eapply IH; eauto.
Qed.

Lemma at_path_diverges_withinPath path g o q :
  stable g -> diverges q path -> at_path q (withinPath path g o) = at_path q o.
Proof.
  intros Hg. revert o q. induction path as [|p path IH]; intros o [|k' q] Hd; simpl in *;
    try contradiction.
  destruct Hd as [Hne|[-> Hd]].
  - rewrite child_within_ne; auto.
  - rewrite child_within_eq by now apply stable_withinPath.
    destruct (child p o); simpl; [|reflexivity]. now apply IH.
Qed.

Lemma at_path_eachOf s n rest g o :
  stable g ->
  at_path (KField s :: KIndex n :: rest) (eachOf s g o)
  = at_path [KField s; KIndex n] o ≫= (fun c => at_path rest (g c)).
Proof.
  intros Hg. unfold eachOf. cbn [at_path].
  rewrite child_within_eq by now apply stable_each.
  destruct (child (KField s) o) as [arr|]; [|reflexivity].
  change (child (KIndex n) (each g arr) ≫= at_path rest
          = (child (KIndex n) arr ≫= at_path []) ≫= (fun c => at_path rest (g c))).
  rewrite child_each. now destruct (child (KIndex n) arr).
Qed.

Lemma stable_eachOf s g : stable (eachOf s g).
Proof. apply stable_within. Qed.

Lemma stable_pick selected thumbnail : stable (pick selected thumbnail).
Proof.
  intros c. unfold pick. destruct (getProp c _) as [id| |]; try reflexivity.
  destruct (has selected id); [apply stable_put | reflexivity].
Qed.

End DraftFacts.

Section Shapes.

Context {T U : Type} (f : T -> U).

Lemma isObject_tmap (v : node T) : isObject (tmap f v) = isObject v.
Proof. now destruct v. Qed.

Lemma arrayOf_tmap (shape : node T -> bool) (shape' : node U -> bool) (v : node T) :
  (forall c, shape' (tmap f c) = shape c) -> arrayOf shape' (tmap f v) = arrayOf shape v.
Proof.
  intros H. destruct v as [| | | | |t props|t elems]; simpl; try reflexivity.
  induction elems as [|[c|] elems IH]; simpl; [reflexivity| |reflexivity].
  now rewrite H, IH.
Qed.

Lemma hasField_tmap s (shape : node T -> bool) (shape' : node U -> bool) (v : node T) :
  (forall c, shape' (tmap f c) = shape c) -> hasField s shape' (tmap f v) = hasField s shape v.
Proof.
  intros H. destruct v as [| | | | |t props|t elems]; simpl; try reflexivity.
  rewrite (assoc_map (tmap f)). destruct (assoc s props); simpl; [apply H | reflexivity].
Qed.

Lemma isSection_tmap (v : node T) : isSection (tmap f v) = isSection v.
Proof. apply hasField_tmap. intros c. apply arrayOf_tmap, isObject_tmap. Qed.

Lemma isSubject_tmap (v : node T) : isSubject (tmap f v) = isSubject v.
Proof. apply hasField_tmap. intros c. apply arrayOf_tmap, isSection_tmap. Qed.

End Shapes.

Section ShapeFacts.

Context {T : Type}.
Implicit Types (v c : node T) (shape : node T -> bool).

Lemma hasField_child s shape v :
  hasField s shape v = true -> exists c, child (KField s) v = Some c /\ shape c = true.
Proof.
  destruct v as [| | | | |t props|t elems]; simpl; try discriminate.
  destruct (assoc s props) as [c|]; simpl; [eauto | discriminate].
Qed.

Lemma arrayOf_child n shape v c :
  arrayOf shape v = true -> child (KIndex n) v = Some c -> shape c = true.
Proof.
  destruct v as [| | | | |t props|t elems]; simpl; try discriminate.
  intros Hall Hc. apply slot_In in Hc. rewrite forallb_forall in Hall.
  apply (Hall (Some c) Hc).
Qed.

(** The nodes a batch holds on the path of a Content. *)
Lemma isBatch_subject i v subject :
  isBatch v = true -> at_path (subjectPath i) v = Some subject -> isSubject subject = true.
Proof.
  intros Hb Hs. apply hasField_child in Hb as (arr & Harr & Hshape).
  unfold subjectPath in Hs. cbn [at_path] in Hs. rewrite Harr in Hs.
  cbn [mbind option_bind] in Hs.
  destruct (child (KIndex i) arr) as [c|] eqn:E; [|discriminate].
  cbn in Hs. injection Hs as <-. eapply arrayOf_child; eauto.
Qed.

Lemma isSubject_content j k subject c :
  isSubject subject = true ->
  at_path (inSubject j k) subject = Some c ->
  isObject c = true.
Proof.
  intros Hs Hc. apply hasField_child in Hs as (secs & Hsecs & Hshape).
  unfold inSubject in Hc. cbn [at_path] in Hc. rewrite Hsecs in Hc. cbn [mbind option_bind] in Hc.
  destruct (child (KIndex j) secs) as [sec|] eqn:Ej; [|discriminate].
  cbn [mbind option_bind] in Hc.
  apply (arrayOf_child j _ _ _ Hshape) in Ej.
  apply hasField_child in Ej as (arr & Harr & Hshape').
  rewrite Harr in Hc. cbn [mbind option_bind] in Hc.
  destruct (child (KIndex k) arr) as [c'|] eqn:Ek; [|discriminate].
  cbn in Hc. injection Hc as <-. eapply arrayOf_child; eauto.
Qed.

End ShapeFacts.

(** ** Path-addressed update *)

Section NestedChange.

Implicit Types (st : editor) (t old v n : Value) (pre path q : list key) (k : key).

Lemma origin_adopt o k c : origin (adopt o k c) = origin o.
Proof.
  destruct o as [| | | | |[a m] props|[a m] elems]; simpl; try reflexivity.
  now destruct (keyIndex k).
Qed.

Lemma origin_put k d o : origin (put k d o) = origin o.
Proof. unfold put. destruct (unchanged _ _); [reflexivity | apply origin_adopt]. Qed.

Lemma origin_within k g o : origin (within k g o) = origin o.
Proof.
  unfold within. destruct (child k o); [|reflexivity].
  destruct (modified _); [apply origin_adopt | reflexivity].
Qed.

Lemma origin_withinPath path k d o : origin (withinPath path (put k d) o) = origin o.
Proof. destruct path; [apply origin_put | apply origin_within]. Qed.

Lemma origin_createDraft t : origin (createDraft t) = address t.
Proof. now destruct t. Qed.

Lemma address_finalize next d :
  address (finalize next d) = (fun a => if modified d then next + a else a)%nat <$> origin d.
Proof. now destruct d as [| | | | |[a m] props|[a m] elems]. Qed.

Lemma fits_address k t : fits k t = true -> exists a, address t = Some a.
Proof. destruct k, t; simpl; try discriminate; eauto. Qed.

Lemma handleNestedChange_run path v st d :
  nestedChange path v (createDraft (batchData st)) = Ok d ->
  handleNestedChange path v st
  = Ok {| batchData := finalize (heapNext st) d;
          heapNext := if modified d then heapNext st + heapNext st else heapNext st;
          selectedContents := selectedContents st;
          bulkThumbnailUrl := bulkThumbnailUrl st;
          showBulkThumbnail := showBulkThumbnail st |}.
Proof. intros H. unfold handleNestedChange, setBatchData, produce. now rewrite H. Qed.

Lemma nestedChange_plain pre k v t n :
  subjectThumbnailPath (pre ++ [k]) = None ->
  at_path pre t = Some n -> fits k n = true ->
  nestedChange (pre ++ [k]) v (createDraft t)
  = Ok (withinPath pre (put k (createDraft v)) (createDraft t)).
Proof.
  intros Hc Hn Hf. unfold nestedChange.
  rewrite (assignAt_withinPath pre k _ _ (createDraft n)).
  - cbn. now rewrite Hc.
  - now rewrite at_path_createDraft, Hn.
  - now rewrite fits_createDraft.
Qed.

Lemma at_path_snoc pre k t x :
  at_path (pre ++ [k]) t = Some x ->
  exists n, at_path pre t = Some n /\ child k n = Some x.
Proof.
  rewrite at_path_app. destruct (at_path pre t) as [n|]; [|discriminate].
  cbn. destruct (child k n) as [c|] eqn:E; [|discriminate]. cbn. intros [= <-]. eauto.
Qed.

Lemma child_put_eq k d o :
  fits k o = true ->
  (unchanged (child k o) d = true -> child k o = Some d) ->
  child k (put k d o) = Some d.
Proof.
  intros Hf Hu. unfold put. destruct (unchanged _ _) eqn:U; [now apply Hu|].
  destruct k, o as [| | | | |[a m] props|[a m] elems]; simpl in *; try discriminate.
  - apply assoc_store_eq.
  - apply slot_storeAt_eq.
Qed.

Lemma same_foreign t path old v :
  at_path path t = Some old -> foreign t v ->
  same (createDraft old) (createDraft v) = true -> old = v.
Proof.
  intros Hold Hv Hs. apply same_createDraft in Hs as [[_ ->]|(a & Ha & Ha')];
    [reflexivity|].
  exfalso. apply (Hv a Ha). eapply addresses_at_path; eauto.
Qed.

Lemma proper_prefix_snoc {A} (xs ys pre : list A) (k : A) :
  xs ++ ys = pre ++ [k] -> ys <> [] -> exists ys', ys = ys' ++ [k] /\ pre = xs ++ ys'.
Proof.
  intros H Hys. destruct (exists_last Hys) as (ys' & y & ->).
  rewrite app_assoc in H. apply app_inj_tail in H as [<- ->]. eauto.
Qed.

(** C2, as stated, fails in three ways.  A Subject's thumbnail path
    also rewrites the Contents of the Subject, which are not on the
    path; an update to the value a node already has copies no ancestor;
    and the empty path, which reaches the root, leaves the root in place
    and gives it a field called [undefined]. *)
Lemma handleNestedChange_no_frame :
  let thumbnail := [KField "subjects"; KIndex 0; KField "thumbnail"] in
  let contents := [KField "subjects"; KIndex 0; KField "sections"] in
  (exists st',
     handleNestedChange thumbnail (VStr "z") exampleEditor = Ok st' /\
     is_Some (at_path thumbnail exampleBatch) /\
     diverges contents thumbnail /\
     at_path contents (batchData st') <> at_path contents exampleBatch) /\
  (exists st',
     handleNestedChange [KField "name"] (VStr "B") exampleEditor = Ok st' /\
     address (batchData st') = address exampleBatch) /\
  (exists st',
     handleNestedChange [] (VStr "B") exampleEditor = Ok st' /\
     at_path [] (batchData st') <> Some (VStr "B")).
Proof.
  repeat split.
  - eexists. split; [vm_compute; reflexivity|]. split; [now eexists|].
    split; [right; split; [reflexivity|]; right; split; [reflexivity|]; left; discriminate|].
    vm_compute. discriminate.
  - eexists. split; [vm_compute; reflexivity|]. reflexivity.
  - eexists. split; [vm_compute; reflexivity|]. vm_compute. discriminate.
Qed.

(** C2, amended.  Let [pre ++ [k]] be a path that reaches a node [old]
    of the tree and is not the thumbnail path of a Subject, and let [v]
    be a primitive or an object that the tree does not hold.  The update
    succeeds; then the path reaches [v]; every path that parts from it
    reaches what it reached before, the same objects at the same
    addresses; when [v] differs from [old], every node strictly above
    the end of the path is an object at an address the old tree does not
    use; and when [v] is [old], the tree is the old tree. *)
Theorem handleNestedChange_frame st pre k old v :
  at_path (pre ++ [k]) (batchData st) = Some old ->
  subjectThumbnailPath (pre ++ [k]) = None ->
  foreign (batchData st) v ->
  allocated st ->
  exists st',
    handleNestedChange (pre ++ [k]) v st = Ok st' /\
    at_path (pre ++ [k]) (batchData st') = Some v /\
    (forall q, diverges q (pre ++ [k]) ->
       at_path q (batchData st') = at_path q (batchData st)) /\
    (old <> v ->
     forall above below, pre ++ [k] = above ++ below -> below <> [] ->
       exists x a, at_path above (batchData st') = Some x /\
                   address x = Some a /\ ~ In a (addresses (batchData st))) /\
    (old = v -> batchData st' = batchData st).
Proof.
  intros Hold Hplain Hv Halloc.
  destruct (at_path_snoc _ _ _ _ Hold) as (n & Hn & Hk).
  assert (fits k n = true) as Hf by (eapply child_fits; eauto).
  set (t := batchData st) in *. set (next := heapNext st) in *.
  set (d := withinPath pre (put k (createDraft v)) (createDraft t)).
  assert (at_path pre (createDraft t) = Some (createDraft n)) as Hn'
    by now rewrite at_path_createDraft, Hn.
  assert (child k (createDraft n) = Some (createDraft old)) as Hk'
    by now rewrite child_createDraft, Hk.
  assert (unchanged (child k (createDraft n)) (createDraft v) = true -> old = v) as Hsame.
  { rewrite Hk'. cbn. now apply same_foreign with (t := t) (path := pre ++ [k]). }
  eexists. split.
  { apply handleNestedChange_run. fold t. now apply nestedChange_plain with (n := n). }
  cbn [batchData]. fold t next d. split; [|split; [|split]].
  - rewrite at_path_finalize, at_path_app. unfold d.
    rewrite at_path_withinPath by apply stable_put. rewrite Hn'. cbn.
    rewrite child_put_eq.
    + cbn. now rewrite finalize_createDraft.
    + now rewrite fits_createDraft.
    + intros Hu. rewrite Hk'. now rewrite (Hsame Hu).
  - intros q Hq. rewrite at_path_finalize. unfold d.
    rewrite (at_path_diverges_put pre k _ _ (createDraft n)); auto.
    + rewrite at_path_createDraft. destruct (at_path q t); cbn; [|reflexivity].
      now rewrite finalize_createDraft.
    + now rewrite fits_createDraft.
  - intros Hne above below Hsplit Hbelow.
    destruct (proper_prefix_snoc above below pre k (eq_sym Hsplit) Hbelow)
      as (below' & -> & Hpre).
    assert (exists x0, at_path above t = Some x0 /\ at_path below' x0 = Some n)
      as (x0 & Hx0 & Hx0n).
    { rewrite Hpre, at_path_app in Hn. destruct (at_path above t) as [x0|]; [|discriminate].
      eauto. }
    assert (exists a0, address x0 = Some a0) as [a0 Ha0].
    { destruct below' as [|k0 below'].
      - cbn in Hx0n. injection Hx0n as ->. eapply fits_address; eauto.
      - cbn in Hx0n. destruct (child k0 x0) eqn:E; [|discriminate].
        eapply fits_address, child_fits; eauto. }
    set (x := withinPath below' (put k (createDraft v)) (createDraft x0)).
    assert (modified x = true) as Hmod.
    { apply modified_withinPath with (n := createDraft n).
      - now rewrite at_path_createDraft, Hx0n.
      - unfold put. destruct (unchanged _ _) eqn:U; [now destruct Hne; apply Hsame|].
        apply modified_adopt. now rewrite fits_createDraft. }
    exists (finalize next x), (next + a0)%nat. split; [|split].
    + rewrite at_path_finalize. unfold d. rewrite Hpre.
      rewrite at_prefix_withinPath by apply stable_put.
      now rewrite at_path_createDraft, Hx0.
    + rewrite address_finalize. unfold x.
      rewrite origin_withinPath, origin_createDraft, Ha0. cbn. fold x. now rewrite Hmod.
    + intros Hin. unfold allocated in Halloc. rewrite List.Forall_forall in Halloc.
      apply Halloc in Hin. fold next in Hin. lia.
  - intros ->. unfold d.
    rewrite (withinPath_unmodified pre _ t (createDraft n)); auto using stable_put.
    + apply finalize_createDraft.
    + unfold put. rewrite Hk'. cbn. rewrite same_refl. apply modified_createDraft.
Qed.

Lemma handleNestedChange_frame_witness :
  let path := [KField "subjects"; KIndex 0; KField "sections"; KIndex 0] in
  at_path (path ++ [KField "name"]) exampleBatch = Some (VStr "Lectures") /\
  exists st',
    handleNestedChange (path ++ [KField "name"]) (VStr "Algebra") exampleEditor = Ok st' /\
    at_path (path ++ [KField "name"]) (batchData st') = Some (VStr "Algebra").
Proof.
  split; [reflexivity|].
  destruct (handleNestedChange_frame exampleEditor
              [KField "subjects"; KIndex 0; KField "sections"; KIndex 0] (KField "name")
              (VStr "Lectures") (VStr "Algebra")) as (st' & Hrun & Hat & _).
  - reflexivity.
  - reflexivity.
  - intros a Ha. discriminate Ha.
  - unfold allocated. simpl. repeat constructor.
  - exists st'. split; [exact Hrun | exact Hat].
Defined.

Lemma assignAt_undefined path d : path <> [] -> assignAt path d VUndef = Throw TypeError.
Proof. destruct path as [|k [|k' path]]; [congruence | reflexivity | reflexivity]. Qed.

Lemma assignAt_raises pre rest (d o x : Draft) e :
  rest <> [] -> at_path pre o = Some x -> assignAt rest d x = Throw e ->
  assignAt (pre ++ rest) d o = Throw e.
Proof.
  intros Hrest. revert o. induction pre as [|k' pre IH]; intros o Hx Hr; simpl in Hx.
  - now injection Hx as ->.
  - destruct (child k' o) as [c|] eqn:E; [|discriminate]. simpl in Hx.
    cbn [app]. rewrite assignAt_cons by (destruct pre, rest; cbn; congruence).
    unfold withProp. rewrite (getProp_child _ _ _ E). cbn. now rewrite (IH c).
Qed.

Lemma assignAt_missing k rest (d x : Draft) :
  rest <> [] -> getProp x k = Ok VUndef \/ getProp x k = Throw TypeError ->
  assignAt (k :: rest) d x = Throw TypeError.
Proof.
  intros Hrest Hk. rewrite assignAt_cons by exact Hrest. unfold withProp.
  destruct Hk as [-> | ->]; cbn; [now rewrite assignAt_undefined | reflexivity].
Qed.

Lemma assign_primitive k (d : Draft) (x : Value) :
  address x = None -> assign (createDraft x) k d = Throw TypeError.
Proof. destruct x; simpl; try reflexivity; discriminate. Qed.

(** C3, as stated, fails for a field that the object reached does not
    have: the update succeeds and the tree gains the field. *)
Lemma handleNestedChange_creates_field :
  at_path [KField "subtitle"] exampleBatch = None /\
  exists st',
    handleNestedChange [KField "subtitle"] (VStr "x") exampleEditor = Ok st' /\
    at_path [KField "subtitle"] (batchData st') = Some (VStr "x").
Proof. split; [reflexivity|]. eexists. split; vm_compute; reflexivity. Qed.

End NestedChange.

(** ** Thumbnail cascade *)

Section Cascade.

Implicit Types (st : editor) (t V : Value) (d o : Draft).

Lemma forEach_array callback g (shape : Draft -> bool) d :
  arrayOf shape d = true ->
  (forall c, shape c = true -> callback c = Ok (g c)) ->
  forEach callback d = Ok (each g d).
Proof.
  destruct d as [| | | | |[a m] props|[a m] elems]; simpl; try discriminate.
  intros Hall H. apply forEach_each. intros c Hc. apply H.
  rewrite forallb_forall in Hall. apply (Hall (Some c) Hc).
Qed.

Lemma isObject_fits {T} s (x : node T) : isObject x = true -> fits (KField s) x = true.
Proof. now destruct x. Qed.

Lemma withProp_eachOf s callback g (shape : Draft -> bool) o :
  hasField s (arrayOf shape) o = true ->
  (forall c, shape c = true -> callback c = Ok (g c)) ->
  withProp (KField s) (forEach callback) o = Ok (eachOf s g o).
Proof.
  intros Ho H. apply hasField_child in Ho as (arr & Harr & Hshape).
  apply withProp_within with (c := arr); [exact Harr|].
  now apply forEach_array with (shape := shape).
Qed.

Lemma cascade_section d (c : Draft) :
  isSection c = true ->
  withProp (KField "contents")
    (forEach (fun content => assign content (KField "thumbnail") d)) c
  = Ok (eachOf "contents" (setThumbnail d) c).
Proof.
  intros Hc. apply withProp_eachOf with (shape := isContent); [exact Hc|].
  intros content Hcontent. apply assign_put. now apply isObject_fits.
Qed.

Lemma cascade_run i d o subjects subject :
  child (KField "subjects") o = Some subjects ->
  child (KIndex i) subjects = Some subject ->
  isSubject subject = true ->
  cascade (KIndex i) d o
  = Ok (withinPath (subjectPath i) (eachOf "sections" (eachOf "contents" (setThumbnail d))) o).
Proof.
  intros Hsubjects Hsubject Hshape. unfold cascade.
  apply withProp_within with (c := subjects); [exact Hsubjects|].
  apply withProp_within with (c := subject); [exact Hsubject|].
  apply withProp_eachOf with (shape := isSection); [exact Hshape|].
  apply cascade_section.
Qed.

Lemma at_path_contents j k g subject :
  stable g ->
  at_path (inSubject j k) (eachOf "sections" (eachOf "contents" g) subject)
  = g <$> at_path (inSubject j k) subject.
Proof.
  intros Hg. unfold inSubject.
  rewrite (at_path_eachOf "sections" j [KField "contents"; KIndex k])
    by apply stable_eachOf.
  change [KField "sections"; KIndex j; KField "contents"; KIndex k]
    with ([KField "sections"; KIndex j] ++ [KField "contents"; KIndex k]).
  rewrite at_path_app.
  destruct (at_path [KField "sections"; KIndex j] subject) as [sec|]; [|reflexivity].
  cbn [mbind option_bind].
  rewrite (at_path_eachOf "contents" k []) by exact Hg.
  now destruct (at_path [KField "contents"; KIndex k] sec).
Qed.

Lemma child_finalize next k d : child k (finalize next d) = finalize next <$> child k d.
Proof. apply child_tmap. Qed.

Lemma at_path_snoc_child path k (t x y : Value) :
  at_path path t = Some x -> child k x = Some y -> at_path (path ++ [k]) t = Some y.
Proof. intros Hx Hy. rewrite at_path_app, Hx. cbn. now rewrite Hy. Qed.

Lemma setThumbnail_child path t x V :
  at_path path t = Some x -> isObject x = true -> foreign t V ->
  child (KField "thumbnail") (setThumbnail (createDraft V) (createDraft x))
  = Some (createDraft V).
Proof.
  intros Hx Hobj HV. unfold setThumbnail. rewrite child_put_eq.
  - reflexivity.
  - rewrite fits_createDraft. now apply isObject_fits.
  - rewrite child_createDraft.
    destruct (child (KField "thumbnail") x) as [cur|] eqn:E; [|discriminate].
    cbn. intros Hs. f_equal. f_equal.
    eapply same_foreign; eauto using at_path_snoc_child.
Qed.

(** The node the assignment of [V] to the thumbnail of the node [x] at
    [path] leaves: its thumbnail is [V], its other fields are those of
    [x]. *)
Lemma setThumbnail_object next path t x V :
  at_path path t = Some x -> isObject x = true -> foreign t V ->
  child (KField "thumbnail")
    (finalize next (setThumbnail (createDraft V) (createDraft x))) = Some V /\
  (forall f, f <> "thumbnail" ->
     child (KField f) (finalize next (setThumbnail (createDraft V) (createDraft x)))
     = child (KField f) x).
Proof.
  intros Hx Hobj HV. split.
  - rewrite child_finalize, (setThumbnail_child path t x V) by assumption.
    cbn. now rewrite finalize_createDraft.
  - intros f Hf. rewrite child_finalize. unfold setThumbnail.
    rewrite child_put_ne.
    + rewrite child_createDraft. destruct (child (KField f) x); cbn; [|reflexivity].
      now rewrite finalize_createDraft.
    + rewrite fits_createDraft. now apply isObject_fits.
    + congruence.
Qed.

Lemma isSubject_object {T} (v : node T) : isSubject v = true -> isObject v = true.
Proof. now destruct v. Qed.

(** C1. On a batch tree with a Subject at index [i], the update of the
    path [subjects, i, thumbnail] to [V] (a primitive, or an object the
    tree does not hold) succeeds; afterwards the thumbnail of the
    Subject is [V]; every Content of every Section of the Subject is in
    its place with thumbnail [V] and its other fields as before; and
    every other Subject, with all its Contents, is the object it was. *)
Theorem handleNestedChange_cascade st i V subject :
  isBatch (batchData st) = true ->
  at_path (subjectPath i) (batchData st) = Some subject ->
  foreign (batchData st) V ->
  exists st',
    handleNestedChange (subjectPath i ++ [KField "thumbnail"]) V st = Ok st' /\
    at_path (subjectPath i ++ [KField "thumbnail"]) (batchData st') = Some V /\
    (forall j k c,
       at_path (contentPath i j k) (batchData st) = Some c ->
       exists c',
         at_path (contentPath i j k) (batchData st') = Some c' /\
         child (KField "thumbnail") c' = Some V /\
         forall f, f <> "thumbnail" -> child (KField f) c' = child (KField f) c) /\
    (forall j k c',
       at_path (contentPath i j k) (batchData st') = Some c' ->
       child (KField "thumbnail") c' = Some V) /\
    (forall i', i' <> i ->
       at_path (subjectPath i') (batchData st') = at_path (subjectPath i') (batchData st)).
Proof.
  intros Hbatch Hsubject HV.
  set (t := batchData st) in *. set (next := heapNext st).
  set (dV := createDraft V).
  pose proof (isBatch_subject i t subject Hbatch Hsubject) as Hshape.
  set (g := eachOf "sections" (eachOf "contents" (setThumbnail dV))).
  set (d1 := withinPath (subjectPath i) (setThumbnail dV) (createDraft t)).
  set (d2 := withinPath (subjectPath i) g d1).
  assert (stable g) as Hg by apply stable_eachOf.
  assert (stable (setThumbnail dV)) as Hset by apply stable_put.
  assert (at_path (subjectPath i) d1 = Some (setThumbnail dV (createDraft subject))) as Hd1.
  { unfold d1. rewrite at_path_withinPath by exact Hset.
    now rewrite at_path_createDraft, Hsubject. }
  assert (isSubject (setThumbnail dV (createDraft subject)) = true) as Hshape1.
  { unfold isSubject, hasField in *. unfold setThumbnail, put.
    destruct subject as [| | | | |a props|a elems]; try discriminate.
    cbn [createDraft tmap child].
    destruct (unchanged _ _).
    - cbn. rewrite (assoc_map (tmap (fun a => (a, false)))).
      destruct (assoc "sections" props) as [secs|]; [|discriminate]. cbn.
      erewrite arrayOf_tmap; [exact Hshape|]. intros c. apply isSection_tmap.
    - cbn. rewrite assoc_store_ne by discriminate.
      rewrite (assoc_map (tmap (fun a => (a, false)))).
      destruct (assoc "sections" props) as [secs|]; [|discriminate]. cbn.
      erewrite arrayOf_tmap; [exact Hshape|]. intros c. apply isSection_tmap. }
  assert (nestedChange (subjectPath i ++ [KField "thumbnail"]) V (createDraft t) = Ok d2)
    as Hrun.
  { unfold nestedChange.
    rewrite (assignAt_withinPath (subjectPath i) _ _ _ (createDraft subject)).
    - change (cascade (KIndex i) dV d1 = Ok d2).
      unfold subjectPath in Hd1. cbn [at_path] in Hd1.
      destruct (child (KField "subjects") d1) as [subjects|] eqn:E1; [|discriminate].
      cbn [mbind option_bind] in Hd1.
      destruct (child (KIndex i) subjects) as [subject1|] eqn:E2; [|discriminate].
      cbn in Hd1. injection Hd1 as ->.
      now apply cascade_run with (subjects := subjects)
                                 (subject := setThumbnail dV (createDraft subject)).
    - now rewrite at_path_createDraft, Hsubject.
    - rewrite fits_createDraft. now apply isObject_fits, isSubject_object. }
  assert (forall j k,
            at_path (contentPath i j k) (finalize next d2)
            = (fun c => finalize next (setThumbnail dV (createDraft c)))
                <$> at_path (contentPath i j k) t) as Hcontents.
  { intros j k. unfold contentPath. fold (inSubject j k).
    rewrite at_path_finalize, !at_path_app, Hsubject. unfold d2.
    rewrite at_path_withinPath by exact Hg. rewrite Hd1. cbn [fmap option_fmap option_map mbind option_bind].
    unfold g. rewrite at_path_contents by exact Hset.
    assert (at_path (inSubject j k) (setThumbnail dV (createDraft subject))
            = at_path (inSubject j k) (createDraft subject)) as ->.
    { unfold inSubject. cbn [at_path]. unfold setThumbnail.
      rewrite child_put_ne; [reflexivity | | discriminate].
      rewrite fits_createDraft. now apply isObject_fits, isSubject_object. }
    rewrite at_path_createDraft. now destruct (at_path (inSubject j k) subject). }
  eexists. split; [apply handleNestedChange_run; exact Hrun|].
  cbn [batchData]. fold t next. split; [|split; [|split]].
  - rewrite at_path_finalize, at_path_app. unfold d2.
    rewrite at_path_withinPath by exact Hg. rewrite Hd1.
    cbn [fmap option_fmap option_map mbind option_bind at_path].
    unfold g, eachOf. rewrite child_within_ne by discriminate. unfold dV.
    rewrite (setThumbnail_child (subjectPath i) t subject V)
      by auto using isSubject_object.
    cbn. now rewrite finalize_createDraft.
  - intros j k c Hc. rewrite Hcontents, Hc. eexists. split; [reflexivity|].
    apply (setThumbnail_object next (contentPath i j k) t c V Hc); [|exact HV].
    unfold contentPath in Hc. rewrite at_path_app, Hsubject in Hc.
    now apply (isSubject_content j k subject c Hshape).
  - intros j k c' Hc'. rewrite Hcontents in Hc'.
    destruct (at_path (contentPath i j k) t) as [c|] eqn:Hc; [|discriminate].
    injection Hc' as <-.
    apply (setThumbnail_object next (contentPath i j k) t c V Hc); [|exact HV].
    unfold contentPath in Hc. rewrite at_path_app, Hsubject in Hc.
    now apply (isSubject_content j k subject c Hshape).
  - intros i' Hi'. rewrite at_path_finalize. unfold d2, d1.
    assert (diverges (subjectPath i') (subjectPath i)) as Hdiv.
    { right. split; [reflexivity|]. left. congruence. }
    rewrite !at_path_diverges_withinPath by assumption.
    rewrite at_path_createDraft. destruct (at_path (subjectPath i') t); cbn; [|reflexivity].
    now rewrite finalize_createDraft.
Qed.

Lemma handleNestedChange_cascade_witness :
  exists st',
    handleNestedChange (subjectPath 0 ++ [KField "thumbnail"]) (VStr "z") exampleEditor
    = Ok st' /\
    exists c',
      at_path (contentPath 0 0 1) (batchData st') = Some c' /\
      child (KField "thumbnail") c' = Some (VStr "z").
Proof.
  destruct (handleNestedChange_cascade exampleEditor 0 (VStr "z")
              (exampleSubject 2 "s1" "S1"
                 [exampleContent 6 "c1" "x"; exampleContent 7 "c2" "y"]))
    as (st' & Hrun & _ & Hall & _).
  - reflexivity.
  - reflexivity.
  - intros a Ha. discriminate Ha.
  - exists st'. split; [exact Hrun|].
    destruct (Hall 0%nat 1%nat (exampleContent 7 "c2" "y") eq_refl) as (c' & Hc' & Ht & _).
    exists c'. split; [exact Hc' | exact Ht].
Defined.

End Cascade.

(** ** Bulk apply *)

Section BulkApply.

Implicit Types (st : editor) (t : Value) (d o : Draft) (selected : gset string).

Lemma pick_callback selected thumbnail (content : Draft) :
  isContent content = true ->
  (id ← getProp content (KField "id");
   if has selected id
   then assign content (KField "thumbnail") (VStr thumbnail)
   else Ok content)
  = Ok (pick selected thumbnail content).
Proof.
  intros Hc. unfold pick.
  destruct content as [| | | | |[a m] props|[a m] elems]; try discriminate.
  rewrite getProp_own by reflexivity.
  cbn [mbind outcome_bind]. destruct (has selected _); [|reflexivity].
  now apply assign_put.
Qed.

Lemma bulkThumbnail_run selected thumbnail o :
  isBatch o = true ->
  bulkThumbnail selected thumbnail o
  = Ok (eachOf "subjects"
          (eachOf "sections" (eachOf "contents" (pick selected thumbnail))) o).
Proof.
  intros Ho. unfold bulkThumbnail.
  apply withProp_eachOf with (shape := isSubject); [exact Ho|]. intros subject Hsubject.
  apply withProp_eachOf with (shape := isSection); [exact Hsubject|]. intros section Hsection.
  apply withProp_eachOf with (shape := isContent); [exact Hsection|].
  apply pick_callback.
Qed.

Lemma pick_createDraft selected thumbnail (c : Value) :
  isObject c = true ->
  pick selected thumbnail (createDraft c)
  = if isSelected selected c
    then setThumbnail (createDraft (VStr thumbnail)) (createDraft c)
    else createDraft c.
Proof.
  destruct c as [| | | | |a props|a elems]; try discriminate. intros _.
  unfold pick, isSelected. cbn [createDraft tmap getProp child keyName].
  rewrite (assoc_map (tmap (fun a => (a, false)))).
  destruct (assoc "id" props) as [[]|]; reflexivity.
Qed.

Lemma at_path_bulk i j k g o :
  stable g ->
  at_path (contentPath i j k) (eachOf "subjects" (eachOf "sections" (eachOf "contents" g)) o)
  = g <$> at_path (contentPath i j k) o.
Proof.
  intros Hg. unfold contentPath, subjectPath. cbn [app]. fold (inSubject j k).
  rewrite (at_path_eachOf "subjects" i (inSubject j k)) by apply stable_eachOf.
  change (KField "subjects" :: KIndex i :: inSubject j k)
    with ([KField "subjects"; KIndex i] ++ inSubject j k).
  rewrite at_path_app.
  destruct (at_path [KField "subjects"; KIndex i] o) as [subject|]; [|reflexivity].
  cbn [mbind option_bind]. now apply at_path_contents.
Qed.

Lemma applyBulkThumbnail_guard st :
  falsy (trim (bulkThumbnailUrl st)) || (size (selectedContents st) =? 0)%nat
  = blank (bulkThumbnailUrl st) || bool_decide (selectedContents st = ∅).
Proof.
  f_equal.
  - unfold falsy. destruct (blank _) eqn:B.
    + apply trim_empty in B. now rewrite B.
    + apply String.eqb_neq. rewrite trim_empty. congruence.
  - destruct (Nat.eqb_spec (size (selectedContents st)) 0) as [E|E].
    + apply size_empty_iff in E. apply leibniz_equiv in E.
      now rewrite bool_decide_eq_true_2.
    + rewrite bool_decide_eq_false_2; [reflexivity|].
      intros E'. rewrite E' in E. now rewrite size_empty in E.
Qed.

(** C5, as stated, fails for a value with white space around it: the
    thumbnails are overwritten with the trimmed value, not with the
    value applied. *)
Lemma applyBulkThumbnail_trims :
  exists st' message,
    applyBulkThumbnail exampleEditor = Ok (st', toast_success message) /\
    isSelected (selectedContents exampleEditor) (exampleContent 6 "c1" "x") = true /\
    at_path (contentPath 0 0 0 ++ [KField "thumbnail"]) (batchData st') = Some (VStr "T") /\
    VStr "T" <> VStr (bulkThumbnailUrl exampleEditor) :> Value.
Proof.
  eexists _, _. split; [vm_compute; reflexivity|].
  split; [reflexivity|]. split; [reflexivity | discriminate].
Qed.

(** C5, amended.  On a batch tree, bulk apply with an empty selection or
    a blank value reports the validation failure and leaves the whole
    state as it is.  Otherwise it succeeds and clears the selection; a
    Content whose id is in the selection is in its place with the
    trimmed value as thumbnail and its other fields as before; every
    other Content is the object it was; and no Content appears. *)
Theorem applyBulkThumbnail_selected st :
  isBatch (batchData st) = true ->
  (selectedContents st = ∅ \/ blank (bulkThumbnailUrl st) = true ->
     applyBulkThumbnail st
     = Ok (st, toast_error "Please enter a thumbnail URL and select content items")) /\
  (selectedContents st <> ∅ -> blank (bulkThumbnailUrl st) = false ->
     exists st' message,
       applyBulkThumbnail st = Ok (st', toast_success message) /\
       selectedContents st' = ∅ /\
       (forall i j k c,
          at_path (contentPath i j k) (batchData st) = Some c ->
          exists c',
            at_path (contentPath i j k) (batchData st') = Some c' /\
            if isSelected (selectedContents st) c
            then child (KField "thumbnail") c' = Some (VStr (trim (bulkThumbnailUrl st))) /\
                 forall f, f <> "thumbnail" -> child (KField f) c' = child (KField f) c
            else c' = c) /\
       (forall i j k,
          at_path (contentPath i j k) (batchData st) = None ->
          at_path (contentPath i j k) (batchData st') = None)).
Proof.
  intros Hbatch. split.
  - intros H. unfold applyBulkThumbnail. rewrite applyBulkThumbnail_guard.
    destruct H as [-> | ->]; [|reflexivity].
    now rewrite bool_decide_eq_true_2, orb_true_r.
  - intros Hsel Hblank. unfold applyBulkThumbnail. rewrite applyBulkThumbnail_guard.
    rewrite Hblank, bool_decide_eq_false_2 by exact Hsel. cbn [orb].
    set (selected := selectedContents st). set (thumbnail := trim (bulkThumbnailUrl st)).
    set (t := batchData st) in *. set (next := heapNext st).
    set (g := pick selected thumbnail).
    set (d := eachOf "subjects" (eachOf "sections" (eachOf "contents" g)) (createDraft t)).
    assert (bulkThumbnail selected thumbnail (createDraft t) = Ok d) as Hrun.
    { apply bulkThumbnail_run. unfold createDraft, isBatch.
      erewrite hasField_tmap; [exact Hbatch|]. intros c.
      apply arrayOf_tmap. intros c'. apply isSubject_tmap. }
    unfold setBatchData, produce. fold t next. rewrite Hrun.
    cbn [mbind outcome_bind batchData heapNext].
    eexists _, _. split; [reflexivity|]. cbn [selectedContents batchData].
    split; [reflexivity|].
    assert (forall i j k,
              at_path (contentPath i j k) (finalize next d)
              = (fun c => finalize next (g (createDraft c)))
                  <$> at_path (contentPath i j k) t) as Hcontents.
    { intros i j k. rewrite at_path_finalize. unfold d.
      rewrite at_path_bulk by apply stable_pick.
      rewrite at_path_createDraft. now destruct (at_path (contentPath i j k) t). }
    split.
    + intros i j k c Hc. rewrite Hcontents, Hc. eexists. split; [reflexivity|].
      assert (isObject c = true) as Hobj.
      { unfold contentPath in Hc. rewrite at_path_app in Hc.
        destruct (at_path (subjectPath i) t) as [subject|] eqn:Hs; [|discriminate].
        eapply isSubject_content; [eapply isBatch_subject|]; eauto. }
      unfold g. rewrite pick_createDraft by exact Hobj.
      destruct (isSelected selected c).
      * apply (setThumbnail_object next (contentPath i j k) t c (VStr thumbnail) Hc Hobj).
        intros a Ha. discriminate Ha.
      * apply finalize_createDraft.
    + intros i j k Hc. now rewrite Hcontents, Hc.
Qed.

Lemma applyBulkThumbnail_selected_witness :
  exists st' message,
    applyBulkThumbnail exampleEditor = Ok (st', toast_success message) /\
    selectedContents st' = ∅ /\
    exists c',
      at_path (contentPath 1 0 0) (batchData st') = Some c' /\
      child (KField "thumbnail") c' = Some (VStr "T").
Proof.
  destruct (applyBulkThumbnail_selected exampleEditor eq_refl) as [_ Happly].
  destruct Happly as (st' & message & Hrun & Hclear & Hall & _).
  - intros E. apply (f_equal size) in E. vm_compute in E. discriminate E.
  - reflexivity.
  - exists st', message. split; [exact Hrun|]. split; [exact Hclear|].
    destruct (Hall 1%nat 0%nat 0%nat (exampleContent 12 "c3" "x") eq_refl) as (c' & Hc' & Hsel).
    exists c'. split; [exact Hc'|]. apply Hsel.
Defined.

End BulkApply.

Section Coding.

Lemma code_bound (c : ascii) : (code c < 256)%N.
Proof. apply N_ascii_bounded. Qed.

Lemma ascii_code (c : ascii) : ascii_of_N (code c) = c.
Proof. apply ascii_N_embedding. Qed.

Lemma hexValue_hexDigit (n : N) : (n < 16)%N -> hexValue (hexDigit n) = Some n.
Proof.
  intros H. destruct n as [|p]; [reflexivity|].
  do 4 (destruct p as [p|p|]; try reflexivity; try (exfalso; lia)).
Qed.

Lemma hexDigit_unreserved (n : N) : (n < 16)%N -> uriUnreserved (hexDigit n) = true.
Proof.
  intros H. destruct n as [|p]; [reflexivity|].
  do 4 (destruct p as [p|p|]; try reflexivity; try (exfalso; lia)).
Qed.

Lemma chars_append P (a b : string) : chars P (a +:+ b) = chars P a && chars P b.
Proof. induction a as [|c a IH]; simpl; [reflexivity | now rewrite IH, andb_assoc]. Qed.

Lemma chars_impl (P Q : ascii -> bool) (s : string) :
  (forall c, P c = true -> Q c = true) -> chars P s = true -> chars Q s = true.
Proof.
  intros H. induction s as [|c s IH]; simpl; [reflexivity|].
  intros [Hc Hs]%andb_true_iff. now rewrite (H c Hc), IH.
Qed.

Lemma percent_split (b : N) (r : string) :
  percent b +:+ r = String "%" (String (hexDigit (b / 16)) (String (hexDigit (b mod 16)) r)).
Proof. reflexivity. Qed.

Lemma escapeAt_percent (b : N) (r : string) :
  (b < 256)%N -> escapeAt (percent b +:+ r) = Some (b, r).
Proof.
  intros H. rewrite percent_split. cbn [escapeAt].
  rewrite !hexValue_hexDigit.
  - do 2 f_equal. rewrite (N.div_mod b 16) at 3 by lia. reflexivity.
  - apply N.mod_lt. lia.
  - apply N.Div0.div_lt_upper_bound. lia.
Qed.


Lemma tokens_percent (b : N) (r : string) :
  (b < 256)%N -> tokens (percent b +:+ r) = cons (Esc b) <$> tokens r.
Proof.
  intros H. rewrite percent_split. cbn [tokens].
  rewrite !hexValue_hexDigit.
  - rewrite <- (N.div_mod b 16) by lia. now destruct (tokens r).
  - apply N.mod_lt. lia.
  - apply N.Div0.div_lt_upper_bound. lia.
Qed.

Lemma tokens_literal (c : ascii) (r : string) :
  c <> "%"%char -> tokens (String c r) = cons (Lit c) <$> tokens r.
Proof.
  intros H.
  destruct c as [[] [] [] [] [] [] [] []]; try reflexivity; now destruct H.
Qed.

Lemma escapeAt_literal (c : ascii) (r : string) :
  c <> "%"%char -> escapeAt (String c r) = None.
Proof.
  intros H.
  destruct c as [[] [] [] [] [] [] [] []]; try reflexivity; now destruct H.
Qed.

Lemma unreserved_literal (c : ascii) : uriUnreserved c = true -> c <> "%"%char.
Proof. intros H ->. discriminate H. Qed.

Lemma unreserved_ascii (c : ascii) : uriUnreserved c = true -> (code c <? 128)%N = true.
Proof.
  destruct c as [[] [] [] [] [] [] [] []]; try reflexivity; intros H; discriminate H.
Qed.

(** The two octets of a code unit from 128 on. *)
Lemma utf8_wide (c : ascii) :
  (code c <? 128)%N = false ->
  let b0 := (192 + code c / 64)%N in
  let b1 := (128 + code c mod 64)%N in
  utf8 c = [b0; b1] /\ (194 <= b0 <= 195)%N /\ (128 <= b1 < 192)%N /\
  ((b0 - 192) * 64 + (b1 - 128) = code c)%N.
Proof.
  intros H. apply N.ltb_ge in H. pose proof (code_bound c) as Hc.
  unfold utf8. rewrite (proj2 (N.ltb_ge _ _) H). cbn zeta.
  assert (2 <= code c / 64 <= 3)%N as Hq.
  { split; [apply N.div_le_lower_bound; lia | ].
    assert (code c / 64 < 4)%N by (apply N.Div0.div_lt_upper_bound; lia). lia. }
  pose proof (N.mod_lt (code c) 64 ltac:(lia)) as Hr.
  pose proof (N.div_mod (code c) 64 ltac:(lia)) as Hd.
  generalize dependent (code c / 64)%N. generalize dependent (code c mod 64)%N.
  intros r Hr q Hq Hd. repeat split; lia.
Qed.


(** What [encodeURIComponent] writes for one code unit: the code unit
    itself, one escape, or two. *)
Lemma encodeChar_cases (c : ascii) (s : string) :
  (uriUnreserved c = true /\ encodeChar c +:+ s = String c s) \/
  (uriUnreserved c = false /\ (code c <? 128)%N = true /\
   encodeChar c +:+ s = percent (code c) +:+ s) \/
  (uriUnreserved c = false /\ (code c <? 128)%N = false /\
   encodeChar c +:+ s
   = percent (192 + code c / 64) +:+ (percent (128 + code c mod 64) +:+ s)).
Proof.
  unfold encodeChar, utf8. destruct (uriUnreserved c); [left; now split|].
  destruct (code c <? 128)%N; [right; left | right; right]; repeat split; reflexivity.
Qed.

Lemma decode_encodeChar (c : ascii) (s : string) :
  decodeURIComponent (encodeChar c +:+ s) = String c <$> decodeURIComponent s.
Proof.
  unfold decodeURIComponent.
  destruct (encodeChar_cases c s) as [[Hu ->] | [(Hu & Hc & ->) | (Hu & Hc & ->)]].
  - rewrite tokens_literal by now apply unreserved_literal.
    now destruct (tokens s).
  - rewrite tokens_percent by apply code_bound.
    destruct (tokens s) as [ts|]; [|reflexivity].
    cbn [fmap option_fmap option_map decodeTokens]. now rewrite Hc, ascii_code.
  - destruct (utf8_wide c Hc) as (_ & Hb0 & Hb1 & Hcp). cbn zeta in *.
    set (b0 := (192 + code c / 64)%N) in *. set (b1 := (128 + code c mod 64)%N) in *.
    rewrite !tokens_percent by lia.
    destruct (tokens s) as [ts|]; [|reflexivity].
    cbn [fmap option_fmap option_map decodeTokens].
    replace (b0 <? 128)%N with false by (symmetry; apply N.ltb_ge; lia).
    replace (b0 <? 192)%N with false by (symmetry; apply N.ltb_ge; lia).
    replace (b0 <? 224)%N with true by (symmetry; apply N.ltb_lt; lia).
    unfold codePoint2, isContinuation. rewrite Hcp.
    replace (128 <=? b1)%N with true by (symmetry; apply N.leb_le; lia).
    replace (b1 <? 192)%N with true by (symmetry; apply N.ltb_lt; lia).
    replace (128 <=? code c)%N with true
      by (symmetry; apply N.leb_le; now apply N.ltb_ge).
    cbn [andb emit].
    destruct (decodeTokens ts); cbn; try reflexivity.
    replace (code c <? 256)%N with true by (symmetry; apply N.ltb_lt, code_bound).
    now rewrite ascii_code.
Qed.

Lemma decode_encode_append (s t : string) :
  decodeURIComponent (encodeURIComponent s +:+ t)
  = String.append s <$> decodeURIComponent t.
Proof.
  induction s as [|c s IH]; cbn [encodeURIComponent].
  - change ("" +:+ t) with t. destruct (decodeURIComponent t); reflexivity.
  - rewrite append_assoc, decode_encodeChar, IH.
    destruct (decodeURIComponent t); reflexivity.
Qed.

(** [decodeURIComponent] undoes [encodeURIComponent]. *)
Lemma decode_encode (s : string) : decodeURIComponent (encodeURIComponent s) = Ok s.
Proof.
  rewrite <- (append_empty_r (encodeURIComponent s)), decode_encode_append.
  cbn. now rewrite append_empty_r.
Qed.

(** A string without [%] decodes to itself. *)
Lemma decode_plain (s : string) : lacks "%" s = true -> decodeURIComponent s = Ok s.
Proof.
  unfold decodeURIComponent. induction s as [|c s IH]; [reflexivity|].
  cbn [lacks chars]. intros [Hc Hs]%andb_true_iff.
  rewrite tokens_literal.
  - fold (lacks "%" s) in Hs. specialize (IH Hs).
    destruct (tokens s) as [ts|]; [|discriminate]. cbn. now rewrite IH.
  - intros ->. discriminate Hc.
Qed.


Lemma percentDecode_percent (b : N) (r : string) :
  (b < 256)%N -> percentDecode (percent b +:+ r) = b :: percentDecode r.
Proof.
  intros H. pose proof (escapeAt_percent b r H) as E.
  rewrite percent_split in *. cbn [percentDecode]. now rewrite E.
Qed.

Lemma percentDecode_encodeChar (c : ascii) (s : string) :
  percentDecode (encodeChar c +:+ s) = utf8 c ++ percentDecode s.
Proof.
  destruct (encodeChar_cases c s) as [[Hu ->] | [(Hu & Hc & ->) | (Hu & Hc & ->)]].
  - cbn [percentDecode]. now rewrite escapeAt_literal by now apply unreserved_literal.
  - rewrite percentDecode_percent by apply code_bound. unfold utf8. now rewrite Hc.
  - destruct (utf8_wide c Hc) as (-> & Hb0 & Hb1 & _). cbn zeta in *.
    now rewrite !percentDecode_percent by lia.
Qed.

Lemma percentDecode_encode (s : string) :
  percentDecode (encodeURIComponent s) = flat_map utf8 (list_ascii_of_string s).
Proof.
  induction s as [|c s IH]; [reflexivity|].
  cbn [encodeURIComponent list_ascii_of_string flat_map].
  now rewrite percentDecode_encodeChar, IH.
Qed.

Lemma utf8Decode_utf8 (c : ascii) (bs : list N) :
  utf8Decode (utf8 c ++ bs) = String c <$> utf8Decode bs.
Proof.
  destruct (code c <? 128)%N eqn:Hc.
  - unfold utf8. rewrite Hc. cbn [app utf8Decode]. now rewrite Hc, ascii_code.
  - destruct (utf8_wide c Hc) as (-> & Hb0 & Hb1 & Hcp). cbn zeta in *.
    set (b0 := (192 + code c / 64)%N) in *. set (b1 := (128 + code c mod 64)%N) in *.
    cbn [app utf8Decode].
    replace (b0 <? 128)%N with false by (symmetry; apply N.ltb_ge; lia).
    replace (194 <=? b0)%N with true by (symmetry; apply N.leb_le; lia).
    replace (b0 <=? 195)%N with true by (symmetry; apply N.leb_le; lia).
    unfold isContinuation.
    replace (128 <=? b1)%N with true by (symmetry; apply N.leb_le; lia).
    replace (b1 <? 192)%N with true by (symmetry; apply N.ltb_lt; lia).
    cbn [andb]. now rewrite Hcp, ascii_code.
Qed.

Lemma utf8Decode_flat (s : string) :
  utf8Decode (flat_map utf8 (list_ascii_of_string s)) = Ok s.
Proof.
  induction s as [|c s IH]; [reflexivity|].
  cbn [list_ascii_of_string flat_map]. now rewrite utf8Decode_utf8, IH.
Qed.

Lemma plusToSpace_lacks (s : string) : lacks "+" s = true -> plusToSpace s = s.
Proof.
  induction s as [|c s IH]; [reflexivity|]. cbn [lacks chars plusToSpace].
  intros [Hc Hs]%andb_true_iff. rewrite (IH Hs).
  now destruct (Ascii.eqb c "+").
Qed.

Lemma encodeChar_safe (c : ascii) : chars uriSafe (encodeChar c) = true.
Proof.
  assert (forall b, (b < 256)%N -> chars uriSafe (percent b) = true) as Hp.
  { intros b Hb. unfold percent. cbn [chars]. unfold uriSafe at 2 3.
    rewrite !hexDigit_unreserved; [reflexivity | apply N.mod_lt; lia |
      apply N.Div0.div_lt_upper_bound; lia]. }
  rewrite <- (append_empty_r (encodeChar c)).
  destruct (encodeChar_cases c "") as [[Hu ->] | [(Hu & Hc & ->) | (Hu & Hc & ->)]].
  - cbn [chars]. unfold uriSafe. now rewrite Hu.
  - rewrite chars_append, Hp by apply code_bound. reflexivity.
  - destruct (utf8_wide c Hc) as (_ & Hb0 & Hb1 & _). cbn zeta in *.
    rewrite !chars_append, !Hp by lia. reflexivity.
Qed.

Lemma encode_safe (s : string) : chars uriSafe (encodeURIComponent s) = true.
Proof.
  induction s as [|c s IH]; [reflexivity|]. cbn [encodeURIComponent].
  now rewrite chars_append, encodeChar_safe, IH.
Qed.

Lemma encode_lacks (x : ascii) (s : string) :
  uriSafe x = false -> lacks x (encodeURIComponent s) = true.
Proof.
  intros Hx. apply (chars_impl uriSafe); [|apply encode_safe].
  intros c Hc. apply negb_true_iff, Ascii.eqb_neq. intros ->. congruence.
Qed.

Lemma formDecode_encode (s : string) : formDecode (encodeURIComponent s) = Ok s.
Proof.
  unfold formDecode. rewrite plusToSpace_lacks by now apply encode_lacks.
  rewrite percentDecode_encode. apply utf8Decode_flat.
Qed.

Lemma split_lacks (sep : ascii) (s : string) : lacks sep s = true -> split s sep = [s].
Proof.
  induction s as [|c s IH]; [reflexivity|]. cbn [lacks chars split].
  intros [Hc Hs]%andb_true_iff. apply negb_true_iff in Hc. rewrite Hc.
  fold (lacks sep s) in Hs. now rewrite (IH Hs).
Qed.

Lemma split_first (sep : ascii) (a b : string) :
  lacks sep a = true -> split (a +:+ String sep b) sep = a :: split b sep.
Proof.
  induction a as [|c a IH]; cbn [lacks chars String.append split].
  - intros _. now rewrite Ascii.eqb_refl.
  - intros [Hc Ha]%andb_true_iff. apply negb_true_iff in Hc. rewrite Hc.
    fold (lacks sep a) in Ha. now rewrite (IH Ha).
Qed.

End Coding.

Section Links.

Lemma get_videoUrl (v : string) :
  lacks "&" v = true -> lacks "?" v = true ->
  get (URLSearchParams (Some ("videoUrl=" +:+ v))) "videoUrl" = Some <$> formDecode v.
Proof.
  intros Hamp Hq. unfold URLSearchParams.
  change (match "videoUrl=" +:+ v with String "?" r => r | _ => "videoUrl=" +:+ v end)
    with ("videoUrl=" +:+ v).
  rewrite split_lacks by (cbn [lacks chars String.append]; exact Hamp).
  reflexivity.
Qed.

(** X1. The parser undoes the wrapping of a target in an embedded player
    link, and then decodes the target once more. *)
Theorem extractVideoUrl_wrapped (page target : string) :
  lacks "?" page = true -> target <> "" ->
  extractVideoUrl (page +:+ "eduverseplay?videoUrl=" +:+ encodeURIComponent target)
  = decodeURIComponent target /\
  (lacks "%" target = true ->
   extractVideoUrl (page +:+ "eduverseplay?videoUrl=" +:+ encodeURIComponent target)
   = Ok target).
Proof.
  intros Hpage Htarget.
  assert (extractVideoUrl (page +:+ "eduverseplay?videoUrl=" +:+ encodeURIComponent target)
          = decodeURIComponent target) as H.
  { unfold extractVideoUrl.
    assert (includes (page +:+ "eduverseplay?videoUrl=" +:+ encodeURIComponent target)
              "eduverseplay?videoUrl=" = true) as ->
      by (apply includes_spec; eauto).
    change (page +:+ "eduverseplay?videoUrl=" +:+ encodeURIComponent target)
      with (page +:+ "eduverseplay" +:+ String "?" ("videoUrl=" +:+ encodeURIComponent target)).
    rewrite <- append_assoc.
    rewrite split_first by (unfold lacks in *; rewrite chars_append, Hpage; reflexivity).
    rewrite split_lacks
      by (cbn [lacks chars String.append]; now apply encode_lacks).
    cbn [lookup list_lookup].
    rewrite get_videoUrl by now apply encode_lacks.
    rewrite formDecode_encode. cbn.
    now apply String.eqb_neq in Htarget as ->. }
  split; [exact H|]. intros Hplain. rewrite H. now apply decode_plain.
Qed.

Lemma extractVideoUrl_wrapped_witness :
  extractVideoUrl ("https://x/" +:+ "eduverseplay?videoUrl="
                   +:+ encodeURIComponent "https://cdn/a b.mp4")
  = Ok "https://cdn/a b.mp4".
Proof.
  apply (extractVideoUrl_wrapped "https://x/" "https://cdn/a b.mp4");
    [reflexivity | discriminate | reflexivity].
Defined.

(** X2. [isM3U8Url] holds exactly of the strings that have [m3u8] as a
    substring: its first test never decides. *)
Theorem isM3U8Url_substring (url : string) :
  isM3U8Url url = includes url "m3u8" /\
  (isM3U8Url url = true <-> contains url "m3u8").
Proof.
  assert (isM3U8Url url = includes url "m3u8") as H.
  { unfold isM3U8Url. destruct (includes url ".m3u8") eqn:E; [|reflexivity].
    symmetry. apply includes_spec in E as (pre & post & ->). apply includes_spec.
    exists (pre +:+ "."), post. now rewrite append_assoc. }
  split; [exact H|]. rewrite H. apply includes_spec.
Qed.

(** X3. The player link carries the raw URL: what follows the prefix decodes
    to it, so distinct raw URLs get distinct links. *)
Theorem getVideoPlayerURL_lossless (raw : string) (isLive : bool) :
  blank raw = false -> prefixed raw = false ->
  (exists rest,
     getVideoPlayerURL raw isLive = playback isLive +:+ rest /\
     decodeURIComponent rest = Ok raw) /\
  (forall raw', blank raw' = false -> prefixed raw' = false ->
     getVideoPlayerURL raw' isLive = getVideoPlayerURL raw isLive -> raw' = raw).
Proof.
  intros B P. split.
  - exists (encodeURIComponent raw). split; [now apply getVideoPlayerURL_encode|].
    apply decode_encode.
  - intros raw' B' P' H.
    rewrite !getVideoPlayerURL_encode in H by assumption.
    assert (encodeURIComponent raw' = encodeURIComponent raw) as E.
    { destruct isLive; cbn [playback] in H.
      - unfold livePrefix in H. cbn in H. congruence.
      - unfold recPrefix in H. cbn in H. congruence. }
    apply (f_equal decodeURIComponent) in E. rewrite !decode_encode in E. congruence.
Qed.

Lemma getVideoPlayerURL_lossless_witness :
  exists rest,
    getVideoPlayerURL "https://cdn/a b.m3u8" true = playback true +:+ rest /\
    decodeURIComponent rest = Ok "https://cdn/a b.m3u8".
Proof.
  destruct (getVideoPlayerURL_lossless "https://cdn/a b.m3u8" true) as [H _];
    [reflexivity | reflexivity | exact H].
Defined.

End Links.

(** ** Rows and files *)

Section Rows.

Lemma trimEnd_idem (s : string) : trimEnd (trimEnd s) = trimEnd s.
Proof.
  induction s as [|c s IH]; [reflexivity|]. cbn [trimEnd].
  destruct (trimEnd s) as [|d t] eqn:E.
  - destruct (isWhiteSpace c) eqn:W; [reflexivity|]. cbn [trimEnd]. now rewrite W.
  - cbn [trimEnd]. cbn [trimEnd] in IH. now rewrite IH.
Qed.

Lemma trimEnd_head (c : ascii) (s : string) :
  isWhiteSpace c = false -> exists r, trimEnd (String c s) = String c r.
Proof. intros W. cbn [trimEnd]. rewrite W. destruct (trimEnd s); eauto. Qed.

Lemma trim_idem (s : string) : trim (trim s) = trim s.
Proof.
  unfold trim. destruct (trimStart_head s) as [-> | (c & r & -> & W)]; [reflexivity|].
  destruct (trimEnd_head c r W) as [r' E]. rewrite E.
  cbn [trimStart]. rewrite W, <- E. apply trimEnd_idem.
Qed.

Lemma mapM_length {A B} (f : A -> outcome B) (l : list A) (ys : list B) :
  mapM f l = Ok ys -> length ys = length l.
Proof.
  revert ys. induction l as [|x l IH]; intros ys; cbn [mapM].
  - intros [= <-]. reflexivity.
  - destruct (f x) as [y| |]; try discriminate. cbn.
    destruct (mapM f l) as [k| |]; try discriminate. cbn. intros [= <-].
    cbn. now rewrite (IH k).
Qed.

Lemma mapM_Forall {A B} (f : A -> outcome B) (P : B -> Prop) (l : list A) (ys : list B) :
  (forall x y, f x = Ok y -> P y) -> mapM f l = Ok ys -> Forall P ys.
Proof.
  intros H. revert ys. induction l as [|x l IH]; intros ys; cbn [mapM].
  - intros [= <-]. constructor.
  - destruct (f x) as [y| |] eqn:E; try discriminate. cbn.
    destruct (mapM f l) as [k| |]; try discriminate. cbn. intros [= <-].
    constructor; [eapply H; eauto | now apply IH].
Qed.

Lemma mapM_raises {A B} (f : A -> outcome B) (l : list A) (x : A) (e : exn) :
  In x l -> f x = Throw e ->
  (forall ys, mapM f l <> Ok ys) /\
  ((forall z, In z l -> f z <> Unmodelled) -> exists e', mapM f l = Throw e').
Proof.
  induction l as [|z l IH]; [contradiction|]. intros [-> | Hin] Hx; cbn [mapM].
  - rewrite Hx. split; [discriminate | eauto].
  - destruct (IH Hin Hx) as [Hno Hthrow]. split.
    + intros ys. destruct (f z); try discriminate. cbn.
      destruct (mapM f l) as [k| |] eqn:E; try discriminate. now destruct (Hno k).
    + intros Hall. destruct (f z) as [y| |] eqn:E; [|eauto|].
      * destruct Hthrow as [e' ->]; [intros w Hw; apply Hall; now right|]. cbn. eauto.
      * destruct (Hall z); auto. now left.
Qed.

Lemma filter_length_le {A} (p : A -> bool) (l : list A) :
  length (List.filter p l) <= length l.
Proof. induction l as [|x l IH]; simpl; [lia|]. destruct (p x); simpl; lia. Qed.

Lemma entryOf_title row e : entryOf row = Ok e -> title e = trim (toString (row !! 1%nat)).
Proof.
  unfold entryOf. destruct (extractVideoUrl _); try discriminate. cbn. now intros [= <-].
Qed.

(** X4. The shape of what the Row Parser returns: the first row does not
    count, there are no more entries than rows after it, and every title
    is trimmed.  A title or a URL can be empty: a cell of white space
    passes the test of line 52 and is trimmed to nothing, and such a URL
    becomes the link ["#"]. *)
Theorem parseRows_shape :
  (forall header header' rows, parseRows (header :: rows) = parseRows (header' :: rows)) /\
  (forall rows entries,
     parseRows rows = Ok entries ->
     length entries <= length rows - 1 /\
     Forall (fun e => trim (title e) = title e) entries) /\
  (forall u t,
     u <> "" -> t <> "" -> blank u = true ->
     parseRows [[]; [CText u; CText t]] = Ok [{| url := ""; title := trim t |}] /\
     getVideoPlayerURL "" false = "#").
Proof.
  split; [|split].
  - intros header header' rows. now rewrite !parseRows_entries.
  - intros rows entries H. rewrite parseRows_entries in H. split.
    + rewrite (mapM_length _ _ _ H).
      etransitivity; [apply filter_length_le|]. rewrite length_skipn. lia.
    + apply (mapM_Forall entryOf _ _ _ (fun row e He => eq_trans
               (f_equal trim (entryOf_title row e He))
               (eq_trans (trim_idem _) (eq_sym (entryOf_title row e He)))) H).
  - intros u t Hu Ht Hb. split; [|reflexivity].
    apply String.eqb_neq in Hu, Ht. apply trim_empty in Hb.
    rewrite parseRows_entries. cbn [skipn List.filter]. unfold kept.
    cbn [length Nat.leb lookup list_lookup truthy andb]. rewrite Hu, Ht.
    cbn [negb andb mapM]. unfold entryOf. cbn [lookup list_lookup toString].
    now rewrite Hb.
Qed.

Lemma parseRows_shape_witness :
  parseRows [[]; [CText "  "; CText " t "]] = Ok [{| url := ""; title := "t" |}] /\
  length [{| url := ""; title := "t" |}] <= length [[]; [CText "  "; CText " t "]] - 1.
Proof.
  destruct parseRows_shape as (_ & Hshape & Hblank).
  destruct (Hblank "  " " t ") as [H _]; [discriminate | discriminate | reflexivity |].
  split; [exact H|]. now apply (Hshape _ _ H).
Defined.

End Rows.

(** ** Folders *)

Section Folders.

Implicit Types (batches : gmap string BatchEntry) (file : File) (files : list File).

Lemma subjectLoop_acc files (acc : list ParsedSectionData) :
  subjectLoop files acc = app acc <$> subjectLoop files [].
Proof.
  revert acc. induction files as [|file files IH]; intros acc; cbn [subjectLoop].
  - cbn. now rewrite app_nil_r.
  - destruct (parseXLSXFile file) as [contents| |]; [|apply IH|reflexivity].
    rewrite IH, (IH ([] ++ _)). destruct (subjectLoop files []); cbn; try reflexivity.
    now rewrite <- app_assoc.
Qed.

Lemma subjectLoop_app files files' :
  subjectLoop (files ++ files') []
  = (a ← subjectLoop files []; b ← subjectLoop files' []; Ok (a ++ b)).
Proof.
  induction files as [|file files IH]; cbn [app subjectLoop].
  - cbn. now destruct (subjectLoop files' []).
  - destruct (parseXLSXFile file) as [contents| |]; [|exact IH|reflexivity].
    rewrite subjectLoop_acc, (subjectLoop_acc files), IH.
    destruct (subjectLoop files []) as [a| |]; cbn; try reflexivity.
    destruct (subjectLoop files' []) as [b| |]; reflexivity.
Qed.

(** X5. [processSubjectFolder] goes through the files in order and adds one
    Section for each file that is accepted (its name ends in [.xlsx] and
    does not start with [~]) and parses; a file that is not accepted or
    does not parse adds nothing and does not stop the others. *)
Theorem processSubjectFolder_sections :
  (forall files files',
     processSubjectFolder (files ++ files')
     = (a ← processSubjectFolder files; b ← processSubjectFolder files'; Ok (a ++ b))) /\
  (forall file, accepted file = false -> processSubjectFolder [file] = Ok []) /\
  (forall file e, parseXLSXFile file = Throw e -> processSubjectFolder [file] = Ok []) /\
  (forall file contents,
     accepted file = true -> parseXLSXFile file = Ok contents ->
     processSubjectFolder [file] = Ok [sectionFrom file contents]).
Proof.
  unfold processSubjectFolder. repeat split.
  - intros files files'. rewrite List.filter_app. apply subjectLoop_app.
  - intros file H. cbn [List.filter]. unfold accepted in H. now rewrite H.
  - intros file e H. cbn [List.filter]. destruct (_ && _); [|reflexivity].
    cbn [subjectLoop]. now rewrite H.
  - intros file contents Ha Hp. cbn [List.filter]. unfold accepted in Ha. rewrite Ha.
    cbn [subjectLoop]. now rewrite Hp.
Qed.

Lemma processSubjectFolder_sections_witness :
  processSubjectFolder
    [{| file_name := "notes.xlsx"; webkitRelativePath := "Math/notes.xlsx";
        sheet := Ok [[]; [CText "u"; CText "t"]] |}]
  = Ok [{| name := "notes"; type := notes; contents := [{| url := "u"; title := "t" |}] |}].
Proof.
  destruct processSubjectFolder_sections as (_ & _ & _ & H).
  apply (H {| file_name := "notes.xlsx"; webkitRelativePath := "Math/notes.xlsx";
              sheet := Ok [[]; [CText "u"; CText "t"]] |} [{| url := "u"; title := "t" |}]);
    reflexivity.
Defined.

Lemma sectionOf_lock file :
  startsWith (file_name file) "~" = true -> String.eqb (sectionOf file) "__proto__" = false.
Proof.
  unfold startsWith, sectionOf. destruct (file_name file) as [|c t]; [discriminate|].
  cbn [String.prefix]. destruct (ascii_dec "~" c) as [<-|]; [|discriminate].
  intros _. reflexivity.
Qed.

(** X6. A file whose name starts with [~], as the lock files of an open
    workbook do, is left out by [processSubjectFolder] and filed like any
    other by [processFolderStructure], when its two folders have names
    that are not those of members every object inherits. *)
Theorem processFolderStructure_files_lock_files file contents :
  startsWith (file_name file) "~" = true ->
  qualifies file = true ->
  inherited (batchOf file) = false ->
  inherited (subjectOf file) = false ->
  parseXLSXFile file = Ok contents ->
  processSubjectFolder [file] = Ok [] /\
  exists batches,
    processFolderStructure [file] = Ok batches /\
    sectionAt batches (batchOf file) (subjectOf file) (sectionOf file)
    = Some (sectionFrom file contents).
Proof.
  intros Hlock Hq Hb Hs Hp. split.
  - unfold processSubjectFolder. cbn [List.filter]. rewrite Hlock.
    now rewrite andb_false_r.
  - apply (processFiles_last_write_wins [] file contents ∅ Hq); [|exact Hp|reflexivity].
    unfold ownNames. now rewrite Hb, Hs, (sectionOf_lock file Hlock).
Qed.

Lemma processFolderStructure_files_lock_files_witness :
  processSubjectFolder
    [{| file_name := "~$week1.xlsx"; webkitRelativePath := "B/Math/~$week1.xlsx";
        sheet := Ok [[]; [CText "u"; CText "t"]] |}] = Ok [] /\
  exists batches,
    processFolderStructure
      [{| file_name := "~$week1.xlsx"; webkitRelativePath := "B/Math/~$week1.xlsx";
          sheet := Ok [[]; [CText "u"; CText "t"]] |}] = Ok batches /\
    sectionAt batches "B" "Math" "~$week1"
    = Some {| name := "~$week1"; type := video;
              contents := [{| url := "u"; title := "t" |}] |}.
Proof.
  apply (processFolderStructure_files_lock_files
           {| file_name := "~$week1.xlsx"; webkitRelativePath := "B/Math/~$week1.xlsx";
              sheet := Ok [[]; [CText "u"; CText "t"]] |}
           [{| url := "u"; title := "t" |}]); reflexivity.
Defined.

Lemma processFile_wellNamed batches batches' file :
  processFile batches file = Ok batches' -> wellNamed batches -> wellNamed batches'.
Proof.
  unfold processFile. destruct (_ && _); [|now intros [= <-]].
  set (bn := default "" (_ !! 0%nat)). set (sn := default "" (_ !! 1%nat)).
  set (fn := replace _ _ _).
  destruct (inherited bn); [discriminate|].
  set (batch := default _ (batches !! bn)). set (subject := default _ (subjects batch !! sn)).
  intros Hrun Hwn.
  assert (batch_name batch = bn /\
          forall s se, subjects batch !! s = Some se ->
            subject_name se = s /\
            forall n sec, sections se !! n = Some sec ->
              name sec = n /\ type sec = getSectionTypeFromName n) as [Hbn Hsubjects].
  { unfold batch. destruct (batches !! bn) as [be|] eqn:E; cbn.
    - apply (Hwn bn be E).
    - split; [reflexivity|]. intros s se H. now rewrite lookup_empty in H. }
  assert (subject_name subject = sn /\
          forall n sec, sections subject !! n = Some sec ->
            name sec = n /\ type sec = getSectionTypeFromName n) as [Hsn Hsections].
  { unfold subject. destruct (subjects batch !! sn) as [se|] eqn:E; cbn.
    - apply (Hsubjects sn se E).
    - split; [reflexivity|]. intros n sec H. now rewrite lookup_empty in H. }
  assert (wellNamed (<[bn := batch]> batches)) as Hensure.
  { intros b be Hb. destruct (decide (b = bn)) as [->|Hne].
    - rewrite lookup_insert_eq in Hb. injection Hb as <-. now split.
    - rewrite lookup_insert_ne in Hb by auto. now apply Hwn. }
  assert (forall subject',
            subject_name subject' = sn ->
            (forall n sec, sections subject' !! n = Some sec ->
               name sec = n /\ type sec = getSectionTypeFromName n) ->
            wellNamed (<[bn := {| batch_name := batch_name batch;
                                  subjects := <[sn := subject']> (subjects batch) |}]> batches))
    as Hstore.
  { intros subject' Hname Hsecs b be Hb.
    destruct (decide (b = bn)) as [->|Hne].
    - rewrite lookup_insert_eq in Hb. injection Hb as <-. cbn. split; [exact Hbn|].
      intros s se Hs. destruct (decide (s = sn)) as [->|Hne].
      + rewrite lookup_insert_eq in Hs. injection Hs as <-. now split.
      + rewrite lookup_insert_ne in Hs by auto. now apply Hsubjects.
    - rewrite lookup_insert_ne in Hb by auto. now apply Hwn. }
  destruct (inherited sn).
  { destruct (parseXLSXFile file); try discriminate; now injection Hrun as <-. }
  destruct (parseXLSXFile file) as [contents|e|]; [| |discriminate].
  - destruct (String.eqb fn "__proto__"); [discriminate|].
    injection Hrun as <-. apply Hstore; cbn; [assumption|].
    intros n sec Hn. destruct (decide (n = fn)) as [->|Hne].
    + rewrite lookup_insert_eq in Hn. injection Hn as <-. now split.
    + rewrite lookup_insert_ne in Hn by auto. now apply Hsections.
  - injection Hrun as <-. now apply Hstore.
Qed.

Lemma processFiles_wellNamed files batches batches' :
  processFiles batches files = Ok batches' -> wellNamed batches -> wellNamed batches'.
Proof.
  revert batches. induction files as [|file files IH]; intros batches; cbn [processFiles].
  - now intros [= <-].
  - destruct (processFile batches file) as [b1| |] eqn:E; try discriminate. cbn.
    intros Hrun Hwn. apply (IH b1 Hrun). now apply (processFile_wellNamed batches b1 file).
Qed.

(** X7. In the structure [processFolderStructure] returns, every Batch,
    Subject and Section is filed under its own name, and every Section
    has the type the classifier gives its name. *)
Theorem processFolderStructure_wellNamed files batches :
  processFolderStructure files = Ok batches -> wellNamed batches.
Proof.
  intros H. apply (processFiles_wellNamed files ∅ batches H).
  intros b be Hb. now rewrite lookup_empty in Hb.
Qed.

Lemma processFolderStructure_wellNamed_witness :
  exists batches,
    processFolderStructure [nestedFile] = Ok batches /\ wellNamed batches.
Proof.
  eexists. split; [reflexivity|].
  apply (processFolderStructure_wellNamed [nestedFile]). reflexivity.
Defined.

(** What one file does to the Section under [b], [s], [n]. *)
Lemma processFile_sectionAt batches batches' file b s n :
  processFile batches file = Ok batches' ->
  (exists contents, writes file b s n contents /\
                    sectionAt batches' b s n = Some (sectionFrom file contents)) \/
  ((forall contents, ~ writes file b s n contents) /\
   sectionAt batches' b s n = sectionAt batches b s n).
Proof.
  intros Hrun. destruct (qualifies file) eqn:Hq.
  - destruct (parseXLSXFile file) as [contents|e|] eqn:Hp.
    + destruct (ownNames file) eqn:Hown.
      * destruct (processFile_parsed batches file contents b s n Hq Hown Hp)
          as (b' & Hb' & Hs).
        rewrite Hrun in Hb'. injection Hb' as <-. rewrite Hs.
        destruct (decide _) as [(-> & -> & ->)|Hne].
        -- left. exists contents. now repeat split.
        -- right. split; [|reflexivity]. intros c (_ & <- & <- & <- & _). now apply Hne.
      * right. split; [intros c (_ & _ & _ & _ & Hc & _); congruence|].
        apply (processFile_same batches batches' file b s n Hrun).
        intros c _. revert Hrun. unfold processFile. fold (qualifies file).
        rewrite Hq, Hp. fold (batchOf file) (subjectOf file) (sectionOf file).
        unfold ownNames in Hown.
        destruct (inherited (batchOf file)); [discriminate|].
        destruct (inherited (subjectOf file)); [reflexivity|].
        cbn in Hown. apply negb_false_iff in Hown. rewrite Hown. discriminate.
    + right. split; [intros c (_ & _ & _ & _ & _ & Hc); congruence|].
      apply (processFile_same batches batches' file b s n Hrun).
      intros c Hc. congruence.
    + exfalso. revert Hrun. unfold processFile. fold (qualifies file). rewrite Hq, Hp.
      destruct (inherited _); [discriminate|]. now destruct (inherited _).
  - rewrite (processFile_skips batches file Hq) in Hrun. injection Hrun as <-.
    right. split; [|reflexivity]. intros c (Hc & _). congruence.
Qed.

Lemma processFiles_preserved files batches batches' b s n :
  processFiles batches files = Ok batches' ->
  (forall file contents, In file files -> ~ writes file b s n contents) ->
  sectionAt batches' b s n = sectionAt batches b s n.
Proof.
  revert batches. induction files as [|file files IH]; intros batches; cbn [processFiles].
  - now intros [= <-].
  - destruct (processFile batches file) as [b1| |] eqn:E; try discriminate. cbn.
    intros Hrun Hno. rewrite (IH b1 Hrun) by (intros f c Hf; apply Hno; now right).
    destruct (processFile_sectionAt batches b1 file b s n E) as [(c & Hw & _)|[_ H]];
      [|exact H].
    destruct (Hno file c); [now left | exact Hw].
Qed.

Lemma processFiles_sectionAt files batches batches' b s n sec :
  processFiles batches files = Ok batches' ->
  sectionAt batches' b s n = Some sec ->
  (sectionAt batches b s n = Some sec /\
   forall f c, In f files -> ~ writes f b s n c) \/
  exists before file after contents,
    files = before ++ file :: after /\
    writes file b s n contents /\
    sec = sectionFrom file contents /\
    forall f c, In f after -> ~ writes f b s n c.
Proof.
  revert batches. induction files as [|file files IH]; intros batches; cbn [processFiles].
  - intros [= <-]. left. split; [assumption | intros f c []].
  - destruct (processFile batches file) as [b1| |] eqn:E; try discriminate. cbn.
    intros Hrun Hsec.
    destruct (IH b1 Hrun Hsec) as [[H1 Hno] | (before & f & after & c & -> & Hw & -> & Hno)].
    + destruct (processFile_sectionAt batches b1 file b s n E) as [(c & Hw & Hs)|[Hnone Hs]].
      * right. exists [], file, files, c.
        split; [reflexivity|]. split; [exact Hw|]. split; [congruence | exact Hno].
      * left. split; [congruence|]. intros f c [<-|Hf]; [apply Hnone | now apply Hno].
    + right. exists (file :: before), f, after, c.
      split; [reflexivity|]. split; [exact Hw|]. split; [reflexivity | exact Hno].
Qed.

(** X8. Which Section [processFolderStructure] files under a triple of
    names, when it returns: the one of the last file that writes there,
    that is, that qualifies, has these names, which are names of own
    properties, and parses.  It overwrites what earlier files wrote
    there; files that fail to parse and files with other names in
    between or after do not disturb it; and no Section is filed that no
    file wrote. *)
Theorem processFolderStructure_last_parsed_wins files batches b s n :
  processFolderStructure files = Ok batches ->
  (forall sec,
     sectionAt batches b s n = Some sec ->
     exists before file after contents,
       files = before ++ file :: after /\
       writes file b s n contents /\
       sec = sectionFrom file contents /\
       forall f c, In f after -> ~ writes f b s n c) /\
  (forall before file after contents,
     files = before ++ file :: after ->
     writes file b s n contents ->
     (forall f c, In f after -> ~ writes f b s n c) ->
     sectionAt batches b s n = Some (sectionFrom file contents)).
Proof.
  intros Hrun. split.
  - intros sec Hsec.
    destruct (processFiles_sectionAt files ∅ batches b s n sec Hrun Hsec) as [[H _]|H];
      [|exact H].
    unfold sectionAt in H. now rewrite lookup_empty in H.
  - intros before file after contents -> Hw Hno. unfold processFolderStructure in Hrun.
    rewrite processFiles_app in Hrun.
    destruct (processFiles ∅ before) as [b1| |]; try discriminate.
    cbn in Hrun. cbn [processFiles] in Hrun.
    destruct (processFile b1 file) as [b2| |] eqn:E; try discriminate. cbn in Hrun.
    rewrite (processFiles_preserved after b2 batches b s n Hrun Hno).
    destruct (processFile_sectionAt b1 b2 file b s n E) as [(c & Hw' & Hs)|[Hnone _]].
    + destruct Hw as (_ & _ & _ & _ & _ & Hc), Hw' as (_ & _ & _ & _ & _ & Hc').
      congruence.
    + now destruct (Hnone contents).
Qed.

Lemma processFolderStructure_last_parsed_wins_witness :
  exists batches,
    processFolderStructure weekFiles = Ok batches /\
    sectionAt batches "BatchA" "Math" "week1"
    = Some {| name := "week1"; type := video;
              contents := [{| url := "u2"; title := "t2" |}] |}.
Proof.
  eexists. split; [vm_compute; reflexivity|].
  destruct (processFolderStructure_last_parsed_wins weekFiles _
              "BatchA" "Math" "week1" eq_refl) as [_ H].
  apply (H [weekFile "week1.xlsx" (Ok [[]; [CText "u1"; CText "t1"]])]
           (weekFile "week1.xlsx" (Ok [[]; [CText "u2"; CText "t2"]]))
           [weekFile "week1.xlsx" (Throw ReadError);
            weekFile "week2.xlsx" (Ok [[]; [CText "u3"; CText "t3"]])]
           [{| url := "u2"; title := "t2" |}]).
  - reflexivity.
  - repeat split; reflexivity.
  - intros f c [<-|[<-|[]]] (_ & _ & _ & Hn & _ & Hc); [discriminate Hc | discriminate Hn].
Defined.

(** X9. One row that raises loses the whole file: [parseXLSXFile] returns no
    entries, not even those of the rows that parse, and
    [processFolderStructure] files no Section for the file, while the
    Batch and the Subject of the file are there (for folders whose names
    are not those of members every object inherits). *)
Theorem processFile_row_failure batches file rows row e :
  qualifies file = true ->
  sheet file = Ok rows ->
  In row (skipn 1 rows) ->
  parseRow row = Throw e ->
  (forall contents, parseXLSXFile file <> Ok contents) /\
  ((forall r, In r (skipn 1 rows) -> parseRow r <> Unmodelled) ->
   inherited (batchOf file) = false ->
   inherited (subjectOf file) = false ->
   exists batches' be se,
     processFile batches file = Ok batches' /\
     batches' !! batchOf file = Some be /\
     subjects be !! subjectOf file = Some se /\
     forall b s n, sectionAt batches' b s n = sectionAt batches b s n).
Proof.
  intros Hq Hsheet Hin Hrow.
  assert (parseXLSXFile file = mapM entryOf (List.filter kept (skipn 1 rows))) as Hparse.
  { unfold parseXLSXFile. rewrite Hsheet. cbn. apply parseRows_entries. }
  assert (forall r, parseRow r <> Ok [] -> kept r = true) as Hkept.
  { intros r Hr. rewrite parseRow_kept in Hr. now destruct (kept r). }
  assert (kept row = true) as Hk by (apply Hkept; congruence).
  assert (entryOf row = Throw e) as He.
  { rewrite parseRow_kept, Hk in Hrow. destruct (entryOf row); cbn in Hrow; congruence. }
  assert (In row (List.filter kept (skipn 1 rows))) as Hin'
    by (apply List.filter_In; now split).
  destruct (mapM_raises entryOf _ row e Hin' He) as [Hno Hthrow].
  split; [intros contents; rewrite Hparse; apply Hno|].
  intros Hall Hbn Hsn. destruct Hthrow as [e' He'].
  { intros r Hr Hu. apply List.filter_In in Hr as [Hr Hkr].
    apply (Hall r Hr). now rewrite parseRow_kept, Hkr, Hu. }
  rewrite <- Hparse in He'.
  destruct (processFile_failed batches file e' "" "" "" He' Hbn) as (batches' & Hrun & _).
  pose proof Hrun as Hrun'. unfold processFile in Hrun'. fold (qualifies file) in Hrun'.
  rewrite Hq, He' in Hrun'. fold (batchOf file) (subjectOf file) in Hrun'.
  rewrite Hbn, Hsn in Hrun'. injection Hrun' as Hb'.
  eexists batches', _, _. split; [exact Hrun|]. split; [|split].
  - rewrite <- Hb'. apply lookup_insert_eq.
  - cbn. apply lookup_insert_eq.
  - intros b s n.
    destruct (processFile_failed batches file e' b s n He' Hbn) as (b2 & Hb2 & Hs).
    rewrite Hrun in Hb2. injection Hb2 as <-. exact Hs.
Qed.

Lemma processFile_row_failure_witness :
  exists batches' be se,
    processFile ∅
      {| file_name := "a.xlsx"; webkitRelativePath := "B/S/a.xlsx";
         sheet := Ok [[]; [CText "u"; CText "t"];
                      [CText "x/eduverseplay?videoUrl=%25"; CText "t2"]] |}
    = Ok batches' /\
    batches' !! "B" = Some be /\
    subjects be !! "S" = Some se /\
    sectionAt batches' "B" "S" "a" = None.
Proof.
  destruct (processFile_row_failure ∅
              {| file_name := "a.xlsx"; webkitRelativePath := "B/S/a.xlsx";
                 sheet := Ok [[]; [CText "u"; CText "t"];
                              [CText "x/eduverseplay?videoUrl=%25"; CText "t2"]] |}
              [[]; [CText "u"; CText "t"];
               [CText "x/eduverseplay?videoUrl=%25"; CText "t2"]]
              [CText "x/eduverseplay?videoUrl=%25"; CText "t2"] URIError) as [_ H].
  - reflexivity.
  - reflexivity.
  - right. now left.
  - reflexivity.
  - destruct H as (batches' & be & se & Hrun & Hb & Hs & Hsame).
    + intros r [<-|[<-|[]]]; discriminate.
    + reflexivity.
    + reflexivity.
    + exists batches', be, se. repeat split; try assumption.
      now rewrite Hsame.
Defined.

End Folders.

(** ** Selection *)

Section Selection.

(** X10. [handleContentSelection] toggles one id: the id is selected
    afterwards exactly when it was not before, every other id stays as it
    was, the size of the selection moves by one, and toggling the same id
    again gives the state back. *)
Theorem handleContentSelection_toggles (contentId : string) (st : editor) :
  (forall x,
     x ∈ selectedContents (handleContentSelection contentId st)
     <-> if decide (x = contentId) then x ∉ selectedContents st
         else x ∈ selectedContents st) /\
  size (selectedContents (handleContentSelection contentId st))
  = (if bool_decide (contentId ∈ selectedContents st)
     then size (selectedContents st) - 1
     else size (selectedContents st) + 1) /\
  handleContentSelection contentId (handleContentSelection contentId st) = st /\
  batchData (handleContentSelection contentId st) = batchData st.
Proof.
  destruct st as [data next selected url shown]. unfold handleContentSelection.
  cbn [selectedContents batchData heapNext bulkThumbnailUrl showBulkThumbnail].
  assert (forall x,
            x ∈ (if bool_decide (contentId ∈ selected)
                 then selected ∖ {[contentId]} else selected ∪ {[contentId]})
            <-> if decide (x = contentId) then x ∉ selected else x ∈ selected) as Hflip.
  { intros x. case_bool_decide as Hin.
    - rewrite elem_of_difference, elem_of_singleton.
      destruct (decide (x = contentId)) as [->|Hne]; tauto.
    - rewrite elem_of_union, elem_of_singleton.
      destruct (decide (x = contentId)) as [->|Hne]; tauto. }
  split; [exact Hflip|]. split; [|split; [|reflexivity]].
  - case_bool_decide as Hin.
    + rewrite size_difference by now apply singleton_subseteq_l.
      now rewrite size_singleton.
    + rewrite size_union by now apply disjoint_singleton_r.
      now rewrite size_singleton.
  - f_equal. apply leibniz_equiv. intros x.
    set (toggled := if bool_decide (contentId ∈ selected)
                    then selected ∖ {[contentId]} else selected ∪ {[contentId]}) in *.
    pose proof (Hflip contentId) as Hid. rewrite decide_True in Hid by reflexivity.
    case_bool_decide as Hin.
    + rewrite elem_of_difference, elem_of_singleton, Hflip.
      destruct (decide (x = contentId)) as [->|Hne]; [|tauto].
      split; [tauto|]. intros Hx. now apply Hid in Hin.
    + rewrite elem_of_union, elem_of_singleton, Hflip.
      destruct (decide (x = contentId)) as [->|Hne]; [|tauto].
      split; [|tauto]. intros _.
      destruct (decide (contentId ∈ selected)) as [Hs|Hs]; [exact Hs|].
      apply Hid in Hs. contradiction.
Qed.

End Selection.

(** ** Edits of the tree *)

Section Edits.

Implicit Types (st : editor) (t n v : Value) (d o : Draft) (g : Draft -> Draft)
  (path q : list key) (k : key).

Lemma withProps_run path (body : Draft -> outcome Draft) g o (c : Draft) :
  at_path path o = Some c -> body c = Ok (g c) ->
  fold_right withProp body path o = Ok (withinPath path g o).
Proof.
  revert o. induction path as [|k path IH]; intros o Hc Hb; simpl in Hc.
  - now injection Hc as ->.
  - destruct (child k o) as [x|] eqn:E; [|discriminate]. simpl in Hc.
    cbn [fold_right]. apply withProp_within with (c := x); [exact E|]. now apply IH.
Qed.

Lemma setBatchData_updated path (body : Draft -> outcome Draft) g st n :
  at_path path (batchData st) = Some n ->
  body (createDraft n) = Ok (g (createDraft n)) ->
  setBatchData (fold_right withProp body path) st = Ok (updated path g st).
Proof.
  intros Hn Hb. unfold setBatchData, produce.
  rewrite (withProps_run path body g _ (createDraft n)); [reflexivity | | exact Hb].
  now rewrite at_path_createDraft, Hn.
Qed.

Lemma editor_eta st :
  {| batchData := batchData st; heapNext := heapNext st;
     selectedContents := selectedContents st; bulkThumbnailUrl := bulkThumbnailUrl st;
     showBulkThumbnail := showBulkThumbnail st |} = st.
Proof. now destruct st. Qed.

(** An update that leaves the node at the path unmodified leaves the
    state as it is. *)
Lemma updated_unmodified path g st n :
  stable g -> at_path path (batchData st) = Some n ->
  modified (g (createDraft n)) = false -> updated path g st = st.
Proof.
  intros Hg Hn Hm. unfold updated.
  rewrite (withinPath_unmodified path g (batchData st) (createDraft n)); auto.
  - rewrite modified_createDraft, finalize_createDraft. apply editor_eta.
  - now rewrite at_path_createDraft, Hn.
Qed.

Lemma at_path_updated path rest g st :
  stable g ->
  at_path (path ++ rest) (batchData (updated path g st))
  = at_path path (batchData st)
      ≫= (fun n => at_path rest (finalize (heapNext st) (g (createDraft n)))).
Proof.
  intros Hg. cbn [updated batchData]. rewrite at_path_app, at_path_finalize.
  rewrite at_path_withinPath by exact Hg. rewrite at_path_createDraft.
  now destruct (at_path path (batchData st)).
Qed.

Lemma at_path_updated_diverges path q g st :
  stable g -> diverges q path ->
  at_path q (batchData (updated path g st)) = at_path q (batchData st).
Proof.
  intros Hg Hq. cbn [updated batchData]. rewrite at_path_finalize.
  rewrite at_path_diverges_withinPath by assumption.
  rewrite at_path_createDraft. destruct (at_path q (batchData st)); cbn; [|reflexivity].
  now rewrite finalize_createDraft.
Qed.


Lemma child_put_eq_adopt k d o :
  fits k o = true -> child k (adopt o k d) = Some d.
Proof.
  destruct k, o as [| | | | |[a m] props|[a m] elems]; simpl; try discriminate; intros _.
  - apply assoc_store_eq.
  - apply slot_storeAt_eq.
Qed.

Lemma subjectThumbnailPath_one k : subjectThumbnailPath [k] = None.
Proof.
  destruct k as [s|i]; [|reflexivity].
  repeat (destruct s as [|[[] [] [] [] [] [] [] []] s]; try reflexivity).
Qed.

Lemma handleBatchChange_updated field value st :
  isObject (batchData st) = true ->
  handleBatchChange field value st = Ok (updated [] (put (KField field) (VStr value)) st).
Proof.
  intros Hobj. unfold handleBatchChange.
  apply (setBatchData_updated [] _ _ st (batchData st)); [reflexivity|].
  apply assign_put. rewrite fits_createDraft. now apply isObject_fits.
Qed.

(** X11. [handleBatchChange] is [handleNestedChange] on the path of one
    field.  On a batch that is an object it sets the field to the string
    and leaves every other field, and the rest of the state, as it is;
    when the field holds that string already, the state itself comes
    back.  On a batch that is not an object or array it raises. *)
Theorem handleBatchChange_field (field value : string) (st : editor) :
  handleBatchChange field value st = handleNestedChange [KField field] (VStr value) st /\
  (address (batchData st) = None -> handleBatchChange field value st = Throw TypeError) /\
  (isObject (batchData st) = true ->
   exists st',
     handleBatchChange field value st = Ok st' /\
     child (KField field) (batchData st') = Some (VStr value) /\
     (forall f, f <> field ->
        child (KField f) (batchData st') = child (KField f) (batchData st)) /\
     (child (KField field) (batchData st) = Some (VStr value) -> st' = st) /\
     selectedContents st' = selectedContents st /\
     bulkThumbnailUrl st' = bulkThumbnailUrl st /\
     showBulkThumbnail st' = showBulkThumbnail st).
Proof.
  split; [|split].
  - unfold handleBatchChange, handleNestedChange, setBatchData, produce, nestedChange.
    rewrite subjectThumbnailPath_one.
    cbn [assignAt]. change (createDraft (VStr value)) with (VStr value : Draft).
    now destruct (assign _ _ _).
  - intros Hprim. unfold handleBatchChange, setBatchData, produce.
    now rewrite assign_primitive.
  - intros Hobj. eexists. split; [now apply handleBatchChange_updated|].
    assert (fits (KField field) (createDraft (batchData st)) = true) as Hf
      by (rewrite fits_createDraft; now apply isObject_fits).
    split; [|split; [|split; [|repeat split]]].
    + unfold updated, withinPath. cbn [batchData fold_right].
      rewrite child_finalize, child_put_eq; [reflexivity | exact Hf |].
      destruct (child (KField field) (createDraft (batchData st))) as [cur|]; [|discriminate].
      cbn. intros Hs. f_equal.
      destruct cur as [| | | | |[a m] props|[a m] elems]; try discriminate Hs.
      f_equal. now apply String.eqb_eq.
    + intros f Hne. unfold updated, withinPath. cbn [batchData fold_right].
      rewrite child_finalize, child_put_ne by (auto; congruence).
      rewrite child_createDraft. destruct (child (KField f) (batchData st)); cbn; [|reflexivity].
      now rewrite finalize_createDraft.
    + intros Hsame. apply (updated_unmodified [] _ st (batchData st));
        [apply stable_put | reflexivity |].
      unfold put. rewrite child_createDraft, Hsame. cbn. rewrite String.eqb_refl.
      apply modified_createDraft.
Qed.

Lemma handleBatchChange_field_witness :
  exists st',
    handleBatchChange "name" "Physics" exampleEditor = Ok st' /\
    child (KField "name") (batchData st') = Some (VStr "Physics").
Proof.
  destruct (handleBatchChange_field "name" "Physics" exampleEditor) as (_ & _ & H).
  destruct (H eq_refl) as (st' & Hrun & Hname & _).
  exists st'. now split.
Defined.

(** X12. Repeating a path-addressed update changes nothing: when an update
    of a path that is not the thumbnail path of a Subject gives a state,
    the same update of that state gives that state again, with no object
    copied. *)
Theorem handleNestedChange_idempotent st st' pre k n v :
  at_path pre (batchData st) = Some n ->
  fits k n = true ->
  subjectThumbnailPath (pre ++ [k]) = None ->
  handleNestedChange (pre ++ [k]) v st = Ok st' ->
  handleNestedChange (pre ++ [k]) v st' = Ok st'.
Proof.
  intros Hn Hf Hplain Hrun.
  set (g := put k (createDraft v)).
  assert (forall s m, at_path pre (batchData s) = Some m -> fits k m = true ->
            handleNestedChange (pre ++ [k]) v s = Ok (updated pre g s)) as Hupd.
  { intros s m Hm Hfm.
    rewrite (handleNestedChange_run _ _ _ _ (nestedChange_plain pre k v _ m Hplain Hm Hfm)).
    reflexivity. }
  rewrite (Hupd st n Hn Hf) in Hrun. injection Hrun as <-.
  destruct (modified (g (createDraft n))) eqn:Hm.
  - set (n1 := finalize (heapNext st) (g (createDraft n))).
    assert (at_path pre (batchData (updated pre g st)) = Some n1) as Hn1.
    { pose proof (at_path_updated pre [] g st (stable_put _ _)) as H.
      rewrite app_nil_r in H. rewrite H, Hn. reflexivity. }
    assert (child k n1 = Some v) as Hk1.
    { unfold n1, g. rewrite child_finalize. unfold put in *. fold g in Hm.
      destruct (unchanged _ _) eqn:U.
      - unfold g, put in Hm. rewrite U in Hm. now rewrite modified_createDraft in Hm.
      - rewrite (child_put_eq_adopt k (createDraft v) (createDraft n))
          by now rewrite fits_createDraft.
        cbn. now rewrite finalize_createDraft. }
    assert (fits k n1 = true) as Hf1 by (eapply child_fits; eauto).
    rewrite (Hupd _ n1 Hn1 Hf1). f_equal.
    apply (updated_unmodified pre g _ n1); [apply stable_put | exact Hn1 |].
    unfold g, put. rewrite child_createDraft, Hk1. cbn. rewrite same_refl.
    apply modified_createDraft.
  - rewrite (updated_unmodified pre g st n (stable_put _ _) Hn Hm).
    rewrite (Hupd st n Hn Hf). f_equal.
    apply (updated_unmodified pre g st n (stable_put _ _) Hn Hm).
Qed.

Lemma handleNestedChange_idempotent_witness :
  exists st',
    handleNestedChange ([KField "subjects"; KIndex 0] ++ [KField "id"]) (VStr "s9")
      exampleEditor = Ok st' /\
    handleNestedChange ([KField "subjects"; KIndex 0] ++ [KField "id"]) (VStr "s9") st'
    = Ok st'.
Proof.
  eexists. split; [reflexivity|].
  apply (handleNestedChange_idempotent exampleEditor _ [KField "subjects"; KIndex 0]
           (KField "id")
           (exampleSubject 2 "s1" "S1" [exampleContent 6 "c1" "x"; exampleContent 7 "c2" "y"])
           (VStr "s9")); reflexivity.
Defined.

End Edits.

(** ** Adding and deleting *)

Section Arrays.

Implicit Types (st : editor) (t n v : Value) (d o : Draft) (g : Draft -> Draft)
  (path q rest : list key) (k : key) (elems : list (option Value)).

Lemma stable_pushed d : stable (pushed d).
Proof. intros [| | | | |[a m] props|[a m] l]; simpl; try reflexivity; discriminate. Qed.

Lemma stable_removed i : stable (removed i).
Proof.
  intros [| | | | |[a m] props|[a m] l]; simpl; try reflexivity.
  destruct (i <? length l)%nat; [discriminate | reflexivity].
Qed.

Lemma push_pushed d a elems :
  push d (createDraft (VArr a elems)) = Ok (pushed d (createDraft (VArr a elems))).
Proof. reflexivity. Qed.

Lemma present_map {A B} (f : A -> B) (l : list (option A)) :
  forallb present (List.map (option_map f) l) = forallb present l.
Proof. induction l as [|[x|] l IH]; simpl; [reflexivity | exact IH | reflexivity]. Qed.

Lemma forallb_drop {A} (p : A -> bool) (l : list A) i :
  forallb p l = true -> forallb p (drop i l) = true.
Proof.
  revert i. induction l as [|x l IH]; intros [|i]; simpl; auto.
  intros [_ H]%andb_true_iff. now apply IH.
Qed.

Lemma splice_array i (tag : nat * bool) (l : list (option (node (nat * bool)))) :
  forallb present l = true ->
  splice i 1 (VArr tag l) = Ok (removed i (VArr tag l)).
Proof.
  intros Hdense. destruct tag as [a m]. unfold splice, removed.
  destruct (Nat.ltb_spec i (length l)) as [Hlt|Hge].
  - rewrite (Nat.min_l i) by lia. rewrite (Nat.min_l 1) by lia. cbn [Nat.eqb].
    rewrite forallb_drop by exact Hdense.
    replace (i + 1) with (S i) by lia. now rewrite <- delete_take_drop.
  - rewrite (Nat.min_r i) by lia. now rewrite Nat.sub_diag.
Qed.

Lemma splice_removed i a elems :
  forallb present elems = true ->
  splice i 1 (createDraft (VArr a elems)) = Ok (removed i (createDraft (VArr a elems))).
Proof. intros Hdense. apply splice_array. now rewrite present_map. Qed.

Lemma slot_createDraft next elems i :
  finalize next <$> slot i (List.map (option_map createDraft) elems) = slot i elems.
Proof.
  rewrite slot_map. destruct (slot i elems) as [x|]; cbn; [|reflexivity].
  f_equal. apply finalize_createDraft.
Qed.

Lemma slot_app_l {A} (l l' : list (option A)) i :
  i < length l -> slot i (l ++ l') = slot i l.
Proof. intros H. unfold slot. now rewrite lookup_app_l. Qed.

Lemma slot_app_r {A} (l l' : list (option A)) i :
  length l <= i -> slot i (l ++ l') = slot (i - length l) l'.
Proof. intros H. unfold slot. now rewrite lookup_app_r. Qed.

Lemma child_pushed next v a elems i :
  child (KIndex i) (finalize next (pushed (createDraft v) (createDraft (VArr a elems))))
  = if (i <? length elems)%nat then slot i elems
    else if (i =? length elems)%nat then Some v else None.
Proof.
  rewrite child_finalize.
  change (child (KIndex i) (pushed (createDraft v) (createDraft (VArr a elems))))
    with (slot i (List.map (option_map createDraft) elems ++ [Some (createDraft v)])).
  destruct (Nat.ltb_spec i (length elems)) as [Hlt|Hge].
  - rewrite slot_app_l by now rewrite length_map. apply slot_createDraft.
  - rewrite slot_app_r by now rewrite length_map. rewrite length_map.
    destruct (Nat.eqb_spec i (length elems)) as [->|Hne].
    + rewrite Nat.sub_diag. cbn. f_equal. apply finalize_createDraft.
    + destruct (i - length elems) as [|m] eqn:E; [lia|]. reflexivity.
Qed.

Lemma child_removed next i a elems j :
  child (KIndex j) (finalize next (removed i (createDraft (VArr a elems))))
  = if (j <? i)%nat then slot j elems else slot (S j) elems.
Proof.
  rewrite child_finalize.
  change (createDraft (VArr a elems))
    with (VArr (a, false) (List.map (option_map createDraft) elems) : Draft).
  unfold removed. rewrite length_map.
  destruct (Nat.ltb_spec i (length elems)) as [Hlt|Hge]; cbn [child].
  - rewrite <- !slot_createDraft with (next := next). f_equal. unfold slot.
    destruct (Nat.ltb_spec j i) as [Hj|Hj].
    + now rewrite list_lookup_delete_lt.
    + now rewrite list_lookup_delete_ge.
  - rewrite slot_createDraft. destruct (Nat.ltb_spec j i) as [Hj|Hj]; [reflexivity|].
    unfold slot. now rewrite !lookup_ge_None_2 by lia.
Qed.

Lemma removed_past i a elems :
  length elems <= i -> removed i (createDraft (VArr a elems)) = createDraft (VArr a elems).
Proof.
  intros H.
  change (createDraft (VArr a elems))
    with (VArr (a, false) (List.map (option_map createDraft) elems) : Draft).
  unfold removed. rewrite length_map.
  destruct (Nat.ltb_spec i (length elems)); [lia | reflexivity].
Qed.

(** What adding an element to the array at [path] leaves: the element
    after the others, which are where they were, and everything off the
    path. *)
Lemma updated_pushed path v st a elems :
  at_path path (batchData st) = Some (VArr a elems) ->
  let st' := updated path (pushed (createDraft v)) st in
  at_path (path ++ [KIndex (length elems)]) (batchData st') = Some v /\
  (forall i rest, i < length elems ->
     at_path (path ++ KIndex i :: rest) (batchData st')
     = at_path (path ++ KIndex i :: rest) (batchData st)) /\
  (forall i rest, length elems < i ->
     at_path (path ++ KIndex i :: rest) (batchData st') = None) /\
  (forall q, diverges q path -> at_path q (batchData st') = at_path q (batchData st)).
Proof.
  intros Harr st'.
  assert (forall i rest,
            at_path (path ++ KIndex i :: rest) (batchData st')
            = (if (i <? length elems)%nat then slot i elems
               else if (i =? length elems)%nat then Some v else None) ≫= at_path rest) as H.
  { intros i rest. unfold st'. rewrite at_path_updated by apply stable_pushed.
    rewrite Harr. cbn [mbind option_bind at_path]. now rewrite child_pushed. }
  split; [|split; [|split]].
  - rewrite H. rewrite Nat.ltb_irrefl, Nat.eqb_refl. reflexivity.
  - intros i rest Hi. rewrite H, at_path_app, Harr.
    now rewrite (proj2 (Nat.ltb_lt _ _) Hi).
  - intros i rest Hi. rewrite H.
    rewrite (proj2 (Nat.ltb_ge _ _)) by lia.
    now rewrite (proj2 (Nat.eqb_neq _ _)) by lia.
  - intros q Hq. now apply at_path_updated_diverges; [apply stable_pushed|].
Qed.

(** What deleting the element at index [i] of the array at [path]
    leaves: the elements before it where they were, those after it one
    place down, and everything off the path; at an index past the end it
    leaves the state itself. *)
Lemma updated_removed path i st a elems :
  at_path path (batchData st) = Some (VArr a elems) ->
  let st' := updated path (removed i) st in
  (forall j rest, j < i ->
     at_path (path ++ KIndex j :: rest) (batchData st')
     = at_path (path ++ KIndex j :: rest) (batchData st)) /\
  (forall j rest, i <= j ->
     at_path (path ++ KIndex j :: rest) (batchData st')
     = at_path (path ++ KIndex (S j) :: rest) (batchData st)) /\
  (forall q, diverges q path -> at_path q (batchData st') = at_path q (batchData st)) /\
  (length elems <= i -> st' = st).
Proof.
  intros Harr st'.
  assert (forall j rest,
            at_path (path ++ KIndex j :: rest) (batchData st')
            = (if (j <? i)%nat then slot j elems else slot (S j) elems) ≫= at_path rest) as H.
  { intros j rest. unfold st'. rewrite at_path_updated by apply stable_removed.
    rewrite Harr. cbn [mbind option_bind at_path]. now rewrite child_removed. }
  split; [|split; [|split]].
  - intros j rest Hj. rewrite H, at_path_app, Harr.
    now rewrite (proj2 (Nat.ltb_lt _ _) Hj).
  - intros j rest Hj. rewrite H, at_path_app, Harr.
    now rewrite (proj2 (Nat.ltb_ge _ _)) by lia.
  - intros q Hq. now apply at_path_updated_diverges; [apply stable_removed|].
  - intros Hi. apply (updated_unmodified path _ st (VArr a elems));
      [apply stable_removed | exact Harr |].
    rewrite removed_past by exact Hi. apply modified_createDraft.
Qed.


Lemma at_path_one {T} k (t : node T) : at_path [k] t = child k t.
Proof. cbn [at_path]. now destruct (child k t). Qed.

Lemma getProp_field {T} s (o : node T) :
  inherited s = false ->
  isObject o = true -> getProp o (KField s) = Ok (default VUndef (child (KField s) o)).
Proof. intros Hs Ho. destruct o; try discriminate. now apply getProp_own. Qed.

Lemma child_isObject {T} s (o c : node T) : child (KField s) o = Some c -> isObject o = true.
Proof. destruct o; simpl; try discriminate; reflexivity. Qed.

Lemma withProp_missing k (body : Draft -> outcome Draft) o :
  getProp o k = Ok VUndef -> body VUndef = Throw TypeError ->
  withProp k body o = Throw TypeError.
Proof. intros Hk Hb. unfold withProp. rewrite Hk. cbn. now rewrite Hb. Qed.

Lemma setBatchData_raises (recipe : Draft -> outcome Draft) st e :
  recipe (createDraft (batchData st)) = Throw e -> setBatchData recipe st = Throw e.
Proof. intros H. unfold setBatchData, produce. now rewrite H. Qed.

Lemma getProp_createDraft t k : getProp (createDraft t) k = createDraft <$> getProp t k.
Proof. apply getProp_tmap. Qed.

Lemma withProp_raises k (body : Draft -> outcome Draft) o (c : Draft) e :
  child k o = Some c -> body c = Throw e -> withProp k body o = Throw e.
Proof.
  intros Hc Hb. unfold withProp. rewrite (getProp_child _ _ _ Hc). cbn. now rewrite Hb.
Qed.

Lemma withProps_raises path (body : Draft -> outcome Draft) o (x : Draft) e :
  at_path path o = Some x -> body x = Throw e ->
  fold_right withProp body path o = Throw e.
Proof.
  revert o. induction path as [|k path IH]; intros o Hx Hb; simpl in Hx.
  - now injection Hx as ->.
  - destruct (child k o) as [c|] eqn:E; [|discriminate]. simpl in Hx.
    cbn [fold_right]. apply withProp_raises with (c := c); [exact E|]. now apply IH.
Qed.

(** A recipe that goes down [path] raises when a segment of it reads
    undefined. *)
Lemma chain_missing path (body : Draft -> outcome Draft) st pre k rest x :
  path = pre ++ k :: rest ->
  at_path pre (batchData st) = Some x ->
  getProp x k = Ok VUndef ->
  body VUndef = Throw TypeError ->
  setBatchData (fold_right withProp body path) st = Throw TypeError.
Proof.
  intros -> Hx Hk Hb. apply setBatchData_raises. rewrite fold_right_app.
  apply withProps_raises with (x := createDraft x); [now rewrite at_path_createDraft, Hx|].
  cbn [fold_right]. apply withProp_missing; [now rewrite getProp_createDraft, Hk|].
  destruct rest as [|k' rest]; [exact Hb | reflexivity].
Qed.

(** X13. [addSubject] puts the new Subject after the Subjects there are,
    which stay the objects they were, and changes nothing else; on a
    batch without [subjects] it raises. *)
Theorem addSubject_appends (id : string) (st : editor) :
  (forall a subjects,
     child (KField "subjects") (batchData st) = Some (VArr a subjects) ->
     exists st',
       addSubject id st = Ok st' /\
       at_path (subjectPath (length subjects)) (batchData st')
       = Some (newSubject (heapNext st) id) /\
       (forall i rest, i < length subjects ->
          at_path (subjectPath i ++ rest) (batchData st')
          = at_path (subjectPath i ++ rest) (batchData st)) /\
       (forall i rest, length subjects < i ->
          at_path (subjectPath i ++ rest) (batchData st') = None) /\
       (forall q, diverges q [KField "subjects"] ->
          at_path q (batchData st') = at_path q (batchData st)) /\
       selectedContents st' = selectedContents st) /\
  (getProp (batchData st) (KField "subjects") = Ok VUndef ->
   addSubject id st = Throw TypeError).
Proof.
  split.
  - intros a subjects Hsubjects.
    set (new := newSubject (heapNext st) id).
    assert (at_path [KField "subjects"] (batchData (allocate 2 st)) = Some (VArr a subjects))
      as Harr by (rewrite at_path_one; exact Hsubjects).
    destruct (updated_pushed [KField "subjects"] new (allocate 2 st) a subjects Harr)
      as (Hnew & Hold & Hpast & Hoff).
    exists (updated [KField "subjects"] (pushed (createDraft new)) (allocate 2 st)).
    split; [|repeat split; assumption].
    apply (setBatchData_updated [KField "subjects"] _ _ _ (VArr a subjects) Harr).
    apply push_pushed.
  - intros Hmissing.
    apply (chain_missing [KField "subjects"] _ (allocate 2 st) [] (KField "subjects") []
             (batchData st)); auto.
Qed.

Lemma addSubject_appends_witness :
  exists st',
    addSubject "s3" exampleEditor = Ok st' /\
    at_path (subjectPath 2) (batchData st') = Some (newSubject 13 "s3").
Proof.
  destruct (addSubject_appends "s3" exampleEditor) as [H _].
  destruct (H 1 [Some (exampleSubject 2 "s1" "S1"
                         [exampleContent 6 "c1" "x"; exampleContent 7 "c2" "y"]);
                 Some (exampleSubject 8 "s2" "S2" [exampleContent 12 "c3" "x"])] eq_refl)
    as (st' & Hrun & Hnew & _).
  exists st'. split; [exact Hrun | exact Hnew].
Defined.

(** X14. [addSection] puts the new Section after the Sections of the Subject,
    which stay the objects they were, and changes nothing off the path
    to them; it raises when the Subject or its [sections] is missing. *)
Theorem addSection_appends (id : string) (subjectIndex : nat) (st : editor) :
  (forall a sections,
     at_path (sectionsPath subjectIndex) (batchData st) = Some (VArr a sections) ->
     exists st',
       addSection id subjectIndex st = Ok st' /\
       at_path (sectionPath subjectIndex (length sections)) (batchData st')
       = Some (newSection (heapNext st) id) /\
       (forall j rest, j < length sections ->
          at_path (sectionPath subjectIndex j ++ rest) (batchData st')
          = at_path (sectionPath subjectIndex j ++ rest) (batchData st)) /\
       (forall j rest, length sections < j ->
          at_path (sectionPath subjectIndex j ++ rest) (batchData st') = None) /\
       (forall q, diverges q (sectionsPath subjectIndex) ->
          at_path q (batchData st') = at_path q (batchData st)) /\
       selectedContents st' = selectedContents st) /\
  (forall pre k rest x,
     sectionsPath subjectIndex = pre ++ k :: rest ->
     at_path pre (batchData st) = Some x ->
     getProp x k = Ok VUndef ->
     addSection id subjectIndex st = Throw TypeError).
Proof.
  split.
  - intros a sections Harr.
    set (new := newSection (heapNext st) id).
    destruct (updated_pushed (sectionsPath subjectIndex) new (allocate 2 st) a sections Harr)
      as (Hnew & Hold & Hpast & Hoff).
    exists (updated (sectionsPath subjectIndex) (pushed (createDraft new)) (allocate 2 st)).
    split; [|split; [exact Hnew|]; split; [|split; [|split; [exact Hoff | reflexivity]]]].
    + apply (setBatchData_updated (sectionsPath subjectIndex) _ _ (allocate 2 st)
               (VArr a sections) Harr).
      apply push_pushed.
    + intros j rest Hj. unfold sectionPath. rewrite <- !app_assoc. now apply Hold.
    + intros j rest Hj. unfold sectionPath. rewrite <- !app_assoc. now apply Hpast.
  - intros pre k rest x Hsplit Hx Hk.
    apply (chain_missing (sectionsPath subjectIndex) _ (allocate 2 st) pre k rest x); auto.
Qed.

Lemma addSection_appends_witness :
  exists st',
    addSection "n1" 1 exampleEditor = Ok st' /\
    at_path (sectionPath 1 1) (batchData st') = Some (newSection 13 "n1").
Proof.
  destruct (addSection_appends "n1" 1 exampleEditor) as [H _].
  destruct (H 9 [Some (VObj 10 [("name", VStr "Lectures"); ("type", VStr "video");
                                ("contents", VArr 11 [Some (exampleContent 12 "c3" "x")])])]
              eq_refl) as (st' & Hrun & Hnew & _).
  exists st'. split; [exact Hrun | exact Hnew].
Defined.


Lemma getProp_defined {T} (x y : node T) k k' :
  inherits (arrayMembers ++ stringMembers ++ numberMembers) (keyName k') = false ->
  getProp x k = Ok y -> exists y', getProp x k' = Ok y'.
Proof.
  unfold inherits. rewrite !existsb_app.
  intros [[Ha [Hs Hn]%orb_false_iff]%orb_false_iff Hi]%orb_false_iff.
  destruct x; cbn [getProp]; try discriminate; intros _; unfold inherits.
  - rewrite Hi. cbn. eauto.
  - rewrite Hn, Hi. cbn. eauto.
  - destruct (keyIndex k'); [eauto|]. destruct (String.eqb _ _); [eauto|].
    rewrite Hs, Hi. cbn. eauto.
  - destruct (assoc _ _); [eauto|]. rewrite Hi. eauto.
  - destruct (keyIndex k'); [eauto|]. destruct (String.eqb _ _); [eauto|].
    rewrite Ha, Hi. cbn. eauto.
Qed.

Lemma at_path_cons_inv {T} k path (t x : node T) :
  at_path (k :: path) t = Some x -> exists c, child k t = Some c /\ at_path path c = Some x.
Proof.
  cbn [at_path]. destruct (child k t) as [c|]; [|discriminate]. cbn. eauto.
Qed.

Lemma at_path_contents_array subjectIndex sectionIndex t (section : Value) a contents :
  at_path (sectionPath subjectIndex sectionIndex) t = Some section ->
  child (KField "contents") section = Some (VArr a contents) ->
  at_path (contentsPath subjectIndex sectionIndex) t = Some (VArr a contents).
Proof.
  intros Hsection Hcontents. unfold contentsPath.
  rewrite at_path_app, Hsection. cbn [mbind option_bind]. now rewrite at_path_one.
Qed.

Lemma addContent_updated id subjectIndex sectionIndex st (subject section : Value) a contents :
  at_path (subjectPath subjectIndex) (batchData st) = Some subject ->
  at_path (sectionPath subjectIndex sectionIndex) (batchData st) = Some section ->
  child (KField "contents") section = Some (VArr a contents) ->
  addContent id subjectIndex sectionIndex st
  = Ok (updated (contentsPath subjectIndex sectionIndex)
          (pushed (createDraft
                     (newContent (heapNext st) id
                        (default VUndef (child (KField "type") section))
                        (default VUndef (child (KField "thumbnail") subject)))))
          (allocate 1 st)).
Proof.
  intros Hsubject Hsection Hcontents.
  pose proof Hsubject as Hs. unfold subjectPath in Hs.
  apply at_path_cons_inv in Hs as (subjects & Hsubjects & Hs).
  rewrite at_path_one in Hs.
  pose proof Hsection as Hsec. unfold sectionPath, sectionsPath in Hsec.
  rewrite <- app_assoc, at_path_app, Hsubject in Hsec. cbn [mbind option_bind app] in Hsec.
  apply at_path_cons_inv in Hsec as (sections & Hsections & Hsec).
  rewrite at_path_one in Hsec.
  unfold addContent.
  rewrite (getProp_child _ _ _ Hsubjects). cbn [mbind outcome_bind].
  rewrite (getProp_child _ _ _ Hs). cbn [mbind outcome_bind].
  rewrite (getProp_child _ _ _ Hsections). cbn [mbind outcome_bind].
  rewrite (getProp_child _ _ _ Hsec). cbn [mbind outcome_bind].
  rewrite (getProp_field "type" section eq_refl) by (eapply child_isObject; eauto).
  cbn [mbind outcome_bind].
  rewrite (getProp_field "thumbnail" subject eq_refl) by (eapply child_isObject; eauto).
  cbn [mbind outcome_bind].
  apply (setBatchData_updated (contentsPath subjectIndex sectionIndex) _ _ (allocate 1 st)
           (VArr a contents)); [|apply push_pushed].
  now apply at_path_contents_array with (section := section).
Qed.

Lemma addContent_missing id subjectIndex sectionIndex st pre k rest (x : Value) :
  contentsPath subjectIndex sectionIndex = pre ++ k :: rest ->
  at_path pre (batchData st) = Some x ->
  getProp x k = Ok VUndef ->
  addContent id subjectIndex sectionIndex st = Throw TypeError.
Proof.
  intros Hsplit Hx Hk. unfold addContent.
  unfold contentsPath, sectionPath, sectionsPath, subjectPath in Hsplit.
  cbn [app] in Hsplit.
  destruct pre as [|k0 pre]; cbn [app] in Hsplit; injection Hsplit as <- Hsplit.
  { cbn [at_path] in Hx. injection Hx as <-. now rewrite Hk. }
  apply at_path_cons_inv in Hx as (subjects & Hsubjects & Hx).
  rewrite (getProp_child _ _ _ Hsubjects). cbn [mbind outcome_bind].
  destruct pre as [|k1 pre]; cbn [app] in Hsplit; injection Hsplit as <- Hsplit.
  { cbn [at_path] in Hx. injection Hx as <-. now rewrite Hk. }
  apply at_path_cons_inv in Hx as (subject & Hsubject & Hx).
  rewrite (getProp_child _ _ _ Hsubject). cbn [mbind outcome_bind].
  destruct pre as [|k2 pre]; cbn [app] in Hsplit; injection Hsplit as <- Hsplit.
  { cbn [at_path] in Hx. injection Hx as <-. now rewrite Hk. }
  apply at_path_cons_inv in Hx as (sections & Hsections & Hx).
  rewrite (getProp_child _ _ _ Hsections). cbn [mbind outcome_bind].
  destruct pre as [|k3 pre]; cbn [app] in Hsplit; injection Hsplit as <- Hsplit.
  { cbn [at_path] in Hx. injection Hx as <-. now rewrite Hk. }
  apply at_path_cons_inv in Hx as (section & Hsection & Hx).
  rewrite (getProp_child _ _ _ Hsection). cbn [mbind outcome_bind].
  destruct pre as [|k4 pre]; cbn [app] in Hsplit; injection Hsplit as <- Hsplit;
    [|now destruct pre].
  cbn [at_path] in Hx. injection Hx as <-. subst rest.
  destruct (getProp_defined section VUndef (KField "contents") (KField "type") eq_refl Hk)
    as [type ->].
  cbn [mbind outcome_bind].
  rewrite (getProp_field "thumbnail" subject eq_refl) by (eapply child_isObject; eauto).
  cbn [mbind outcome_bind].
  apply (chain_missing (contentsPath subjectIndex sectionIndex) _ (allocate 1 st)
           (sectionPath subjectIndex sectionIndex) (KField "contents") [] section);
    try reflexivity; [|exact Hk].
  change (batchData (allocate 1 st)) with (batchData st).
  unfold sectionPath, sectionsPath, subjectPath. cbn [app at_path].
  rewrite Hsubjects. cbn [mbind option_bind]. rewrite Hsubject. cbn [mbind option_bind].
  rewrite Hsections. cbn [mbind option_bind]. now rewrite Hsection.
Qed.

(** X15. [addContent] puts the new Content after the Contents of the
    Section, which stay the objects they were, and changes nothing off
    the path to them.  The new Content has the type of the Section and
    the thumbnail of the Subject, as they are when it is added.  When the
    Subject, the Section or its [contents] is missing, it raises. *)
Theorem addContent_appends (id : string) (subjectIndex sectionIndex : nat) (st : editor) :
  (forall subject section a contents,
     at_path (subjectPath subjectIndex) (batchData st) = Some subject ->
     at_path (sectionPath subjectIndex sectionIndex) (batchData st) = Some section ->
     child (KField "contents") section = Some (VArr a contents) ->
     exists st',
       addContent id subjectIndex sectionIndex st = Ok st' /\
       at_path (contentPath subjectIndex sectionIndex (length contents)) (batchData st')
       = Some (newContent (heapNext st) id
                 (default VUndef (child (KField "type") section))
                 (default VUndef (child (KField "thumbnail") subject))) /\
       (forall m rest, m < length contents ->
          at_path (contentPath subjectIndex sectionIndex m ++ rest) (batchData st')
          = at_path (contentPath subjectIndex sectionIndex m ++ rest) (batchData st)) /\
       (forall m rest, length contents < m ->
          at_path (contentPath subjectIndex sectionIndex m ++ rest) (batchData st') = None) /\
       (forall q, diverges q (contentsPath subjectIndex sectionIndex) ->
          at_path q (batchData st') = at_path q (batchData st)) /\
       selectedContents st' = selectedContents st) /\
  (forall pre k rest x,
     contentsPath subjectIndex sectionIndex = pre ++ k :: rest ->
     at_path pre (batchData st) = Some x ->
     getProp x k = Ok VUndef ->
     addContent id subjectIndex sectionIndex st = Throw TypeError).
Proof.
  split; [|intros pre k rest x; apply addContent_missing].
  intros subject section a contents Hsubject Hsection Hcontents.
  pose proof (at_path_contents_array subjectIndex sectionIndex (batchData (allocate 1 st))
                section a contents Hsection Hcontents) as Harr.
  set (new := newContent (heapNext st) id
                (default VUndef (child (KField "type") section))
                (default VUndef (child (KField "thumbnail") subject))).
  destruct (updated_pushed (contentsPath subjectIndex sectionIndex) new (allocate 1 st)
              a contents Harr) as (Hnew & Hold & Hpast & Hoff).
  exists (updated (contentsPath subjectIndex sectionIndex) (pushed (createDraft new))
            (allocate 1 st)).
  split; [|split; [exact Hnew|]; split; [|split; [|split; [exact Hoff | reflexivity]]]].
  - now apply addContent_updated with (a := a) (contents := contents).
  - intros m rest Hm.
    change (contentPath subjectIndex sectionIndex m ++ rest)
      with (contentsPath subjectIndex sectionIndex ++ KIndex m :: rest).
    now apply Hold.
  - intros m rest Hm.
    change (contentPath subjectIndex sectionIndex m ++ rest)
      with (contentsPath subjectIndex sectionIndex ++ KIndex m :: rest).
    now apply Hpast.
Qed.

Lemma addContent_appends_witness :
  exists st',
    addContent "c9" 1 0 exampleEditor = Ok st' /\
    at_path (contentPath 1 0 1) (batchData st')
    = Some (newContent 13 "c9" (VStr "video") (VStr "S2")).
Proof.
  destruct (addContent_appends "c9" 1 0 exampleEditor) as [H _].
  destruct (H (exampleSubject 8 "s2" "S2" [exampleContent 12 "c3" "x"])
              (VObj 10 [("name", VStr "Lectures"); ("type", VStr "video");
                        ("contents", VArr 11 [Some (exampleContent 12 "c3" "x")])])
              11 [Some (exampleContent 12 "c3" "x")] eq_refl eq_refl eq_refl)
    as (st' & Hrun & Hnew & _).
  exists st'. split; [exact Hrun | exact Hnew].
Defined.


(** X16. [deleteContent] takes the Content at the index out of the Section:
    the Contents before it stay where they are, those after it move one
    place down, all of them the objects they were, and nothing off the
    path changes.  An index past the end gives the state itself.  The
    selection is left as it is, also when it names the deleted Content.
    When the Subject, the Section or its [contents] is missing, it
    raises. *)
Theorem deleteContent_removes (subjectIndex sectionIndex contentIndex : nat) (st : editor) :
  (forall a contents,
     at_path (contentsPath subjectIndex sectionIndex) (batchData st)
     = Some (VArr a contents) ->
     forallb present contents = true ->
     exists st',
       deleteContent subjectIndex sectionIndex contentIndex st = Ok st' /\
       (forall m rest, m < contentIndex ->
          at_path (contentPath subjectIndex sectionIndex m ++ rest) (batchData st')
          = at_path (contentPath subjectIndex sectionIndex m ++ rest) (batchData st)) /\
       (forall m rest, contentIndex <= m ->
          at_path (contentPath subjectIndex sectionIndex m ++ rest) (batchData st')
          = at_path (contentPath subjectIndex sectionIndex (S m) ++ rest) (batchData st)) /\
       (forall q, diverges q (contentsPath subjectIndex sectionIndex) ->
          at_path q (batchData st') = at_path q (batchData st)) /\
       (length contents <= contentIndex -> st' = st) /\
       selectedContents st' = selectedContents st) /\
  (forall pre k rest x,
     contentsPath subjectIndex sectionIndex = pre ++ k :: rest ->
     at_path pre (batchData st) = Some x ->
     getProp x k = Ok VUndef ->
     deleteContent subjectIndex sectionIndex contentIndex st = Throw TypeError).
Proof.
  split.
  - intros a contents Harr Hdense.
    destruct (updated_removed (contentsPath subjectIndex sectionIndex) contentIndex st
                a contents Harr) as (Hbefore & Hafter & Hoff & Hpast).
    exists (updated (contentsPath subjectIndex sectionIndex) (removed contentIndex) st).
    split; [|split; [|split; [|split; [exact Hoff | split; [exact Hpast | reflexivity]]]]].
    + apply (setBatchData_updated (contentsPath subjectIndex sectionIndex) _ _ st
               (VArr a contents) Harr).
      now apply splice_removed.
    + intros m rest Hm.
      change (contentPath subjectIndex sectionIndex m ++ rest)
        with (contentsPath subjectIndex sectionIndex ++ KIndex m :: rest).
      now apply Hbefore.
    + intros m rest Hm.
      change (contentPath subjectIndex sectionIndex m ++ rest)
        with (contentsPath subjectIndex sectionIndex ++ KIndex m :: rest).
      change (contentPath subjectIndex sectionIndex (S m) ++ rest)
        with (contentsPath subjectIndex sectionIndex ++ KIndex (S m) :: rest).
      now apply Hafter.
  - intros pre k rest x Hsplit Hx Hk.
    apply (chain_missing (contentsPath subjectIndex sectionIndex) _ st pre k rest x); auto.
Qed.

Lemma deleteContent_removes_witness :
  exists st',
    deleteContent 0 0 0 exampleEditor = Ok st' /\
    at_path (contentPath 0 0 0) (batchData st') = Some (exampleContent 7 "c2" "y") /\
    at_path (contentPath 0 0 1) (batchData st') = None.
Proof.
  destruct (deleteContent_removes 0 0 0 exampleEditor) as [H _].
  destruct (H 5 [Some (exampleContent 6 "c1" "x"); Some (exampleContent 7 "c2" "y")]
              eq_refl eq_refl) as (st' & Hrun & _ & Hafter & _).
  exists st'. split; [exact Hrun|]. split.
  - apply (Hafter 0 []). lia.
  - apply (Hafter 1 []). lia.
Defined.

(** X17. [deleteSubject] does nothing when the question is answered with no.
    Otherwise it takes the Subject at the index out of the batch: the
    Subjects before it stay where they are, those after it move one
    place down, and nothing else of the batch changes; the view goes
    back to the Subjects when the deleted index is the selected one.  An
    index past the end gives the batch itself.  On a batch without
    [subjects] it raises. *)
Theorem deleteSubject_removes (subjectIndex : nat) (st : editor) (nav : navigation) :
  deleteSubject false subjectIndex st nav = Ok (st, nav) /\
  (forall a subjects,
     child (KField "subjects") (batchData st) = Some (VArr a subjects) ->
     forallb present subjects = true ->
     exists st',
       deleteSubject true subjectIndex st nav
       = Ok (st',
             if decide (selectedSubjectIndex nav = Some subjectIndex)
             then {| currentView := view_subjects;
                     selectedSubjectIndex := None;
                     selectedSectionIndex := selectedSectionIndex nav |}
             else nav) /\
       (forall m rest, m < subjectIndex ->
          at_path (subjectPath m ++ rest) (batchData st')
          = at_path (subjectPath m ++ rest) (batchData st)) /\
       (forall m rest, subjectIndex <= m ->
          at_path (subjectPath m ++ rest) (batchData st')
          = at_path (subjectPath (S m) ++ rest) (batchData st)) /\
       (forall q, diverges q [KField "subjects"] ->
          at_path q (batchData st') = at_path q (batchData st)) /\
       (length subjects <= subjectIndex -> st' = st) /\
       selectedContents st' = selectedContents st) /\
  (getProp (batchData st) (KField "subjects") = Ok VUndef ->
   deleteSubject true subjectIndex st nav = Throw TypeError).
Proof.
  split; [reflexivity|]. split.
  - intros a subjects Hsubjects Hdense.
    assert (at_path [KField "subjects"] (batchData st) = Some (VArr a subjects)) as Harr
      by (rewrite at_path_one; exact Hsubjects).
    destruct (updated_removed [KField "subjects"] subjectIndex st a subjects Harr)
      as (Hbefore & Hafter & Hoff & Hpast).
    exists (updated [KField "subjects"] (removed subjectIndex) st).
    split; [|repeat split; assumption].
    unfold deleteSubject.
    assert (setBatchData (withProp (KField "subjects") (splice subjectIndex 1)) st
            = Ok (updated [KField "subjects"] (removed subjectIndex) st)) as ->;
      [|reflexivity].
    apply (setBatchData_updated [KField "subjects"] _ (removed subjectIndex) st
             (VArr a subjects) Harr).
    now apply splice_removed.
  - intros Hmissing. unfold deleteSubject.
    assert (setBatchData (withProp (KField "subjects") (splice subjectIndex 1)) st
            = Throw TypeError) as ->; [|reflexivity].
    apply (chain_missing [KField "subjects"] _ st [] (KField "subjects") []
             (batchData st)); auto.
Qed.

Lemma deleteSubject_removes_witness :
  exists st',
    deleteSubject true 0 exampleEditor
      {| currentView := view_sections; selectedSubjectIndex := Some 0;
         selectedSectionIndex := None |}
    = Ok (st', {| currentView := view_subjects; selectedSubjectIndex := None;
                  selectedSectionIndex := None |}) /\
    at_path (subjectPath 0) (batchData st')
    = Some (exampleSubject 8 "s2" "S2" [exampleContent 12 "c3" "x"]).
Proof.
  destruct (deleteSubject_removes 0 exampleEditor
              {| currentView := view_sections; selectedSubjectIndex := Some 0;
                 selectedSectionIndex := None |}) as (_ & H & _).
  destruct (H 1 [Some (exampleSubject 2 "s1" "S1"
                         [exampleContent 6 "c1" "x"; exampleContent 7 "c2" "y"]);
                 Some (exampleSubject 8 "s2" "S2" [exampleContent 12 "c3" "x"])]
              eq_refl eq_refl) as (st' & Hrun & _ & Hafter & _).
  exists st'. split; [exact Hrun|]. apply (Hafter 0 []). lia.
Defined.

(** X18. [deleteSection] does nothing when the question is answered with no.
    Otherwise it takes the Section at the index out of the Subject: the
    Sections before it stay where they are, those after it move one
    place down, and nothing off the path changes; the view goes back to
    the Sections when the deleted index is the selected one.  An index
    past the end gives the batch itself.  When the Subject or its
    [sections] is missing, it raises. *)
Theorem deleteSection_removes (subjectIndex sectionIndex : nat) (st : editor)
    (nav : navigation) :
  deleteSection false subjectIndex sectionIndex st nav = Ok (st, nav) /\
  (forall a sections,
     at_path (sectionsPath subjectIndex) (batchData st) = Some (VArr a sections) ->
     forallb present sections = true ->
     exists st',
       deleteSection true subjectIndex sectionIndex st nav
       = Ok (st',
             if decide (selectedSectionIndex nav = Some sectionIndex)
             then {| currentView := view_sections;
                     selectedSubjectIndex := selectedSubjectIndex nav;
                     selectedSectionIndex := None |}
             else nav) /\
       (forall m rest, m < sectionIndex ->
          at_path (sectionPath subjectIndex m ++ rest) (batchData st')
          = at_path (sectionPath subjectIndex m ++ rest) (batchData st)) /\
       (forall m rest, sectionIndex <= m ->
          at_path (sectionPath subjectIndex m ++ rest) (batchData st')
          = at_path (sectionPath subjectIndex (S m) ++ rest) (batchData st)) /\
       (forall q, diverges q (sectionsPath subjectIndex) ->
          at_path q (batchData st') = at_path q (batchData st)) /\
       (length sections <= sectionIndex -> st' = st) /\
       selectedContents st' = selectedContents st) /\
  (forall pre k rest x,
     sectionsPath subjectIndex = pre ++ k :: rest ->
     at_path pre (batchData st) = Some x ->
     getProp x k = Ok VUndef ->
     deleteSection true subjectIndex sectionIndex st nav = Throw TypeError).
Proof.
  split; [reflexivity|]. split.
  - intros a sections Harr Hdense.
    destruct (updated_removed (sectionsPath subjectIndex) sectionIndex st a sections Harr)
      as (Hbefore & Hafter & Hoff & Hpast).
    exists (updated (sectionsPath subjectIndex) (removed sectionIndex) st).
    split; [|split; [|split; [|split; [exact Hoff | split; [exact Hpast | reflexivity]]]]].
    + unfold deleteSection.
      assert (setBatchData
                (withProp (KField "subjects") (withProp (KIndex subjectIndex)
                   (withProp (KField "sections") (splice sectionIndex 1)))) st
              = Ok (updated (sectionsPath subjectIndex) (removed sectionIndex) st)) as ->;
        [|reflexivity].
      apply (setBatchData_updated (sectionsPath subjectIndex) _ (removed sectionIndex) st
               (VArr a sections) Harr).
      now apply splice_removed.
    + intros m rest Hm. unfold sectionPath. rewrite <- !app_assoc. now apply Hbefore.
    + intros m rest Hm. unfold sectionPath. rewrite <- !app_assoc. now apply Hafter.
  - intros pre k rest x Hsplit Hx Hk. unfold deleteSection.
    assert (setBatchData
              (withProp (KField "subjects") (withProp (KIndex subjectIndex)
                 (withProp (KField "sections") (splice sectionIndex 1)))) st
            = Throw TypeError) as ->; [|reflexivity].
    apply (chain_missing (sectionsPath subjectIndex) _ st pre k rest x); auto.
Qed.

Lemma deleteSection_removes_witness :
  exists st',
    deleteSection true 0 0 exampleEditor
      {| currentView := view_contents; selectedSubjectIndex := Some 0;
         selectedSectionIndex := Some 0 |}
    = Ok (st', {| currentView := view_sections; selectedSubjectIndex := Some 0;
                  selectedSectionIndex := None |}) /\
    at_path (sectionPath 0 0) (batchData st') = None.
Proof.
  destruct (deleteSection_removes 0 0 exampleEditor
              {| currentView := view_contents; selectedSubjectIndex := Some 0;
                 selectedSectionIndex := Some 0 |}) as (_ & H & _).
  destruct (H 3 [Some (VObj 4 [("name", VStr "Lectures"); ("type", VStr "video");
                               ("contents",
                                 VArr 5 [Some (exampleContent 6 "c1" "x");
                                         Some (exampleContent 7 "c2" "y")])])]
              eq_refl eq_refl) as (st' & Hrun & _ & Hafter & _).
  exists st'. split; [exact Hrun|]. apply (Hafter 0 []). lia.
Defined.

End Arrays.

(** ** The shape of the batch *)

Section KeptShapes.

Implicit Types (st : editor) (t : Value) (d o c : Draft) (g : Draft -> Draft)
  (shape : Draft -> bool).

Lemma isBatch_tmap {T U} (f : T -> U) (v : node T) : isBatch (tmap f v) = isBatch v.
Proof. apply hasField_tmap. intros c. apply arrayOf_tmap, isSubject_tmap. Qed.

Lemma forallb_insert {A} (p : A -> bool) (l : list A) i x :
  forallb p l = true -> p x = true -> forallb p (<[i := x]> l) = true.
Proof.
  revert i. induction l as [|y l IH]; intros [|i]; simpl; auto.
  - intros [_ H]%andb_true_iff Hx. now rewrite Hx.
  - intros [Hy H]%andb_true_iff Hx. rewrite Hy. now apply IH.
Qed.

Lemma forallb_delete {A} (p : A -> bool) (l : list A) i :
  forallb p l = true -> forallb p (delete i l) = true.
Proof.
  revert i. induction l as [|y l IH]; intros [|i]; simpl; auto.
  - now intros [_ H]%andb_true_iff.
  - intros [Hy H]%andb_true_iff. rewrite Hy. now apply IH.
Qed.

Lemma keeps_within_field s shape g :
  keeps shape g -> keeps (hasField s shape) (within (KField s) g).
Proof.
  intros Hg o Ho. unfold within.
  destruct (hasField_child s shape o Ho) as (c & Hc & Hshape). rewrite Hc.
  destruct (modified (g c)); [|exact Ho].
  destruct o as [| | | | |[a m] props|[a m] elems]; try discriminate.
  cbn [adopt keyName hasField]. rewrite assoc_store_eq. cbn. now apply Hg.
Qed.

Lemma keeps_within_other s s' shape g :
  s <> s' -> keeps (hasField s shape) (within (KField s') g).
Proof.
  intros Hne o Ho. unfold within. destruct (child (KField s') o) as [c|]; [|exact Ho].
  destruct (modified (g c)); [|exact Ho].
  destruct o as [| | | | |[a m] props|[a m] elems]; try discriminate.
  cbn [adopt keyName hasField] in *. now rewrite assoc_store_ne by congruence.
Qed.

Lemma keeps_put_other s s' shape d :
  s <> s' -> keeps (hasField s shape) (put (KField s') d).
Proof.
  intros Hne o Ho. unfold put. destruct (unchanged _ _); [exact Ho|].
  destruct o as [| | | | |[a m] props|[a m] elems]; try discriminate.
  cbn [adopt keyName hasField] in *. now rewrite assoc_store_ne by congruence.
Qed.

Lemma keeps_put_object s d : keeps isObject (put (KField s) d).
Proof.
  intros o Ho. unfold put. destruct (unchanged _ _); [exact Ho|].
  now destruct o as [| | | | |[a m] props|[a m] elems].
Qed.

Lemma keeps_within_index i shape g :
  keeps shape g -> keeps (arrayOf shape) (within (KIndex i) g).
Proof.
  intros Hg o Ho. unfold within. destruct (child (KIndex i) o) as [c|] eqn:Hc; [|exact Ho].
  destruct (modified (g c)); [|exact Ho].
  pose proof (arrayOf_child i shape o c Ho Hc) as Hshape.
  destruct o as [| | | | |[a m] props|[a m] elems]; try discriminate.
  cbn [adopt keyIndex arrayOf child] in *. unfold storeAt, slot in *.
  match goal with
  | |- context [(?x <? ?y)%nat] => destruct (Nat.ltb_spec x y) as [Hlt|Hge]
  end.
  - apply forallb_insert; [exact Ho|]. cbn. now apply Hg.
  - now rewrite lookup_ge_None_2 in Hc.
Qed.

Lemma keeps_each shape g : keeps shape g -> keeps (arrayOf shape) (each g).
Proof.
  intros Hg [| | | | |[a m] props|[a m] elems]; try discriminate.
  cbn [each arrayOf]. induction elems as [|[c|] elems IH]; simpl; try discriminate; auto.
  intros [Hc H]%andb_true_iff. rewrite (Hg c Hc). now apply IH.
Qed.

Lemma keeps_eachOf s shape g : keeps shape g -> keeps (hasField s (arrayOf shape)) (eachOf s g).
Proof. intros Hg. now apply keeps_within_field, keeps_each. Qed.

Lemma keeps_pushed shape d : shape d = true -> keeps (arrayOf shape) (pushed d).
Proof.
  intros Hd [| | | | |[a m] props|[a m] elems]; try discriminate.
  cbn [pushed arrayOf]. rewrite forallb_app. intros ->. cbn. now rewrite Hd.
Qed.

Lemma keeps_removed shape i : keeps (arrayOf shape) (removed i).
Proof.
  intros [| | | | |[a m] props|[a m] elems]; try discriminate.
  cbn [removed]. destruct (i <? length elems)%nat; [|auto].
  cbn [arrayOf]. apply forallb_delete.
Qed.

Lemma arrayOf_dense {T} (shape : node T -> bool) (elems : list (option (node T))) a :
  arrayOf shape (VArr a elems) = true -> forallb present elems = true.
Proof.
  cbn [arrayOf]. induction elems as [|[c|] elems IH]; simpl; try discriminate; auto.
  intros [_ H]%andb_true_iff. now apply IH.
Qed.

Lemma isBatch_updated path g st :
  isBatch (batchData st) = true ->
  keeps isBatch (withinPath path g) ->
  isBatch (batchData (updated path g st)) = true.
Proof.
  intros Hb Hg. cbn [updated batchData]. unfold finalize. rewrite isBatch_tmap.
  apply Hg. unfold createDraft. now rewrite isBatch_tmap.
Qed.


Lemma hasField_array {T} s (shape : node T -> bool) (v : node T) :
  hasField s (arrayOf shape) v = true ->
  exists a elems,
    child (KField s) v = Some (VArr a elems) /\ arrayOf shape (VArr a elems) = true.
Proof.
  intros H. apply hasField_child in H as (c & Hc & Hshape).
  destruct c; try discriminate. eauto.
Qed.

Lemma array_index {T} (shape : node T -> bool) a (elems : list (option (node T))) i :
  arrayOf shape (VArr a elems) = true ->
  (exists x, child (KIndex i) (VArr a elems) = Some x /\ shape x = true) \/
  (child (KIndex i) (VArr a elems) = None /\ getProp (VArr a elems) (KIndex i) = Ok VUndef).
Proof.
  intros H. cbn [child getProp keyIndex].
  destruct (slot i elems) as [x|] eqn:E; [left | right; now split].
  exists x. split; [reflexivity|]. now apply (arrayOf_child i shape (VArr a elems) x H).
Qed.

Lemma at_path_two {T} k k' (t x : node T) :
  child k t = Some x -> at_path [k; k'] t = child k' x.
Proof. intros H. cbn [at_path]. rewrite H. cbn. now destruct (child k' x). Qed.

Lemma at_path_snoc_eq {T} path k (t x : node T) :
  at_path path t = Some x -> at_path (path ++ [k]) t = child k x.
Proof. intros H. rewrite at_path_app, H. cbn [mbind option_bind]. apply at_path_one. Qed.

Lemma isSubject_newSubject a id : isSubject (createDraft (newSubject a id)) = true.
Proof. reflexivity. Qed.

Lemma isSection_newSection a id : isSection (createDraft (newSection a id)) = true.
Proof. reflexivity. Qed.

Lemma keeps_batch_subjects g :
  keeps (arrayOf isSubject) g -> keeps isBatch (withinPath [KField "subjects"] g).
Proof. intros Hg. now apply keeps_within_field. Qed.

Lemma keeps_batch_sections i g :
  keeps (arrayOf isSection) g -> keeps isBatch (withinPath (sectionsPath i) g).
Proof.
  intros Hg. apply keeps_within_field, keeps_within_index.
  now apply (keeps_within_field "sections" (arrayOf isSection)).
Qed.

Lemma keeps_batch_contents i j g :
  keeps (arrayOf isContent) g -> keeps isBatch (withinPath (contentsPath i j) g).
Proof.
  intros Hg. apply keeps_within_field, keeps_within_index.
  apply (keeps_within_field "sections" (arrayOf isSection)), keeps_within_index.
  now apply (keeps_within_field "contents" (arrayOf isContent)).
Qed.

(** X19. On a batch, that is, a tree of Subjects, Sections and Contents in
    their arrays, the six edits of the structure give a batch again.
    Adding and deleting a Subject always succeed; the edits inside a
    Subject or a Section succeed when it is there and raise when it is
    not. *)
Theorem structural_edits_keep_batch (st : editor) :
  isBatch (batchData st) = true ->
  (forall id, exists st', addSubject id st = Ok st' /\ isBatch (batchData st') = true) /\
  (forall subjectIndex nav, exists st' nav',
     deleteSubject true subjectIndex st nav = Ok (st', nav') /\
     isBatch (batchData st') = true) /\
  (forall id subjectIndex,
     match at_path (subjectPath subjectIndex) (batchData st) with
     | Some _ => exists st',
         addSection id subjectIndex st = Ok st' /\ isBatch (batchData st') = true
     | None => addSection id subjectIndex st = Throw TypeError
     end) /\
  (forall subjectIndex sectionIndex nav,
     match at_path (subjectPath subjectIndex) (batchData st) with
     | Some _ => exists st' nav',
         deleteSection true subjectIndex sectionIndex st nav = Ok (st', nav') /\
         isBatch (batchData st') = true
     | None => deleteSection true subjectIndex sectionIndex st nav = Throw TypeError
     end) /\
  (forall id subjectIndex sectionIndex,
     match at_path (sectionPath subjectIndex sectionIndex) (batchData st) with
     | Some _ => exists st',
         addContent id subjectIndex sectionIndex st = Ok st' /\
         isBatch (batchData st') = true
     | None => addContent id subjectIndex sectionIndex st = Throw TypeError
     end) /\
  (forall subjectIndex sectionIndex contentIndex,
     match at_path (sectionPath subjectIndex sectionIndex) (batchData st) with
     | Some _ => exists st',
         deleteContent subjectIndex sectionIndex contentIndex st = Ok st' /\
         isBatch (batchData st') = true
     | None => deleteContent subjectIndex sectionIndex contentIndex st = Throw TypeError
     end).
Proof.
  intros Hbatch.
  destruct (hasField_array "subjects" isSubject _ Hbatch) as (a & subs & Hsubs & Hsubjects).
  assert (at_path [KField "subjects"] (batchData st) = Some (VArr a subs)) as Harr
    by (rewrite at_path_one; exact Hsubs).
  (* what there is at a Subject index *)
  assert (forall i,
            (exists subject b secs,
               at_path (subjectPath i) (batchData st) = Some subject /\
               at_path (sectionsPath i) (batchData st) = Some (VArr b secs) /\
               arrayOf isSection (VArr b secs) = true) \/
            (at_path (subjectPath i) (batchData st) = None /\
             getProp (VArr a subs) (KIndex i) = Ok VUndef)) as Hsubject.
  { intros i. unfold sectionsPath, subjectPath.
    rewrite (at_path_two _ (KIndex i) _ (VArr a subs) Hsubs).
    destruct (array_index isSubject a subs i Hsubjects) as [(subject & Hs & Hshape)|[Hs Hu]].
    - left. destruct (hasField_array "sections" isSection _ Hshape) as (b & secs & Hsecs & H).
      exists subject, b, secs. split; [exact Hs|]. split; [|exact H].
      rewrite (at_path_snoc_eq [KField "subjects"; KIndex i] _ _ subject); [exact Hsecs|].
      now rewrite (at_path_two _ (KIndex i) _ (VArr a subs) Hsubs).
    - right. now split. }
  (* what there is at a Section index *)
  assert (forall i j,
            (exists subject section ca contents,
               at_path (subjectPath i) (batchData st) = Some subject /\
               at_path (sectionPath i j) (batchData st) = Some section /\
               child (KField "contents") section = Some (VArr ca contents) /\
               arrayOf isContent (VArr ca contents) = true) \/
            (at_path (sectionPath i j) (batchData st) = None /\
             exists pre k rest x,
               contentsPath i j = pre ++ k :: rest /\
               at_path pre (batchData st) = Some x /\ getProp x k = Ok VUndef)) as Hsection.
  { intros i j. destruct (Hsubject i) as [(subject & b & secs & Hs & Hsecs & Hshape)|[Hs Hu]].
    - unfold sectionPath. rewrite (at_path_snoc_eq _ (KIndex j) _ _ Hsecs).
      destruct (array_index isSection b secs j Hshape) as [(section & Hsec & Hsh)|[Hsec Hu]].
      + left. destruct (hasField_array "contents" isContent _ Hsh) as (ca & contents & Hc & H).
        now exists subject, section, ca, contents.
      + right. split; [exact Hsec|].
        exists (sectionsPath i), (KIndex j), [KField "contents"], (VArr b secs).
        split; [|now split]. unfold contentsPath, sectionPath. now rewrite <- app_assoc.
    - right. split.
      + unfold sectionPath, sectionsPath. rewrite <- app_assoc, at_path_app, Hs. reflexivity.
      + exists [KField "subjects"], (KIndex i),
          [KField "sections"; KIndex j; KField "contents"], (VArr a subs).
        now repeat split. }
  split; [|split; [|split; [|split; [|split]]]].
  - intros id.
    exists (updated [KField "subjects"]
              (pushed (createDraft (newSubject (heapNext st) id))) (allocate 2 st)).
    split.
    + apply (setBatchData_updated [KField "subjects"] _ _ (allocate 2 st) (VArr a subs) Harr).
      apply push_pushed.
    + apply (isBatch_updated _ _ (allocate 2 st) Hbatch).
      apply keeps_batch_subjects, keeps_pushed, isSubject_newSubject.
  - intros i nav. eexists _, _. unfold deleteSubject.
    assert (setBatchData (withProp (KField "subjects") (splice i 1)) st
            = Ok (updated [KField "subjects"] (removed i) st)) as ->.
    { apply (setBatchData_updated [KField "subjects"] _ _ st (VArr a subs) Harr).
      apply splice_removed. now apply arrayOf_dense in Hsubjects. }
    split; [reflexivity|].
    apply (isBatch_updated _ _ st Hbatch), keeps_batch_subjects, keeps_removed.
  - intros id i. destruct (Hsubject i) as [(subject & b & secs & -> & Hsecs & Hshape)|[-> Hu]].
    + exists (updated (sectionsPath i)
                (pushed (createDraft (newSection (heapNext st) id))) (allocate 2 st)).
      split.
      * apply (setBatchData_updated (sectionsPath i) _ _ (allocate 2 st) (VArr b secs) Hsecs).
        apply push_pushed.
      * apply (isBatch_updated _ _ (allocate 2 st) Hbatch).
        apply keeps_batch_sections, keeps_pushed, isSection_newSection.
    + apply (chain_missing (sectionsPath i) _ (allocate 2 st) [KField "subjects"] (KIndex i)
               [KField "sections"] (VArr a subs)); auto.
  - intros i j nav.
    destruct (Hsubject i) as [(subject & b & secs & -> & Hsecs & Hshape)|[-> Hu]].
    + eexists _, _. unfold deleteSection.
      assert (setBatchData
                (withProp (KField "subjects") (withProp (KIndex i)
                   (withProp (KField "sections") (splice j 1)))) st
              = Ok (updated (sectionsPath i) (removed j) st)) as ->.
      { apply (setBatchData_updated (sectionsPath i) _ _ st (VArr b secs) Hsecs).
        apply splice_removed. now apply arrayOf_dense in Hshape. }
      split; [reflexivity|].
      apply (isBatch_updated _ _ st Hbatch), keeps_batch_sections, keeps_removed.
    + unfold deleteSection.
      assert (setBatchData
                (withProp (KField "subjects") (withProp (KIndex i)
                   (withProp (KField "sections") (splice j 1)))) st
              = Throw TypeError) as ->; [|reflexivity].
      apply (chain_missing (sectionsPath i) _ st [KField "subjects"] (KIndex i)
               [KField "sections"] (VArr a subs)); auto.
  - intros id i j.
    destruct (Hsection i j)
      as [(subject & section & ca & contents & Hs & Hsec & Hc & Hshape)
         |[Hnone (pre & k & rest & x & Hsplit & Hx & Hk)]].
    + rewrite Hsec. eexists. split.
      * now apply (addContent_updated id i j st subject section ca contents).
      * apply (isBatch_updated _ _ (allocate 1 st) Hbatch).
        now apply keeps_batch_contents, keeps_pushed.
    + rewrite Hnone. now apply (addContent_missing id i j st pre k rest x).
  - intros i j m.
    destruct (Hsection i j)
      as [(subject & section & ca & contents & Hs & Hsec & Hc & Hshape)
         |[Hnone (pre & k & rest & x & Hsplit & Hx & Hk)]].
    + rewrite Hsec. exists (updated (contentsPath i j) (removed m) st). split.
      * apply (setBatchData_updated (contentsPath i j) _ _ st (VArr ca contents)).
        -- now apply at_path_contents_array with (section := section).
        -- apply splice_removed. now apply arrayOf_dense in Hshape.
      * apply (isBatch_updated _ _ st Hbatch), keeps_batch_contents, keeps_removed.
    + rewrite Hnone. now apply (chain_missing (contentsPath i j) _ st pre k rest x).
Qed.

Lemma structural_edits_keep_batch_witness :
  exists st',
    addContent "c9" 1 0 exampleEditor = Ok st' /\ isBatch (batchData st') = true.
Proof.
  destruct (structural_edits_keep_batch exampleEditor eq_refl) as (_ & _ & _ & _ & H & _).
  exact (H "c9" 1 0).
Defined.

End KeptShapes.

(** ** Paths that miss the tree *)

Section MissingSegments.

Implicit Types (st : editor) (t old v n : Value) (pre path : list key) (k : key).

(** The pass over the Contents of the Subject at [pre]. *)
Lemma cascade_at i (d o subject : Draft) :
  at_path [KField "subjects"; i] o = Some subject ->
  isSubject subject = true ->
  cascade i d o
  = Ok (withinPath [KField "subjects"; i]
          (eachOf "sections" (eachOf "contents" (setThumbnail d))) o).
Proof.
  intros Hsubject Hshape.
  apply (withProps_run [KField "subjects"; i] _ _ _ subject Hsubject).
  apply withProp_eachOf with (shape := isSection); [exact Hshape|].
  apply cascade_section.
Qed.

Lemma cascade_no_sections i (d o subject : Draft) :
  at_path [KField "subjects"; i] o = Some subject ->
  getProp subject (KField "sections") = Ok VUndef ->
  cascade i d o = Throw TypeError.
Proof.
  intros Hsubject Hsections.
  apply (withProps_raises [KField "subjects"; i] _ _ subject TypeError Hsubject).
  now apply withProp_missing.
Qed.

Lemma getProp_put_other s s' (d o : Draft) :
  s <> s' -> inherited s' = false -> isObject o = true ->
  getProp (put (KField s) d o) (KField s') = getProp o (KField s').
Proof.
  intros Hne Hs' Ho. unfold put. destruct (unchanged _ _); [reflexivity|].
  destruct o as [| | | | |[a m] props|[a m] elems]; try discriminate.
  cbn [adopt keyName]. rewrite !getProp_own by exact Hs'. cbn [keyName].
  now rewrite assoc_store_ne.
Qed.

Lemma fits_field_object {T} s (o : node T) : fits (KField s) o = true -> isObject o = true.
Proof. now destruct o. Qed.

(** C3, amended.  A path that goes on below a segment which reads
    undefined (an index without element, or a field that is neither an
    own property nor an inherited member), or which reads from undefined
    or null, and a path whose last segment is assigned on a primitive,
    raise a TypeError, and no new state is set.  A path that ends in a
    field the object reached does not have, or in an index at which the
    array reached has no element, does not fail: the field or the
    element is created and holds the new value.  On the thumbnail path
    of a Subject the pass over its Contents follows the assignment:
    there the field is created as well when the Subject has its Sections
    with their Contents, and the update raises a TypeError, with no new
    state, when the Subject has no [sections].  The name [__proto__],
    which the inherited setter takes, is left out as a last segment. *)
Theorem handleNestedChange_missing st pre k v n :
  at_path pre (batchData st) = Some n ->
  (forall rest, rest <> [] ->
     getProp n k = Ok VUndef \/ getProp n k = Throw TypeError ->
     handleNestedChange (pre ++ k :: rest) v st = Throw TypeError) /\
  (address n = None -> keyName k <> "__proto__" ->
     handleNestedChange (pre ++ [k]) v st = Throw TypeError) /\
  (fits k n = true -> child k n = None -> keyName k <> "__proto__" ->
   subjectThumbnailPath (pre ++ [k]) = None ->
     exists st',
       handleNestedChange (pre ++ [k]) v st = Ok st' /\
       at_path (pre ++ [k]) (batchData st') = Some v) /\
  (forall i,
     pre = [KField "subjects"; i] -> k = KField "thumbnail" ->
     fits k n = true -> child k n = None ->
     (isSubject n = true ->
      exists st',
        handleNestedChange [KField "subjects"; i; KField "thumbnail"] v st = Ok st' /\
        at_path [KField "subjects"; i; KField "thumbnail"] (batchData st') = Some v) /\
     (getProp n (KField "sections") = Ok VUndef ->
      handleNestedChange [KField "subjects"; i; KField "thumbnail"] v st = Throw TypeError)).
Proof.
  intros Hn.
  set (dV := createDraft v). set (d0 := createDraft (batchData st)).
  set (d1 := withinPath pre (put k dV) d0).
  assert (fits k n = true -> assignAt (pre ++ [k]) dV d0 = Ok d1) as Hassign.
  { intros Hf. apply (assignAt_withinPath pre k _ _ (createDraft n)).
    - unfold d0. now rewrite at_path_createDraft, Hn.
    - now rewrite fits_createDraft. }
  assert (at_path pre d1 = Some (put k dV (createDraft n))) as Hd1.
  { unfold d1, d0. rewrite at_path_withinPath by apply stable_put.
    now rewrite at_path_createDraft, Hn. }
  assert (fits k n = true -> child k n = None ->
          child k (put k dV (createDraft n)) = Some dV) as Hput.
  { intros Hf Hk. apply child_put_eq; [now rewrite fits_createDraft|].
    now rewrite child_createDraft, Hk. }
  split; [|split; [|split]].
  - intros rest Hrest Hk. unfold handleNestedChange, setBatchData, produce, nestedChange.
    rewrite (assignAt_raises pre (k :: rest) _ _ (createDraft n) TypeError);
      [reflexivity | discriminate | |].
    + now rewrite at_path_createDraft, Hn.
    + apply assignAt_missing; [exact Hrest|].
      unfold createDraft. rewrite getProp_tmap. destruct Hk as [-> | ->]; auto.
  - intros Hprim _. unfold handleNestedChange, setBatchData, produce, nestedChange.
    rewrite (assignAt_raises pre [k] _ _ (createDraft n) TypeError);
      [reflexivity | discriminate | |].
    + now rewrite at_path_createDraft, Hn.
    + now apply assign_primitive.
  - intros Hf Hk _ Hpath. eexists. split.
    { apply handleNestedChange_run. unfold nestedChange. fold dV d0.
      rewrite (Hassign Hf). cbn [mbind outcome_bind]. now rewrite Hpath. }
    cbn [batchData]. rewrite at_path_finalize, at_path_app. fold d0 d1.
    rewrite Hd1. cbn [fmap option_fmap option_map mbind option_bind].
    rewrite at_path_one, (Hput Hf Hk). cbn. unfold dV. now rewrite finalize_createDraft.
  - intros i Hpre -> Hf Hk.
    set (g := eachOf "sections" (eachOf "contents" (setThumbnail dV))).
    change [KField "subjects"; i; KField "thumbnail"]
      with ([KField "subjects"; i] ++ [KField "thumbnail"]).
    rewrite <- Hpre. split.
    + intros Hsubject.
      assert (nestedChange (pre ++ [KField "thumbnail"]) v d0 = Ok (withinPath pre g d1))
        as Hrun.
      { unfold nestedChange. fold dV. rewrite (Hassign Hf). cbn [mbind outcome_bind].
        rewrite Hpre at 1. cbn [app subjectThumbnailPath]. rewrite Hpre.
        apply cascade_at with (subject := put (KField "thumbnail") dV (createDraft n)).
        - rewrite <- Hpre. exact Hd1.
        - apply (keeps_put_other "sections" "thumbnail" (arrayOf isSection));
            [discriminate|].
          change (isSubject (createDraft n) = true).
          unfold createDraft. now rewrite isSubject_tmap. }
      eexists. split; [apply handleNestedChange_run; exact Hrun|].
      cbn [batchData]. rewrite at_path_finalize, at_path_app.
      rewrite at_path_withinPath by apply stable_eachOf.
      rewrite Hd1. cbn [fmap option_fmap option_map mbind option_bind].
      rewrite at_path_one. unfold g, eachOf.
      rewrite child_within_ne by discriminate. rewrite (Hput Hf Hk). cbn.
      unfold dV. now rewrite finalize_createDraft.
    + intros Hsections. apply setBatchData_raises. unfold nestedChange. fold dV d0.
      rewrite (Hassign Hf). cbn [mbind outcome_bind].
      rewrite Hpre at 1. cbn [app subjectThumbnailPath].
      apply cascade_no_sections with (subject := put (KField "thumbnail") dV
                                                   (createDraft n)).
      * rewrite <- Hpre. exact Hd1.
      * rewrite getProp_put_other; [|discriminate|reflexivity|].
        -- rewrite getProp_createDraft, Hsections. reflexivity.
        -- unfold createDraft. rewrite isObject_tmap.
           now apply (fits_field_object "thumbnail").
Qed.

Lemma handleNestedChange_missing_witness :
  handleNestedChange [KField "subjects"; KIndex 5; KField "name"] (VStr "x") exampleEditor
  = Throw TypeError /\
  (exists st',
     handleNestedChange [KField "subjects"; KIndex 5] (VStr "x") exampleEditor = Ok st' /\
     at_path [KField "subjects"; KIndex 5] (batchData st') = Some (VStr "x")) /\
  handleNestedChange [KField "subjects"; KIndex 0; KField "thumbnail"] (VStr "x")
    {| batchData := VObj 0 [("subjects", VArr 1 [Some (VObj 2 [("name", VStr "S1")])])];
       heapNext := 3; selectedContents := ∅; bulkThumbnailUrl := "";
       showBulkThumbnail := false |}
  = Throw TypeError.
Proof.
  destruct (handleNestedChange_missing exampleEditor [KField "subjects"] (KIndex 5) (VStr "x")
              (VArr 1 [Some (exampleSubject 2 "s1" "S1"
                               [exampleContent 6 "c1" "x"; exampleContent 7 "c2" "y"]);
                       Some (exampleSubject 8 "s2" "S2" [exampleContent 12 "c3" "x"])]))
    as (Hthrow & _ & Hcreate & _); [reflexivity|].
  destruct (handleNestedChange_missing
              {| batchData := VObj 0 [("subjects", VArr 1 [Some (VObj 2 [("name", VStr "S1")])])];
                 heapNext := 3; selectedContents := ∅; bulkThumbnailUrl := "";
                 showBulkThumbnail := false |}
              [KField "subjects"; KIndex 0] (KField "thumbnail") (VStr "x")
              (VObj 2 [("name", VStr "S1")])) as (_ & _ & _ & Hcascade); [reflexivity|].
  split; [|split].
  - apply (Hthrow [KField "name"]); [discriminate | left; reflexivity].
  - apply Hcreate; [reflexivity | reflexivity | discriminate | reflexivity].
  - apply (Hcascade (KIndex 0)); reflexivity.
Defined.

End MissingSegments.

(** ** Thumbnails of a Subject and its Contents *)

Section Uniform.

Implicit Types (st : editor) (t V : Value) (d o : Draft) (g : Draft -> Draft).

Lemma within_fix k g (x : Value) :
  (forall c, child k x = Some c -> g (createDraft c) = createDraft c) ->
  within k g (createDraft x) = createDraft x.
Proof.
  intros H. unfold within. rewrite child_createDraft.
  destruct (child k x) as [c|]; [|reflexivity]. cbn.
  now rewrite (H c eq_refl), modified_createDraft.
Qed.

Lemma each_fix g (x : Value) :
  (forall i c, child (KIndex i) x = Some c -> g (createDraft c) = createDraft c) ->
  each g (createDraft x) = createDraft x.
Proof.
  destruct x as [| | | | |a props|a elems]; try reflexivity. intros H.
  change (createDraft (VArr a elems))
    with (VArr (a, false) (List.map (option_map createDraft) elems) : Draft).
  cbn [each].
  assert (List.map (option_map g) (List.map (option_map createDraft) elems)
          = List.map (option_map createDraft) elems) as ->.
  { assert (forall c, In (Some c) elems -> g (createDraft c) = createDraft c) as Hin.
    { intros c Hc. apply list_elem_of_In, list_elem_of_lookup_1 in Hc as [i Hi].
      apply (H i). cbn [child]. unfold slot. now rewrite Hi. }
    clear H. induction elems as [|[c|] elems IH]; cbn; [reflexivity| |].
    - rewrite (Hin c) by now left. f_equal. apply IH. intros c' Hc'. apply Hin. now right.
    - f_equal. apply IH. intros c' Hc'. apply Hin. now right. }
  f_equal. f_equal. cbn [orb]. clear H.
  induction elems as [|[c|] elems IH]; cbn; [reflexivity| |exact IH].
  now rewrite modified_createDraft.
Qed.

Lemma setThumbnail_fix (c V : Value) :
  child (KField "thumbnail") c = Some V ->
  setThumbnail (createDraft V) (createDraft c) = createDraft c.
Proof.
  intros H. unfold setThumbnail, put. rewrite child_createDraft, H. cbn.
  now rewrite same_refl.
Qed.

(** The cascade changes nothing in a Subject all of whose Contents have
    the thumbnail already. *)
Lemma cascade_fix (subject V : Value) :
  (forall j k c, at_path (inSubject j k) subject = Some c ->
                 child (KField "thumbnail") c = Some V) ->
  eachOf "sections" (eachOf "contents" (setThumbnail (createDraft V))) (createDraft subject)
  = createDraft subject.
Proof.
  intros H. apply within_fix. intros sections Hsections.
  apply each_fix. intros j section Hsection.
  apply within_fix. intros contents Hcontents.
  apply each_fix. intros k c Hc.
  apply setThumbnail_fix, (H j k). unfold inSubject. cbn [at_path].
  rewrite Hsections. cbn [mbind option_bind]. rewrite Hsection. cbn [mbind option_bind].
  rewrite Hcontents. cbn [mbind option_bind]. now rewrite Hc.
Qed.

Lemma uniform_subject i V t :
  uniformThumbnails i V t ->
  exists subject,
    at_path (subjectPath i) t = Some subject /\
    child (KField "thumbnail") subject = Some V /\
    forall j k c, at_path (inSubject j k) subject = Some c ->
                  child (KField "thumbnail") c = Some V.
Proof.
  intros [Hthumb Hall]. rewrite at_path_app in Hthumb.
  destruct (at_path (subjectPath i) t) as [subject|] eqn:Hs; [|discriminate].
  cbn [mbind option_bind] in Hthumb. rewrite at_path_one in Hthumb.
  exists subject. split; [reflexivity|]. split; [exact Hthumb|].
  intros j k c Hc. apply (Hall j k). unfold contentPath. now rewrite at_path_app, Hs.
Qed.

(** X20. When a Subject and all its Contents have the thumbnail [V], setting
    the thumbnail of the Subject to [V] gives the state itself, and so
    does the pass over the Contents that [handleThumbnailSelect] makes
    after it: nothing is copied. *)
Theorem cascade_fixpoint (st : editor) (i : nat) (V : Value) :
  isBatch (batchData st) = true ->
  uniformThumbnails i V (batchData st) ->
  handleNestedChange (subjectPath i ++ [KField "thumbnail"]) V st = Ok st /\
  setBatchData (cascade (KIndex i) (createDraft V)) st = Ok st.
Proof.
  intros Hbatch Huniform.
  destruct (uniform_subject i V _ Huniform) as (subject & Hsubject & Hthumb & Hall).
  pose proof (isBatch_subject i _ subject Hbatch Hsubject) as Hshape.
  set (t := batchData st) in *. set (dV := createDraft V).
  set (g := eachOf "sections" (eachOf "contents" (setThumbnail dV))).
  assert (cascade (KIndex i) dV (createDraft t) = Ok (createDraft t)) as Hcascade.
  { pose proof Hsubject as Hs. unfold subjectPath in Hs.
    apply at_path_cons_inv in Hs as (subjects & Hsubjects & Hs). rewrite at_path_one in Hs.
    rewrite (cascade_run i dV (createDraft t) (createDraft subjects) (createDraft subject)).
    - f_equal. apply (withinPath_unmodified _ _ t (createDraft subject)).
      + apply stable_eachOf.
      + now rewrite at_path_createDraft, Hsubject.
      + unfold dV. rewrite cascade_fix by exact Hall. apply modified_createDraft.
    - now rewrite child_createDraft, Hsubjects.
    - now rewrite child_createDraft, Hs.
    - unfold createDraft. now rewrite isSubject_tmap. }
  assert (forall d, d = createDraft t ->
            Ok (finalize (heapNext st) d,
                if modified d then heapNext st + heapNext st else heapNext st)
            ≫= (fun '(data, next) =>
                  Ok {| batchData := data; heapNext := next;
                        selectedContents := selectedContents st;
                        bulkThumbnailUrl := bulkThumbnailUrl st;
                        showBulkThumbnail := showBulkThumbnail st |}) = Ok st) as Hsame.
  { intros d ->. rewrite modified_createDraft, finalize_createDraft. cbn. f_equal.
    apply editor_eta. }
  split.
  - unfold handleNestedChange, setBatchData, produce, nestedChange. fold t.
    rewrite (assignAt_withinPath (subjectPath i) _ _ _ (createDraft subject)).
    + cbn [mbind outcome_bind]. change (subjectThumbnailPath _) with (Some (KIndex i)).
      rewrite (withinPath_unmodified _ _ t (createDraft subject)).
      * fold dV. rewrite Hcascade. now apply Hsame.
      * apply stable_put.
      * now rewrite at_path_createDraft, Hsubject.
      * fold (setThumbnail (createDraft V)). rewrite setThumbnail_fix by exact Hthumb.
        apply modified_createDraft.
    + now rewrite at_path_createDraft, Hsubject.
    + rewrite fits_createDraft. now apply isObject_fits, isSubject_object.
  - unfold setBatchData, produce. fold t dV. rewrite Hcascade. now apply Hsame.
Qed.


Lemma uniformBatch_uniform : uniformThumbnails 0 (VStr "T") uniformBatch.
Proof.
  split; [reflexivity|].
  intros [|j] [|[|k]] c; cbn; intros H; try discriminate H; now injection H as <-.
Qed.

Lemma cascade_fixpoint_witness :
  handleNestedChange (subjectPath 0 ++ [KField "thumbnail"]) (VStr "T") uniformEditor
  = Ok uniformEditor.
Proof.
  destruct (cascade_fixpoint uniformEditor 0 (VStr "T") eq_refl uniformBatch_uniform)
    as [H _].
  exact H.
Defined.

Lemma diverges_thumbnail i j :
  diverges (subjectPath i ++ [KField "thumbnail"]) (contentsPath i j).
Proof.
  right. split; [reflexivity|]. right. split; [reflexivity|]. left. discriminate.
Qed.

Lemma diverges_section i j j' k :
  j' <> j -> diverges (contentPath i j' k) (contentsPath i j).
Proof.
  intros Hne. right. split; [reflexivity|]. right. split; [reflexivity|].
  right. split; [reflexivity|]. left. congruence.
Qed.

(** X21. Adding a Content to a Subject whose Contents all have its thumbnail,
    and deleting one, leave the Contents of the Subject with its
    thumbnail. *)
Theorem uniformThumbnails_kept (st : editor) (i j : nat) (V : Value) a contents :
  uniformThumbnails i V (batchData st) ->
  at_path (contentsPath i j) (batchData st) = Some (VArr a contents) ->
  (forall id, exists st',
     addContent id i j st = Ok st' /\ uniformThumbnails i V (batchData st')) /\
  (forall m, forallb present contents = true ->
     exists st',
       deleteContent i j m st = Ok st' /\ uniformThumbnails i V (batchData st')).
Proof.
  intros Huniform Harr.
  destruct (uniform_subject i V _ Huniform) as (subject & Hsubject & Hthumb & _).
  destruct Huniform as [HV Hall].
  destruct (at_path_snoc _ _ _ _ Harr) as (section & Hsection & Hcontents).
  fold (sectionPath i j) in Hsection.
  assert (forall st' : editor,
            at_path (subjectPath i ++ [KField "thumbnail"]) (batchData st')
            = at_path (subjectPath i ++ [KField "thumbnail"]) (batchData st) ->
            (forall k c, at_path (contentsPath i j ++ [KIndex k]) (batchData st') = Some c ->
                         child (KField "thumbnail") c = Some V) ->
            (forall j' k, j' <> j ->
               at_path (contentPath i j' k) (batchData st')
               = at_path (contentPath i j' k) (batchData st)) ->
            uniformThumbnails i V (batchData st')) as Hkeep.
  { intros st' H1 H2 H3. split; [now rewrite H1|].
    intros j' k c Hc. destruct (Nat.eq_dec j' j) as [->|Hne].
    - now apply (H2 k).
    - rewrite H3 in Hc by exact Hne. now apply (Hall j' k). }
  split.
  - intros id.
    set (new := newContent (heapNext st) id
                  (default VUndef (child (KField "type") section))
                  (default VUndef (child (KField "thumbnail") subject))).
    destruct (updated_pushed (contentsPath i j) new (allocate 1 st) a contents Harr)
      as (Hnew & Hold & Hpast & Hoff).
    exists (updated (contentsPath i j) (pushed (createDraft new)) (allocate 1 st)).
    split; [now apply addContent_updated with (a := a) (contents := contents)|].
    apply Hkeep.
    + apply Hoff, diverges_thumbnail.
    + intros k c Hc.
      destruct (Nat.lt_total k (length contents)) as [Hk|[->|Hk]].
      * rewrite (Hold k [] Hk) in Hc. now apply (Hall j k).
      * assert (Some c = Some new) as [= ->] by (rewrite <- Hc; exact Hnew).
        transitivity (Some (default VUndef (child (KField "thumbnail") subject)));
          [reflexivity|]. now rewrite Hthumb.
      * now rewrite (Hpast k [] Hk) in Hc.
    + intros j' k Hne. now apply Hoff, diverges_section.
  - intros m Hdense.
    destruct (updated_removed (contentsPath i j) m st a contents Harr)
      as (Hbefore & Hafter & Hoff & _).
    exists (updated (contentsPath i j) (removed m) st).
    split.
    { apply (setBatchData_updated (contentsPath i j) _ _ st (VArr a contents) Harr).
      now apply splice_removed. }
    apply Hkeep.
    + apply Hoff, diverges_thumbnail.
    + intros k c Hc. destruct (Nat.lt_ge_cases k m) as [Hk|Hk].
      * rewrite (Hbefore k [] Hk) in Hc. now apply (Hall j k).
      * rewrite (Hafter k [] Hk) in Hc. now apply (Hall j (S k)).
    + intros j' k Hne. now apply Hoff, diverges_section.
Qed.

Lemma uniformThumbnails_kept_witness :
  exists st',
    addContent "c9" 0 0 uniformEditor = Ok st' /\
    uniformThumbnails 0 (VStr "T") (batchData st').
Proof.
  destruct (uniformThumbnails_kept uniformEditor 0 0 (VStr "T") 5
              [Some (exampleContent 6 "c1" "T"); Some (exampleContent 7 "c2" "T")]
              uniformBatch_uniform eq_refl) as [H _].
  exact (H "c9").
Defined.

End Uniform.

(** ** Counting Contents *)

Section Counting.

Implicit Types (st : editor) (t : Value).

Lemma contentsLength_section (section : Value) :
  isSection section = true ->
  contentsLength section = Ok (Z.of_nat (contentsCount (Some section))).
Proof.
  intros H. destruct (hasField_array "contents" isContent _ H) as (a & l & Hl & _).
  unfold contentsLength, contentsCount. now rewrite (getProp_child _ _ _ Hl), Hl.
Qed.

Lemma reduce_sections (sections : list (option Value)) (total : Z) :
  forallb (from_option isSection false) sections = true ->
  reduce (fun total section => n ← contentsLength section; Ok (total + n)%Z) total sections
  = Ok (total + Z.of_nat (list_sum (List.map contentsCount sections)))%Z.
Proof.
  revert total. induction sections as [|[s|] sections IH]; intros total; cbn [forallb].
  - intros _. cbn. now rewrite Z.add_0_r.
  - intros [Hs H]%andb_true_iff. cbn [reduce List.map list_sum from_option] in *.
    rewrite (contentsLength_section s Hs). cbn [mbind outcome_bind].
    rewrite (IH _ H). f_equal.
    change (list_sum (contentsCount (Some s) :: List.map contentsCount sections))
      with (contentsCount (Some s) + list_sum (List.map contentsCount sections)).
    lia.
  - discriminate.
Qed.

Lemma slot_lookup {A} i (l : list (option A)) (x : A) :
  slot i l = Some x <-> l !! i = Some (Some x).
Proof.
  unfold slot. destruct (l !! i) as [[y|]|]; cbn; split; intros H; try discriminate;
    congruence.
Qed.

Lemma dense_slot {A} (l : list (option A)) i :
  forallb present l = true -> i < length l -> exists x, slot i l = Some x.
Proof.
  intros Hdense Hi. destruct (lookup_lt_is_Some_2 l i Hi) as [[x|] Hx].
  - exists x. now apply slot_lookup.
  - exfalso. apply list_elem_of_lookup_2, list_elem_of_In in Hx.
    rewrite forallb_forall in Hdense. now apply Hdense in Hx.
Qed.

(** The positions of the Contents of a Subject: [k] below the size of
    Section [j]. *)
Lemma isSubject_positions (subject : Value) b secs j k :
  child (KField "sections") subject = Some (VArr b secs) ->
  arrayOf isSection (VArr b secs) = true ->
  is_Some (at_path (inSubject j k) subject)
  <-> exists n, List.map contentsCount secs !! j = Some n /\ k < n.
Proof.
  intros Hsecs Hsections. unfold inSubject. cbn [at_path]. rewrite Hsecs.
  cbn [mbind option_bind]. rewrite list_lookup_fmap.
  change (child (KIndex j) (VArr b secs)) with (slot j secs). unfold Value in *.
  destruct (slot j secs) as [section|] eqn:Hj.
  - pose proof (arrayOf_child j isSection (VArr b secs) section Hsections Hj) as Hsec.
    destruct (hasField_array "contents" isContent _ Hsec) as (ca & l & Hl & Hcontents).
    pose proof (arrayOf_dense _ _ _ Hcontents) as Hdense.
    apply slot_lookup in Hj. rewrite Hj. cbn [mbind option_bind fmap option_fmap option_map].
    rewrite Hl. cbn [mbind option_bind].
    change (child (KIndex k) (VArr ca l)) with (slot k l).
    assert (contentsCount (Some section) = length l) as ->
      by (unfold contentsCount; now rewrite Hl).
    split.
    + intros [c Hc]. exists (length l). split; [reflexivity|].
      destruct (slot k l) as [x|] eqn:Hk; [|discriminate].
      apply slot_lookup in Hk. now apply lookup_lt_Some in Hk.
    + intros (n & [= <-] & Hk). destruct (dense_slot l k Hdense Hk) as [x ->]. now eexists.
  - cbn [mbind option_bind]. split; [intros [c Hc]; discriminate|].
    intros (n & Hn & Hk). exfalso.
    destruct (secs !! j) as [e|] eqn:He; [|discriminate].
    destruct (dense_slot secs j (arrayOf_dense _ _ _ Hsections)) as [x Hx].
    + now apply lookup_lt_Some in He.
    + congruence.
Qed.

(** X22. On a batch [getTotalContentCount] does not raise and gives the
    number of Contents of the Subject: the sum over its Sections of the
    number of Contents of each, where Section [j] has [n] Contents when
    its Contents are those at the positions [k < n]; for an index with no
    Subject it gives 0. *)
Theorem getTotalContentCount_counts (st : editor) (i : nat) :
  isBatch (batchData st) = true ->
  exists sizes : list nat,
    (forall j k,
       is_Some (at_path (contentPath i j k) (batchData st))
       <-> exists n, sizes !! j = Some n /\ k < n) /\
    getTotalContentCount i st = Ok (Z.of_nat (list_sum sizes)).
Proof.
  intros Hbatch.
  destruct (hasField_array "subjects" isSubject _ Hbatch) as (a & subs & Hsubs & Hsubjects).
  unfold getTotalContentCount. rewrite (getProp_child _ _ _ Hsubs). cbn [mbind outcome_bind].
  assert (forall j k, at_path (contentPath i j k) (batchData st)
                      = child (KIndex i) (VArr a subs) ≫= at_path (inSubject j k)) as Hpath.
  { intros j k. unfold contentPath, subjectPath. cbn [app at_path].
    rewrite Hsubs. reflexivity. }
  destruct (array_index isSubject a subs i Hsubjects) as [(subject & Hs & Hshape)|[Hs Hu]].
  - rewrite (getProp_child _ _ _ Hs). cbn [mbind outcome_bind].
    destruct (hasField_array "sections" isSection _ Hshape) as (b & secs & Hsecs & Hsections).
    exists (List.map contentsCount secs). split.
    + intros j k. rewrite Hpath, Hs. cbn [mbind option_bind].
      now apply isSubject_positions with (b := b).
    + assert (getProp subject (KField "sections") = Ok (VArr b secs)) as Hget
        by now apply getProp_child.
      destruct subject; try discriminate. rewrite Hget. cbn [mbind outcome_bind].
      now rewrite reduce_sections.
  - exists []. split.
    + intros j k. rewrite Hpath, Hs. cbn. split; [intros [c Hc]; discriminate|].
      intros (n & Hn & _). discriminate.
    + now rewrite Hu.
Qed.

Lemma getTotalContentCount_counts_witness :
  exists sizes : list nat,
    (forall j k,
       is_Some (at_path (contentPath 0 j k) (batchData exampleEditor))
       <-> exists n, sizes !! j = Some n /\ k < n) /\
    getTotalContentCount 0 exampleEditor = Ok (Z.of_nat (list_sum sizes)).
Proof. exact (getTotalContentCount_counts exampleEditor 0 eq_refl). Defined.

End Counting.

(** ** Views *)

Section Views.

Implicit Types (grouped : Grouped) (type : ContentType) (section subject : Value).

Lemma keyOf_typeName type : keyOf (VStr (typeName type)) = Ok (Some type).
Proof. now destruct type. Qed.

Lemma keyOf_name (name : string) :
  inherited name = false ->
  keyOf (VStr name)
  = Ok (List.find (fun type => String.eqb name (typeName type)) [video; notes; assignment; quiz]).
Proof.
  intros H. cbn [keyOf List.find typeName].
  destruct (String.eqb name "video"); [reflexivity|].
  destruct (String.eqb name "notes"); [reflexivity|].
  destruct (String.eqb name "assignment"); [reflexivity|].
  destruct (String.eqb name "quiz"); [reflexivity|].
  now rewrite H.
Qed.

Lemma group_pushAll grouped type type' items :
  group (pushAll grouped type' items) type
  = group grouped type ++ (if sameType type' type then items else []).
Proof. destruct type, type'; cbn; now rewrite ?app_nil_r. Qed.

Lemma sameType_eq (a b : ContentType) : sameType a b = true <-> a = b.
Proof. destruct a, b; cbn; split; congruence. Qed.

Lemma collect_typed grouped section :
  isTyped section = true ->
  exists grouped',
    collect grouped section = Ok grouped' /\
    forall type, group grouped' type = group grouped type ++ contentsFor type (Some section).
Proof.
  unfold isTyped, collect, contentsFor.
  destruct (child (KField "type") section) as [[| | | |name| |]|] eqn:Ht; try discriminate.
  destruct (child (KField "contents") section) as [[| | | | | |a contents]|] eqn:Hc;
    try discriminate.
  intros Hname%negb_true_iff. rewrite (getProp_child _ _ _ Ht). cbn [mbind outcome_bind].
  rewrite keyOf_name by assumption. cbn [mbind outcome_bind].
  destruct (List.find _ _) as [t|] eqn:Hfind.
  - rewrite (getProp_child _ _ _ Hc). cbn [mbind outcome_bind spread].
    eexists. split; [reflexivity|]. intros type. rewrite group_pushAll. f_equal.
    apply List.find_some in Hfind as [_ Heq]. apply String.eqb_eq in Heq. subst name.
    destruct (sameType t type) eqn:E.
    + apply sameType_eq in E as ->. now rewrite String.eqb_refl.
    + destruct (String.eqb_spec (typeName t) (typeName type)) as [Heq|]; [|reflexivity].
      destruct t, type; discriminate.
  - exists grouped. split; [reflexivity|]. intros type.
    assert (String.eqb name (typeName type) = false) as ->.
    { pose proof (List.find_none _ _ Hfind type) as H. apply H. destruct type; cbn; tauto. }
    now rewrite app_nil_r.
Qed.

Lemma reduce_collect (sections : list (option Value)) grouped :
  forallb (from_option isTyped true) sections = true ->
  exists grouped',
    reduce collect grouped sections = Ok grouped' /\
    forall type, group grouped' type = group grouped type ++ flat_map (contentsFor type) sections.
Proof.
  revert grouped. induction sections as [|[s|] sections IH]; intros grouped; cbn [forallb].
  - intros _. exists grouped. split; [reflexivity|]. intros type. cbn. now rewrite app_nil_r.
  - intros [Hs H]%andb_true_iff. cbn [reduce from_option] in *.
    destruct (collect_typed grouped s Hs) as (g1 & -> & Hg1). cbn [mbind outcome_bind].
    destruct (IH g1 H) as (g2 & -> & Hg2). exists g2. split; [reflexivity|].
    intros type. rewrite Hg2, Hg1. cbn [flat_map]. now rewrite <- app_assoc.
  - intros H. cbn [reduce from_option] in *. destruct (IH grouped H) as (g2 & -> & Hg2).
    exists g2. split; [reflexivity|]. intros type. now rewrite Hg2.
Qed.

(** X23. [contentByType] puts under each of the four types the Contents of
    the Sections of that type, Section after Section; the Contents of a
    Section whose type is none of the four names are in no group (the
    names of the members every object inherits apart).  A Subject
    without [sections] gives four empty groups. *)
Theorem contentByType_groups subject :
  (forall a sections,
     child (KField "sections") subject = Some (VArr a sections) ->
     forallb (from_option isTyped true) sections = true ->
     exists grouped,
       contentByType subject = Ok grouped /\
       forall type, group grouped type = flat_map (contentsFor type) sections) /\
  (isObject subject = true -> child (KField "sections") subject = None ->
   contentByType subject = Ok grouped0).
Proof.
  split.
  - intros a sections Hsections Htyped. unfold contentByType.
    rewrite (getProp_child _ _ _ Hsections). cbn [mbind outcome_bind].
    destruct (reduce_collect sections grouped0 Htyped) as (grouped & Hrun & Hgroups).
    exists grouped. split; [exact Hrun|]. intros type. rewrite Hgroups. now destruct type.
  - intros Hobj Hnone. unfold contentByType. rewrite (getProp_field "sections" _ eq_refl) by exact Hobj.
    now rewrite Hnone.
Qed.

Lemma contentByType_groups_witness :
  exists grouped,
    contentByType (exampleSubject 2 "s1" "S1" [exampleContent 6 "c1" "x"]) = Ok grouped /\
    group grouped video = [exampleContent 6 "c1" "x"] /\
    group grouped notes = [].
Proof.
  destruct (contentByType_groups (exampleSubject 2 "s1" "S1" [exampleContent 6 "c1" "x"]))
    as [H _].
  destruct (H 3 [Some (VObj 4 [("name", VStr "Lectures"); ("type", VStr "video");
                               ("contents", VArr 5 [Some (exampleContent 6 "c1" "x")])])]
              eq_refl eq_refl) as (grouped & Hrun & Hgroups).
  exists grouped. split; [exact Hrun|]. split; apply Hgroups.
Defined.

Lemma availableTabs_spec grouped type :
  In type (availableTabs grouped) <-> group grouped type <> [].
Proof.
  unfold availableTabs. rewrite List.filter_In. split.
  - intros [_ H]. apply Nat.ltb_lt in H. intros E. rewrite E in H. cbn in H. lia.
  - intros H. split; [destruct type; cbn; tauto|].
    apply Nat.ltb_lt. destruct (group grouped type); [contradiction | cbn; lia].
Qed.

Lemma existsb_sameType type (tabs : list ContentType) :
  existsb (sameType type) tabs = true <-> In type tabs.
Proof.
  rewrite existsb_exists. split.
  - intros (x & Hx & E). apply sameType_eq in E. now subst.
  - intros H. exists type. split; [exact H|]. now apply sameType_eq.
Qed.

(** X24. The tab shown is the tab the user chose when that tab has Contents,
    and otherwise the first of video, notes, assignment, quiz that has;
    its list of Contents is empty only when no type has Contents. *)
Theorem activeTab_available grouped (userSelectedTab : option ContentType) :
  (forall type, In type (availableTabs grouped) <-> group grouped type <> []) /\
  (forall type, userSelectedTab = Some type -> group grouped type <> [] ->
     activeTab userSelectedTab (availableTabs grouped) = type) /\
  (availableTabs grouped <> [] ->
   In (activeTab userSelectedTab (availableTabs grouped)) (availableTabs grouped)) /\
  (activeContent grouped userSelectedTab = []
   <-> forall type, group grouped type = []).
Proof.
  assert (availableTabs grouped <> [] ->
          In (activeTab userSelectedTab (availableTabs grouped)) (availableTabs grouped))
    as Hin.
  { intros Hne. unfold activeTab.
    destruct (availableTabs grouped) as [|first rest] eqn:E; [contradiction|].
    destruct userSelectedTab as [tab|]; [|now left].
    destruct (existsb (sameType tab) (first :: rest)) eqn:Hex; [|now left].
    now apply existsb_sameType. }
  split; [apply availableTabs_spec|]. split; [|split; [exact Hin|]].
  - intros type -> Hne. unfold activeTab.
    now rewrite (proj2 (existsb_sameType type _) (proj2 (availableTabs_spec grouped type) Hne)).
  - unfold activeContent. split.
    + intros Hempty type. destruct (group grouped type) eqn:E; [reflexivity|]. exfalso.
      assert (availableTabs grouped <> []) as Hne.
      { intros Hnil. assert (In type (availableTabs grouped)) as H
          by (apply availableTabs_spec; congruence).
        now rewrite Hnil in H. }
      apply Hin, availableTabs_spec in Hne. contradiction.
    + intros Hall. apply Hall.
Qed.

Lemma activeTab_available_witness :
  In (activeTab (Some quiz) (availableTabs notesOnly)) (availableTabs notesOnly) /\
  activeTab (Some notes) (availableTabs notesOnly) = notes.
Proof.
  destruct (activeTab_available notesOnly (Some quiz)) as (_ & _ & Hin & _).
  destruct (activeTab_available notesOnly (Some notes)) as (_ & Hchosen & _).
  split.
  - apply Hin. discriminate.
  - apply Hchosen; [reflexivity | discriminate].
Defined.

Lemma getVideoPlayerURL_shape raw isLive :
  (blank raw = true /\ getVideoPlayerURL raw isLive = "#") \/
  (blank raw = false /\ prefixed (getVideoPlayerURL raw isLive) = true).
Proof.
  destruct (blank raw) eqn:B; [left; split; [reflexivity | now apply getVideoPlayerURL_blank]|].
  right. split; [reflexivity|]. destruct (prefixed raw) eqn:P.
  - now rewrite getVideoPlayerURL_prefixed.
  - rewrite getVideoPlayerURL_encode by assumption. apply playback_prefixed.
Qed.

Lemma prefixed_nonempty (s : string) : prefixed s = true -> s <> "" /\ s <> "#".
Proof.
  unfold prefixed, startsWith. intros [H|H]%orb_true_iff;
    apply prefix_spec in H as [rest ->]; split; discriminate.
Qed.

(** X25. The link [getHrefForContent] gives a Content with a string as URL is
    never empty: for a document (notes, assignment, quiz) it is the URL
    itself, or ["#"] when the URL is empty; for every other type, also a
    missing one, it is what [getVideoPlayerURL] makes of the URL, that
    is, ["#"] for a blank URL and a player link otherwise.  A URL of
    white space only is thus the link of a document and ["#"] for a
    video. *)
Theorem getHrefForContent_link (content : Value) (url : string) :
  child (KField "url") content = Some (VStr url) ->
  exists href,
    getHrefForContent content = Ok href /\
    href <> "" /\
    (isDocument content = true -> href = if String.eqb url "" then "#" else url) /\
    (isDocument content = false ->
     href = getVideoPlayerURL url false /\
     (blank url = true -> href = "#") /\
     (blank url = false -> prefixed href = true)).
Proof.
  intros Hurl. pose proof (child_isObject _ _ _ Hurl) as Hobj.
  unfold getHrefForContent, isDocument.
  rewrite (getProp_field "type" _ eq_refl) by exact Hobj. cbn [mbind outcome_bind].
  rewrite (getProp_child _ _ _ Hurl). cbn [mbind outcome_bind].
  set (document := match default VUndef (child (KField "type") content) with
                   | VStr s => _
                   | _ => false
                   end).
  assert (match child (KField "type") content with
          | Some (VStr s) =>
              String.eqb s "notes" || String.eqb s "assignment" || String.eqb s "quiz"
          | _ => false
          end = document) as ->.
  { unfold document. now destruct (child (KField "type") content) as [[]|]. }
  destruct document.
  - eexists. split; [reflexivity|]. unfold falsy. split; [|split; [reflexivity | discriminate]].
    destruct (String.eqb_spec url ""); [discriminate | assumption].
  - eexists. split; [reflexivity|].
    destruct (getVideoPlayerURL_shape url false) as [[B E]|[B P]].
    + rewrite E. split; [discriminate|]. split; [discriminate|]. intros _.
      split; [reflexivity|]. split; [reflexivity | congruence].
    + split; [now apply prefixed_nonempty|]. split; [discriminate|]. intros _.
      split; [reflexivity|]. split; [congruence | now intros _].
Qed.

Lemma getHrefForContent_link_witness :
  exists href,
    getHrefForContent (exampleContent 6 "c1" "x") = Ok href /\ href <> "".
Proof.
  destruct (getHrefForContent_link (exampleContent 6 "c1" "x") "u" eq_refl)
    as (href & Hrun & Hne & _).
  exists href. split; [exact Hrun | exact Hne].
Defined.

End Views.

(** ** The thumbnail of a Content *)

Section Thumbnail.

Lemma triples_ind (P : list N -> Prop) :
  P [] -> (forall a, P [a]) -> (forall a b, P [a; b]) ->
  (forall a b c rest, P rest -> P (a :: b :: c :: rest)) ->
  forall l, P l.
Proof.
  intros H0 H1 H2 H3 l.
  assert (forall n l, (length l <= n)%nat -> P l) as H.
  { clear l. induction n as [|n IH]; intros [|a [|b [|c rest]]] Hl; cbn in Hl; auto; try lia.
    apply H3, IH. lia. }
  now apply (H (length l)).
Qed.

Lemma sextet_round (n : N) :
  (n < 64)%N ->
  charSextet (sextetChar n) = Some n /\
  isAsciiWhitespace (sextetChar n) = false /\
  Ascii.eqb (sextetChar n) "=" = false.
Proof.
  intros H.
  set (ok := fun n =>
    match charSextet (sextetChar n) with Some m => (m =? n)%N | None => false end
    && negb (isAsciiWhitespace (sextetChar n)) && negb (Ascii.eqb (sextetChar n) "=")).
  assert (forallb ok (List.map N.of_nat (seq 0 64)) = true) as Hall by (vm_compute; reflexivity).
  rewrite forallb_forall in Hall.
  assert (ok n = true) as Hn.
  { apply Hall, in_map_iff. exists (N.to_nat n). split; [lia|]. apply in_seq. lia. }
  unfold ok in Hn. apply andb_true_iff in Hn as [[H1 H2]%andb_true_iff H3].
  apply negb_true_iff in H2, H3. repeat split; try assumption.
  destruct (charSextet (sextetChar n)) as [m|]; [|discriminate].
  now apply N.eqb_eq in H1 as ->.
Qed.

Lemma sextets_bound (os : list N) :
  Forall (fun o => (o < 256)%N) os -> Forall (fun s => (s < 64)%N) (sextets os).
Proof.
  induction os as [|a|a b|a b c rest IH] using triples_ind; intros H; cbn [sextets].
  - constructor.
  - apply Forall_cons_1 in H as [Ha _].
    repeat constructor.
    + apply N.Div0.div_lt_upper_bound. lia.
    + pose proof (N.mod_upper_bound a 4). lia.
  - apply Forall_cons_1 in H as [Ha [Hb _]%Forall_cons_1].
    assert (b / 16 < 16)%N by (apply N.Div0.div_lt_upper_bound; lia).
    repeat constructor.
    + apply N.Div0.div_lt_upper_bound. lia.
    + pose proof (N.mod_upper_bound a 4). lia.
    + pose proof (N.mod_upper_bound b 16). lia.
  - apply Forall_cons_1 in H as [Ha [Hb [Hc H]%Forall_cons_1]%Forall_cons_1].
    assert (b / 16 < 16)%N by (apply N.Div0.div_lt_upper_bound; lia).
    assert (c / 64 < 4)%N by (apply N.Div0.div_lt_upper_bound; lia).
    repeat apply Forall_cons_2; [| | | |now apply IH].
    + apply N.Div0.div_lt_upper_bound. lia.
    + pose proof (N.mod_upper_bound a 4). lia.
    + pose proof (N.mod_upper_bound b 16). lia.
    + apply N.mod_upper_bound. lia.
Qed.

Lemma high_low (x hi lo d : N) :
  (lo < d)%N -> ((hi * d + lo) / d = hi /\ (hi * d + lo) mod d = lo)%N.
Proof.
  intros H. split.
  - symmetry. apply (N.div_unique _ d hi lo); lia.
  - symmetry. apply (N.mod_unique _ d hi lo); lia.
Qed.

Lemma octets_sextets (os : list N) :
  Forall (fun o => (o < 256)%N) os -> octets (sextets os) = os.
Proof.
  induction os as [|a|a b|a b c rest IH] using triples_ind; intros H;
    cbn [sextets octets].
  - reflexivity.
  - destruct (high_low a (a mod 4) 0 16) as [E _]; [lia|].
    rewrite N.add_0_r in E. rewrite E.
    f_equal. pose proof (N.div_mod a 4). lia.
  - apply Forall_cons_1 in H as [Ha [Hb _]%Forall_cons_1].
    assert (b / 16 < 16)%N by (apply N.Div0.div_lt_upper_bound; lia).
    destruct (high_low a (a mod 4) (b / 16) 16) as [-> ->]; [assumption|].
    destruct (high_low b (b mod 16) 0 4) as [E _]; [lia|].
    rewrite N.add_0_r in E. rewrite E.
    pose proof (N.div_mod a 4). pose proof (N.div_mod b 16).
    f_equal; [lia|]. f_equal. lia.
  - apply Forall_cons_1 in H as [Ha [Hb [Hc H]%Forall_cons_1]%Forall_cons_1].
    assert (b / 16 < 16)%N by (apply N.Div0.div_lt_upper_bound; lia).
    assert (c / 64 < 4)%N by (apply N.Div0.div_lt_upper_bound; lia).
    destruct (high_low a (a mod 4) (b / 16) 16) as [-> ->]; [assumption|].
    destruct (high_low b (b mod 16) (c / 64) 4) as [-> ->]; [assumption|].
    rewrite IH by assumption.
    pose proof (N.div_mod a 4). pose proof (N.div_mod b 16). pose proof (N.div_mod c 64).
    f_equal; [lia|]. f_equal; [lia|]. f_equal. lia.
Qed.

(** The length of the sextets and of the padding. *)
Lemma sextets_length (os : list N) :
  (length (sextets os) + length (padding (length os)) = 4 * ((length os + 2) / 3))%nat /\
  (length (sextets os) mod 4 <> 1)%nat /\
  (padding (length os) <> [] -> sextets os <> []).
Proof.
  induction os as [|a|a b|a b c rest (IH1 & IH2 & IH3)] using triples_ind.
  - repeat split; cbn; congruence.
  - repeat split; cbn; congruence.
  - repeat split; cbn; congruence.
  - assert (padding (length (a :: b :: c :: rest)) = padding (length rest)) as ->.
    { unfold padding. cbn [length].
      replace (S (S (S (length rest)))) with (length rest + 1 * 3)%nat by lia.
      now rewrite Nat.Div0.mod_add. }
    cbn [sextets length]. split; [|split].
    + replace (S (S (S (length rest))) + 2)%nat with (length rest + 2 + 1 * 3)%nat by lia.
      rewrite Nat.div_add by lia. lia.
    + replace (S (S (S (S (length (sextets rest)))))) with (length (sextets rest) + 1 * 4)%nat by lia.
      now rewrite Nat.Div0.mod_add.
    + discriminate.
Qed.

Lemma padding_cases (n : nat) :
  padding n = [] \/ padding n = ["="%char] \/ padding n = ["="%char; "="%char].
Proof. unfold padding. destruct (n mod 3)%nat as [|[|[|?]]]; auto. Qed.

Lemma unpad_padded (body : list ascii) (n : nat) :
  Forall (fun c => Ascii.eqb c "=" = false) body ->
  (length (body ++ padding n) mod 4 = 0)%nat ->
  (padding n <> [] -> body <> []) ->
  unpad (body ++ padding n) = body.
Proof.
  intros Hbody Hlen Hne. unfold unpad. rewrite Hlen. cbn [Nat.eqb].
  assert (forall c r, rev body = c :: r -> Ascii.eqb c "=" = false) as Hlast.
  { intros c r E. apply (f_equal (@rev _)) in E. rewrite rev_involutive in E.
    rewrite E in Hbody. cbn in Hbody. apply Forall_app in Hbody as [_ Hc].
    now apply Forall_cons_1 in Hc as [Hc _]. }
  assert (rev body = [] -> body = []) as Hnil.
  { intros E. apply (f_equal (@rev _)) in E. now rewrite rev_involutive in E. }
  rewrite rev_app_distr.
  destruct (padding_cases n) as [E|[E|E]]; rewrite E in *; cbn [rev List.app].
  - rewrite app_nil_r. destruct (rev body) as [|c [|c' r]] eqn:R; [reflexivity| |];
      now rewrite (Hlast _ _ eq_refl).
  - destruct (rev body) as [|c r] eqn:R; [exfalso; now apply Hne; [|apply Hnil]|].
    cbn. rewrite (Hlast _ _ eq_refl).
    change (rev r ++ [c]) with (rev (c :: r)). now rewrite <- R, rev_involutive.
  - cbn. now rewrite rev_involutive.
Qed.

Lemma mapM_charSextet (ss : list N) :
  Forall (fun s => (s < 64)%N) ss -> mapM charSextet (List.map sextetChar ss) = Some ss.
Proof.
  induction 1 as [|s ss Hs _ IH]; [reflexivity|].
  cbn [List.map mapM].
  destruct (sextet_round s Hs) as [-> _]. cbn. now rewrite IH.
Qed.

Lemma filter_all {A} (p : A -> bool) (l : list A) :
  Forall (fun x => p x = true) l -> List.filter p l = l.
Proof. induction 1 as [|x l Hx _ IH]; cbn; [reflexivity|]. now rewrite Hx, IH. Qed.

Lemma string_of_codes (s : string) :
  string_of_list_ascii (List.map ascii_of_N (List.map code (list_ascii_of_string s))) = s.
Proof.
  rewrite List.map_map. rewrite (List.map_ext _ (fun c => c)) by apply ascii_code.
  rewrite List.map_id. apply string_of_list_ascii_of_string.
Qed.

(** [atob] undoes [btoa]. *)
Lemma atob_btoa (s : string) : atob (btoa s) = Some s.
Proof.
  unfold atob, btoa. rewrite list_ascii_of_string_of_list_ascii.
  set (os := List.map code (list_ascii_of_string s)).
  assert (Forall (fun o => (o < 256)%N) os) as Hos.
  { apply List.Forall_forall. intros o (c & <- & _)%in_map_iff. apply code_bound. }
  pose proof (sextets_bound os Hos) as Hss.
  destruct (sextets_length os) as (Hlen & Hmod & Hne).
  set (body := List.map sextetChar (sextets os)) in *.
  assert (Forall (fun c => Ascii.eqb c "=" = false) body) as Heq.
  { apply List.Forall_forall. intros c (n & <- & Hn)%in_map_iff.
    rewrite List.Forall_forall in Hss. now destruct (sextet_round n (Hss n Hn)) as (_ & _ & ?). }
  rewrite filter_all.
  2:{ apply Forall_app. split.
      - apply List.Forall_forall. intros c (n & <- & Hn)%in_map_iff.
        rewrite List.Forall_forall in Hss.
        destruct (sextet_round n (Hss n Hn)) as (_ & -> & _). reflexivity.
      - destruct (padding_cases (length os)) as [->|[->| ->]]; repeat constructor. }
  rewrite unpad_padded.
  - unfold body at 1. rewrite length_map.
    destruct (Nat.eqb_spec (length (sextets os) mod 4) 1) as [E|_]; [contradiction|].
    unfold body. rewrite mapM_charSextet by assumption. cbn.
    rewrite octets_sextets by assumption. unfold os. now rewrite string_of_codes.
  - exact Heq.
  - rewrite length_app. unfold body. rewrite length_map, Hlen.
    rewrite Nat.mul_comm. apply Nat.Div0.mod_mul.
  - intros Hp E. apply (Hne Hp). unfold body in E. now destruct (sextets os).
Qed.

(** X26. What the thumbnail of a Content keeps in its [data-title-b64] and
    [data-url-b64] attributes is read back without loss: the title that
    is written to [data-title] is the title of the Content, whatever
    code units below 256 it has, and a click opens the player URL of
    the Content, unless the URL of the Content is blank, when it opens
    nothing. *)
Theorem thumbnail_round_trip (title url : string) :
  dataTitle (encodedTitle title) = Ok title /\
  handleClick (encodedUrl url) =
    Ok (if blank url then None else Some (getVideoPlayerURL url false)).
Proof.
  unfold dataTitle, handleClick, encodedTitle, encodedUrl.
  rewrite !atob_btoa, !decode_encode. split; [reflexivity|].
  f_equal. destruct (getVideoPlayerURL_shape url false) as [[-> ->]|[-> H]]; [reflexivity|].
  apply prefixed_nonempty in H as [H1 H2].
  unfold falsy. apply String.eqb_neq in H1, H2. now rewrite H1, H2.
Qed.

End Thumbnail.
